(** * Order-to-shipment synchronisation: the sync engine and its note token

    A shallow embedding of the synchronisation core of the Shopify/Shipsy
    connector:

    - [services/sync-service.js]     (class [SyncService])
    - [services/shipsy-service.js]   (class [ShipsyService])
    - [services/shopify-service.js]  (class [ShopifyService])
    - [config/settings.js]           ([shipmentStatuses])
    - [utils/constants.js]           ([SUPPORTED_SHIPMENT_STATUSES])
    - [utils/logger.js], [models/sync-log.js], [models/shipment.js]

    JavaScript strings are sequences of UTF-16 code units; the regular
    expression of [extractConsignmentId] is run by a small backtracking
    matcher; asynchronous methods are computations in a state-and-exception
    monad over a world that records every request sent to the carrier and to
    the order source. *)

From Stdlib Require Import NArith ZArith List String Ascii Bool Lia.
From stdpp Require Import base option list gmap.

Set Default Proof Using "Type".

(* ===================================================================== *)
(** ** JavaScript strings *)
(* ===================================================================== *)

(** A JS string is a list of UTF-16 code units. *)
Definition jsstring : Type := list N.

(** An ASCII literal as a JS string. *)
Definition js (s : string) : jsstring :=
  map N_of_ascii (list_ascii_of_string s).
Arguments js _%_string.

(** The line terminator written by the template literal of [syncOrder]. *)
Definition LF : N := 10%N.

(** [\d] : the ten ASCII digits. *)
Definition is_digit (c : N) : bool := ((48 <=? c) && (c <=? 57))%N.

(** [\s] : ECMAScript WhiteSpace and LineTerminator code units. *)
Definition is_space (c : N) : bool :=
  (((9 <=? c) && (c <=? 13)) || (c =? 32) || (c =? 160) || (c =? 5760)
   || ((8192 <=? c) && (c <=? 8202)) || (c =? 8232) || (c =? 8233)
   || (c =? 8239) || (c =? 8287) || (c =? 12288) || (c =? 65279))%N.

(** Truthiness of a value that is a string, [null] or [undefined]:
    [None] stands for [null]/[undefined]; the empty string is falsy too. *)
Definition truthy (v : option jsstring) : bool :=
  match v with
  | Some (_ :: _) => true
  | _ => false
  end.

Fixpoint take_while (p : N -> bool) (s : jsstring) : jsstring :=
  match s with
  | c :: s' => if p c then c :: take_while p s' else []
  | [] => []
  end.

Fixpoint drop_while (p : N -> bool) (s : jsstring) : jsstring :=
  match s with
  | c :: s' => if p c then drop_while p s' else s
  | [] => []
  end.

(** [strip_lit l s] removes the literal [l] from the front of [s]. *)
Fixpoint strip_lit (l s : jsstring) : option jsstring :=
  match l with
  | [] => Some s
  | a :: l' =>
      match s with
      | c :: s' => if (c =? a)%N then strip_lit l' s' else None
      | [] => None
      end
  end.

(** [String.prototype.includes]: the literal occurs at some position. *)
Fixpoint includes (s l : jsstring) : bool :=
  match strip_lit l s with
  | Some _ => true
  | None =>
      match s with
      | [] => false
      | _ :: s' => includes s' l
      end
  end.

(* ===================================================================== *)
(** ** A backtracking matcher for the regular expressions of the source *)
(* ===================================================================== *)

Module Regex.

(** The fragment of ECMAScript patterns the source uses: literals,
    character classes, greedy class repetition, concatenation and one
    capture group. *)
Inductive regex : Type :=
| RStr (l : jsstring)
| RClass (p : N -> bool)
| RStar (p : N -> bool)
| RSeq (r1 r2 : regex)
| RGroup (r : regex).

(** Greedy [C*]: take as many code units as possible, give back one at a
    time while the continuation fails. *)
Fixpoint star_greedy {R} (p : N -> bool) (k : jsstring -> option R)
    (s : jsstring) : option R :=
  match s with
  | c :: s' =>
      if p c then
        match star_greedy p k s' with
        | Some r => Some r
        | None => k s
        end
      else k s
  | [] => k []
  end.

(** [rmatch r s cap k]: match [r] at the front of [s], then continue with
    [k] on the rest and the value of group 1. *)
Fixpoint rmatch {R} (r : regex) (s : jsstring) (cap : option jsstring)
    (k : jsstring -> option jsstring -> option R) : option R :=
  match r with
  | RStr l =>
      match strip_lit l s with
      | Some s' => k s' cap
      | None => None
      end
  | RClass p =>
      match s with
      | c :: s' => if p c then k s' cap else None
      | [] => None
      end
  | RStar p => star_greedy p (fun s' => k s' cap) s
  | RSeq r1 r2 => rmatch r1 s cap (fun s1 cap1 => rmatch r2 s1 cap1 k)
  | RGroup r1 =>
      rmatch r1 s cap
        (fun s1 _ => k s1 (Some (take (length s - length s1) s)))
  end.

(** A non-global [exec]: the leftmost start position at which the pattern
    matches; the result is the value of group 1. *)
Fixpoint exec (r : regex) (s : jsstring) : option (option jsstring) :=
  match rmatch r s None (fun _ cap => Some cap) with
  | Some cap => Some cap
  | None =>
      match s with
      | [] => None
      | _ :: s' => exec r s'
      end
  end.

End Regex.

(* ===================================================================== *)
(** ** The note token (sync-service.js) *)
(* ===================================================================== *)

Definition SHIPSY_ID_LIT : jsstring := js "SHIPSY_ID:".

(** [/SHIPSY_ID:\s*(\d+)/] *)
Definition SHIPSY_ID_RE : Regex.regex :=
  Regex.RSeq (Regex.RStr SHIPSY_ID_LIT)
    (Regex.RSeq (Regex.RStar is_space)
       (Regex.RGroup (Regex.RSeq (Regex.RClass is_digit) (Regex.RStar is_digit)))).

(** [SyncService.extractConsignmentId(note)]. *)
Definition extractConsignmentId (note : option jsstring) : option jsstring :=
  if negb (truthy note) then None
  else
    match note with
    | Some s =>
        match Regex.exec SHIPSY_ID_RE s with
        | Some m => m
        | None => None
        end
    | None => None
    end.

(** The guard of [syncOrder] and the counter of [getSyncStats]:
    [order.note && order.note.includes("SHIPSY_ID:")]. *)
Definition note_has_marker (note : option jsstring) : bool :=
  truthy note &&
  match note with
  | Some s => includes s SHIPSY_ID_LIT
  | None => false
  end.

(** The note text built by [syncOrder]:
    [`SHIPSY_ID: ${consignmentId}\nCreated: ${new Date().toISOString()}`]. *)
Definition sync_note (consignmentId timestamp : jsstring) : jsstring :=
  js "SHIPSY_ID: " ++ consignmentId ++ [LF] ++ js "Created: " ++ timestamp.


(* ===================================================================== *)
(** ** Orders and the requests sent to the outside *)
(* ===================================================================== *)

Record LineItem : Type := {
  item_title : jsstring;
  item_quantity : Z;
  item_grams : Z;
}.

(** The fields of a Shopify order that the sync engine reads.  A field that
    is [null] or missing is [None]. *)
Record Order : Type := {
  order_id : Z;
  order_number : option Z;
  note : option jsstring;
  tags : option jsstring;
  financial_status : option jsstring;
  fulfillment_status : option jsstring;
  line_items : option (list LineItem);
}.

(** The carrier payload of [transformOrderToConsignment]; the weight and the
    declared value are floating-point numbers and are not part of it. *)
Record Consignment : Type := {
  customer_reference_number : Z;
  items : list (jsstring * Z);
}.

(** [response.data] of the carrier's softdata upload; the identifier is a
    JSON string, [None] when the field is missing or [null]. *)
Record SoftdataReply : Type := {
  consignment_id : option jsstring;
}.

(** [response.data] of the carrier's status query; [None] is a status that
    is missing or [null]. *)
Record StatusReply : Type := {
  current_status : option jsstring;
}.

(** Query parameters of [GET /orders.json]. *)
Record OrderQuery : Type := {
  q_limit : N;
  q_status : jsstring;
  q_created_at_min : option jsstring;
}.

(** The body of [PUT /orders/:id.json]: one field of the order is replaced
    by the value sent; a status that is [undefined] ([None]) is dropped from
    the JSON body. *)
Inductive OrderPatch : Type :=
| PatchNote (text : jsstring)
| PatchTags (text : jsstring)
| PatchFinancialStatus (status : option jsstring).

(** Every HTTP request the two clients can send. *)
Inductive Request : Type :=
| CarrierPostSoftdata (payload : Consignment)
| CarrierGetStatus (consignmentId : jsstring)
| ShopifyGetOrders (params : OrderQuery)
| ShopifyGetOrder (orderId : Z)
| ShopifyPutOrder (orderId : Z) (patch : OrderPatch)
| ShopifyPostMessage (orderId : Z) (message : jsstring).

(** Requests that change something at the order source. *)
Definition is_order_write (r : Request) : bool :=
  match r with
  | ShopifyPutOrder _ _ | ShopifyPostMessage _ _ => true
  | _ => false
  end.

(** What an axios call settles to. *)
Inductive Http (A : Type) : Type :=
| Resolved (a : A)
| Rejected (message : jsstring).
Arguments Resolved {A} a.
Arguments Rejected {A} message.

(** The outside of the process: the two HTTP APIs, the clock and the
    environment, over a state [E] of their own. *)
Record Platform (E : Type) : Type := {
  carrier_post_softdata : Consignment -> E -> Http (option SoftdataReply) * E;
  carrier_get_status : jsstring -> E -> Http (option StatusReply) * E;
  shopify_get_orders : OrderQuery -> E -> Http (list Order) * E;
  shopify_get_order : Z -> E -> Http Order * E;
  shopify_put_order : Z -> OrderPatch -> E -> Http unit * E;
  shopify_post_message : Z -> jsstring -> E -> Http unit * E;
  toISOString_now : E -> jsstring;
  env_LOG_LEVEL : option jsstring;
  env_ENABLE_AUTO_SYNC : option jsstring;
}.
Arguments carrier_post_softdata {E} _ _ _.
Arguments carrier_get_status {E} _ _ _.
Arguments shopify_get_orders {E} _ _ _.
Arguments shopify_get_order {E} _ _ _.
Arguments shopify_put_order {E} _ _ _ _.
Arguments shopify_post_message {E} _ _ _ _.
Arguments toISOString_now {E} _ _.
Arguments env_LOG_LEVEL {E} _.
Arguments env_ENABLE_AUTO_SYNC {E} _.

(** A line of [logs/app.log]: its level and its message (the timestamp and
    the data object of the line are left out). *)
Record LogLine : Type := {
  log_level : jsstring;
  log_message : jsstring;
}.

(** A line of [logs/sync.log] (models/sync-log.js). *)
Record SyncLogEntry : Type := {
  entry_timestamp : jsstring;
  entry_type : jsstring;
  entry_status : option jsstring;
  entry_orderId : option Z;
  entry_consignmentId : option jsstring;
  entry_synced : nat;
  entry_failed : nat;
  entry_total : nat;
  entry_message : jsstring;
  entry_error : option jsstring;
  entry_duration : nat;
}.

(** The argument of [SyncLog.logSync]. *)
Record SyncData : Type := {
  data_status : option jsstring;
  data_orderId : option Z;
  data_consignmentId : option jsstring;
  data_synced : option nat;
  data_failed : option nat;
  data_total : option nat;
  data_message : option jsstring;
  data_error : option jsstring;
  data_duration : option nat;
}.

(** The state a run works on: the outside, the requests issued so far
    (oldest first) and the two log files. *)
Record World (E : Type) : Type := {
  outside : E;
  requests : list Request;
  app_log : list LogLine;
  sync_log : list SyncLogEntry;
}.
Arguments outside {E} _.
Arguments requests {E} _.
Arguments app_log {E} _.
Arguments sync_log {E} _.
Arguments Build_World {E} _ _ _ _.

(* ===================================================================== *)
(** ** The monad of asynchronous methods *)
(* ===================================================================== *)

(** An awaited call either returns a value or throws an error, whose
    [message] is what is kept. *)
Inductive Outcome (A : Type) : Type :=
| Returned (a : A)
| Thrown (message : jsstring).
Arguments Returned {A} a.
Arguments Thrown {A} message.

Definition Async (E A : Type) : Type := World E -> Outcome A * World E.

Definition ret {E A} (a : A) : Async E A := fun w => (Returned a, w).

Definition throw {E A} (message : jsstring) : Async E A :=
  fun w => (Thrown message, w).

Definition bind {E A B} (m : Async E A) (k : A -> Async E B) : Async E B :=
  fun w =>
    match m w with
    | (Returned a, w') => k a w'
    | (Thrown e, w') => (Thrown e, w')
    end.

(** [try { m } catch (error) { h error }] *)
Definition try_catch {E A} (m : Async E A) (h : jsstring -> Async E A)
    : Async E A :=
  fun w =>
    match m w with
    | (Returned a, w') => (Returned a, w')
    | (Thrown e, w') => h e w'
    end.

Notation "'await' x <- m ; k" := (bind m (fun x => k))
  (at level 10, x name, m at level 100, k at level 200).
Notation "'run' m ; k" := (bind m (fun _ => k))
  (at level 10, m at level 100, k at level 200).

(* ===================================================================== *)
(** ** config/settings.js and utils/constants.js *)
(* ===================================================================== *)

(** An entry of [settings.shipmentStatuses]. *)
Record StatusMapping : Type := {
  name : jsstring;
  shopifyStatus : jsstring;
  notify : bool;
}.

(** What reading [object[key]] finds on an object literal: a property of
    its own, a member inherited from [Object.prototype] (a function, or the
    prototype itself for [__proto__]; truthy, and without any of the fields
    of an entry), or [undefined]. *)
Inductive Property (A : Type) : Type :=
| Own (a : A)
| Inherited
| Undefined.
Arguments Own {A} a.
Arguments Inherited {A}.
Arguments Undefined {A}.

(** The property names of [Object.prototype]. *)
Definition Object_prototype_names : list jsstring :=
  [ js "constructor"; js "__defineGetter__"; js "__defineSetter__";
    js "hasOwnProperty"; js "__lookupGetter__"; js "__lookupSetter__";
    js "isPrototypeOf"; js "propertyIsEnumerable"; js "toString";
    js "valueOf"; js "__proto__"; js "toLocaleString" ].

(** [object[key]] for an object literal with the own properties [own]. *)
Definition property {A} (own : gmap (list N) A) (key : jsstring) : Property A :=
  match own !! key with
  | Some a => Own a
  | None =>
      if bool_decide (key ∈ Object_prototype_names) then Inherited
      else Undefined
  end.

(** The own properties of [settings.shipmentStatuses]. *)
Definition shipmentStatuses : gmap (list N) StatusMapping :=
  list_to_map
    [ (js "pickup_scheduled",
        {| name := [1580; 1583; 1608; 1604; 32; 1575; 1604; 1575; 1587; 1578;
                    1604; 1575; 1605]%N;
           shopifyStatus := js "pending"; notify := true |});
      (js "out_for_pickup",
        {| name := [1580; 1575; 1585; 1610; 32; 1575; 1604; 1575; 1587; 1578;
                    1604; 1575; 1605]%N;
           shopifyStatus := js "processing"; notify := true |});
      (js "reached_at_hub",
        {| name := [1608; 1589; 1604; 32; 1575; 1604; 1605; 1585; 1603;
                    1586]%N;
           shopifyStatus := js "processing"; notify := false |});
      (js "outfordelivery",
        {| name := [1580; 1575; 1585; 1610; 32; 1575; 1604; 1578; 1608; 1589;
                    1610; 1604]%N;
           shopifyStatus := js "processing"; notify := true |});
      (js "attempted",
        {| name := [1605; 1581; 1575; 1608; 1604; 1577; 32; 1578; 1608; 1589;
                    1610; 1604]%N;
           shopifyStatus := js "processing"; notify := true |});
      (js "delivered",
        {| name := [1578; 1605; 32; 1575; 1604; 1578; 1587; 1604; 1610;
                    1605]%N;
           shopifyStatus := js "completed"; notify := true |});
      (js "cancelled",
        {| name := [1605; 1604; 1594; 1609]%N;
           shopifyStatus := js "cancelled"; notify := true |}) ].

(** [constants.SUPPORTED_SHIPMENT_STATUSES]. *)
Definition SUPPORTED_SHIPMENT_STATUSES : list jsstring :=
  [ js "pickup_scheduled"; js "out_for_pickup"; js "reached_at_hub";
    js "outfordelivery"; js "attempted"; js "delivered"; js "cancelled" ].

(** The keys of [statusMap] in [Shipment.getStatusDescription]
    (models/shipment.js), the status vocabulary of a consignment. *)
Definition Shipment_statusMap_keys : list jsstring :=
  [ js "pickup_scheduled"; js "out_for_pickup"; js "reached_at_hub";
    js "in_transit"; js "outfordelivery"; js "attempted"; js "delivered";
    js "cancelled"; js "pending" ].

(** [settings.shipmentStatuses[key]]; an [undefined] key is the property
    name ["undefined"]. *)
Definition shipmentStatuses_get (key : option jsstring)
    : Property StatusMapping :=
  property shipmentStatuses (default (js "undefined") key).

(* ===================================================================== *)
(** ** utils/logger.js *)
(* ===================================================================== *)

(** The own properties of the table [levels]. *)
Definition levels : gmap (list N) N :=
  list_to_map
    [ (js "error", 0%N); (js "warn", 1%N); (js "info", 2%N);
      (js "debug", 3%N) ].

(** [this.level = levels[LOG_LEVEL] || levels.info] with
    [LOG_LEVEL = process.env.LOG_LEVEL || "info"].  [None] is a level that
    is not a number (an inherited member of [levels]): every comparison
    with it is false. *)
Definition Logger_level (env : option jsstring) : option N :=
  let LOG_LEVEL :=
    match env with
    | Some (c :: l) => c :: l
    | _ => js "info"
    end in
  match property levels LOG_LEVEL with
  | Own 0%N | Undefined => Some 2%N
  | Own n => Some n
  | Inherited => None
  end.

(** [this.level >= threshold] *)
Definition level_reaches (level : option N) (threshold : N) : bool :=
  match level with
  | Some l => (threshold <=? l)%N
  | None => false
  end.

(* ===================================================================== *)
(** ** Results of the service methods *)
(* ===================================================================== *)

(** The value [createConsignment] returns. *)
Record CreateResult : Type := {
  created_success : bool;
  created_consignmentId : jsstring;
  created_data : SoftdataReply;
}.

(** The objects [syncOrder] returns. *)
Record SyncOrderResult : Type := {
  success : bool;
  reason : option jsstring;
  orderId : option Z;
  consignmentId : option jsstring;
}.

(** [{ success: false, reason: "already_synced" }] *)
Definition already_synced : SyncOrderResult :=
  {| success := false; reason := Some (js "already_synced");
     orderId := None; consignmentId := None |}.

(** The options of [syncPendingOrders]. *)
Record SyncOptions : Type := {
  limit : option N;
  createdAfter : option jsstring;
}.

(** The filters handed to [getAllOrders]; [None] is a key that is absent or
    [undefined]. *)
Record OrderFilters : Type := {
  filter_limit : option N;
  filter_status : option jsstring;
  filter_created_at_min : option jsstring;
}.

(** [{ synced, failed, total }] *)
Record BatchResult : Type := {
  synced : nat;
  failed : nat;
  total : nat;
}.

(** [{ updated, failed }] *)
Record StatusBatchResult : Type := {
  updated : nat;
  failed_updates : nat;
}.

(** [transformOrderToConsignment]: reading [line_items] or [order_number]
    of an order that lacks them is a [TypeError].  The message is the one
    for a member that is [undefined]; for [null] it reads [of null]. *)
Definition transformOrderToConsignment (order : Order) : Outcome Consignment :=
  match line_items order with
  | None => Thrown (js "Cannot read properties of undefined (reading 'forEach')")
  | Some lineItems =>
      match order_number order with
      | None =>
          Thrown (js "Cannot read properties of undefined (reading 'toString')")
      | Some number =>
          Returned
            {| customer_reference_number := number;
               items := map (fun item => (item_title item, item_quantity item))
                          lineItems |}
      end
  end.

(** [tags.split(", ")] *)
Fixpoint split_comma_space (s current : jsstring) : list jsstring :=
  match s with
  | 44%N :: 32%N :: rest => rev current :: split_comma_space rest []
  | c :: rest => split_comma_space rest (c :: current)
  | [] => [rev current]
  end.

(** [tags.join(", ")] *)
Fixpoint join_comma_space (parts : list jsstring) : jsstring :=
  match parts with
  | [] => []
  | [p] => p
  | p :: rest => p ++ js ", " ++ join_comma_space rest
  end.

(** The [params] of [getAllOrders]:
    [{ limit: filters.limit || 50, status: filters.status || "any",
       ...filters }]. *)
Definition getAllOrders_params (filters : OrderFilters) : OrderQuery :=
  {| q_limit := default 50%N (filter_limit filters);
     q_status := default (js "any") (filter_status filters);
     q_created_at_min := filter_created_at_min filters |}.

(** The filters [syncPendingOrders] asks for:
    [{ status: "any", limit: options.limit || 50,
       created_at_min: options.createdAfter }]. *)
Definition syncPendingOrders_filters (options : SyncOptions) : OrderFilters :=
  {| filter_status := Some (js "any");
     filter_limit :=
       Some (match limit options with
             | Some 0%N | None => 50%N
             | Some l => l
             end);
     filter_created_at_min := createdAfter options |}.

(** The filters [updateConsignmentStatuses] asks for: [{ limit: 100 }]. *)
Definition updateConsignmentStatuses_filters : OrderFilters :=
  {| filter_status := None;
     filter_limit := Some 100%N;
     filter_created_at_min := None |}.

Section Engine.

Context {E : Type} (P : Platform E).

(** *** utils/logger.js *)

(** [Logger.log]: a line is appended to [logs/app.log].  The [data] of
    the line is taken to serialise: a [catch] that hands the logger the
    error object of a failed request is modelled as one that logs. *)
Definition Logger_log (level message : jsstring) : Async E unit :=
  fun w =>
    (Returned tt,
     {| outside := outside w;
        requests := requests w;
        app_log := app_log w ++ [{| log_level := level; log_message := message |}];
        sync_log := sync_log w |}).

Definition logger_error (message : jsstring) : Async E unit :=
  if level_reaches (Logger_level (env_LOG_LEVEL P)) 0
  then Logger_log (js "ERROR") message else ret tt.

Definition logger_warn (message : jsstring) : Async E unit :=
  if level_reaches (Logger_level (env_LOG_LEVEL P)) 1
  then Logger_log (js "WARN") message else ret tt.

Definition logger_info (message : jsstring) : Async E unit :=
  if level_reaches (Logger_level (env_LOG_LEVEL P)) 2
  then Logger_log (js "INFO") message else ret tt.

(** *** models/sync-log.js *)

(** [SyncLog.logSync(syncData)]: builds the entry and appends it to
    [logs/sync.log].  [consignmentId] and [error] are written as
    [x || null]: an empty text becomes [null]. *)
Definition logSync (syncData : SyncData) : Async E SyncLogEntry :=
  fun w =>
    let logEntry :=
      {| entry_timestamp := toISOString_now P (outside w);
         entry_type := js "sync";
         entry_status := data_status syncData;
         entry_orderId := data_orderId syncData;
         entry_consignmentId :=
           if truthy (data_consignmentId syncData)
           then data_consignmentId syncData else None;
         entry_synced := default 0 (data_synced syncData);
         entry_failed := default 0 (data_failed syncData);
         entry_total := default 0 (data_total syncData);
         entry_message := default [] (data_message syncData);
         entry_error :=
           if truthy (data_error syncData) then data_error syncData else None;
         entry_duration := default 0 (data_duration syncData) |} in
    (Returned logEntry,
     {| outside := outside w;
        requests := requests w;
        app_log := app_log w;
        sync_log := sync_log w ++ [logEntry] |}).

(** *** The HTTP clients *)

(** One axios call: the request is recorded, the outside answers. *)
Definition http {A} (r : Request) (answer : E -> Http A * E) : Async E A :=
  fun w =>
    let (settled, e') := answer (outside w) in
    let w' :=
      {| outside := e';
         requests := requests w ++ [r];
         app_log := app_log w;
         sync_log := sync_log w |} in
    match settled with
    | Resolved a => (Returned a, w')
    | Rejected message => (Thrown message, w')
    end.

(** [new Date().toISOString()] *)
Definition now : Async E jsstring :=
  fun w => (Returned (toISOString_now P (outside w)), w).

(** *** services/shipsy-service.js *)

(** [ShipsyService.createConsignment(orderData)] *)
Definition createConsignment (orderData : Order) : Async E CreateResult :=
  try_catch
    (await payload <- (fun w => (transformOrderToConsignment orderData, w));
     run logger_info (js "Creating consignment in Shipsy");
     await response_data <-
       http (CarrierPostSoftdata payload) (carrier_post_softdata P payload);
     match response_data with
     | Some data =>
         if truthy (consignment_id data) then
           run logger_info (js "Consignment created successfully");
           ret {| created_success := true;
                  created_consignmentId := default [] (consignment_id data);
                  created_data := data |}
         else throw (js "No consignment ID in response")
     | None => throw (js "No consignment ID in response")
     end)
    (fun error =>
       run logger_error (js "Failed to create consignment");
       throw error).

(** [ShipsyService.getConsignmentStatus(consignmentId)] *)
Definition getConsignmentStatus (cid : jsstring)
    : Async E (option StatusReply) :=
  try_catch
    (http (CarrierGetStatus cid) (carrier_get_status P cid))
    (fun error =>
       run logger_error (js "Failed to get consignment status");
       throw error).

(** *** services/shopify-service.js *)

(** [ShopifyService.getAllOrders(filters)] *)
Definition getAllOrders (filters : OrderFilters) : Async E (list Order) :=
  try_catch
    (let params := getAllOrders_params filters in
     http (ShopifyGetOrders params) (shopify_get_orders P params))
    (fun error =>
       run logger_error (js "Failed to get orders");
       throw error).

(** [ShopifyService.getOrder(orderId)] *)
Definition getOrder (id : Z) : Async E Order :=
  try_catch
    (http (ShopifyGetOrder id) (shopify_get_order P id))
    (fun error =>
       run logger_error (js "Failed to get order");
       throw error).

(** [ShopifyService.updateOrderNote(orderId, note)] *)
Definition updateOrderNote (id : Z) (text : jsstring) : Async E unit :=
  try_catch
    (http (ShopifyPutOrder id (PatchNote text))
       (shopify_put_order P id (PatchNote text)))
    (fun error =>
       run logger_error (js "Failed to update order note");
       throw error).

(** [ShopifyService.addOrderTag(orderId, tag)] *)
Definition addOrderTag (id : Z) (tag : jsstring) : Async E unit :=
  try_catch
    (await order <- getOrder id;
     let tags0 :=
       if truthy (tags order)
       then split_comma_space (default [] (tags order)) []
       else [] in
     let tags1 :=
       if bool_decide (tag ∈ tags0) then tags0 else tags0 ++ [tag] in
     http (ShopifyPutOrder id (PatchTags (join_comma_space tags1)))
       (shopify_put_order P id (PatchTags (join_comma_space tags1))))
    (fun error =>
       run logger_error (js "Failed to add order tag");
       throw error).

(** [ShopifyService.updateOrderStatus(orderId, status)] *)
Definition updateOrderStatus (id : Z) (status : option jsstring)
    : Async E unit :=
  try_catch
    (http (ShopifyPutOrder id (PatchFinancialStatus status))
       (shopify_put_order P id (PatchFinancialStatus status)))
    (fun error =>
       run logger_error (js "Failed to update order status");
       throw error).

(** [ShopifyService.sendOrderMessage(orderId, message)] *)
Definition sendOrderMessage (id : Z) (message : jsstring) : Async E unit :=
  try_catch
    (run http (ShopifyPostMessage id message)
           (shopify_post_message P id message);
     logger_info (js "Order message sent"))
    (fun error =>
       run logger_error (js "Failed to send order message");
       throw error).

(** *** services/sync-service.js *)

(** [SyncService.syncOrder(order)]; [None] is the [undefined] a call
    returns when it falls off the end of the method. *)
Definition syncOrder (order : Order) : Async E (option SyncOrderResult) :=
  try_catch
    (if note_has_marker (note order) then
       run logger_info (js "Order already synced");
       ret (Some already_synced)
     else
       await consignment <- createConsignment order;
       if created_success consignment then
         await timestamp <- now;
         let text :=
           sync_note (created_consignmentId consignment) timestamp in
         run updateOrderNote (order_id order) text;
         run addOrderTag (order_id order) (js "shipsy-synced");
         run logger_info (js "Order synced successfully");
         ret (Some {| success := true;
                      reason := None;
                      orderId := Some (order_id order);
                      consignmentId :=
                        Some (created_consignmentId consignment) |})
       else ret None)
    (fun error =>
       run logger_error (js "Failed to sync order");
       throw error).

(** The test that makes [syncPendingOrders] skip an order. *)
Definition is_terminal (order : Order) : bool :=
  bool_decide (financial_status order = Some (js "refunded"))
  || bool_decide (fulfillment_status order = Some (js "cancelled")).

(** One turn of the [for] loop of [syncPendingOrders]; the pair is
    [(synced, failed)]. *)
Definition syncPendingOrders_turn (order : Order) (counts : nat * nat)
    : Async E (nat * nat) :=
  try_catch
    (if is_terminal order then ret counts
     else
       await result <- syncOrder order;
       match result with
       | Some r =>
           if success r then ret (S (fst counts), snd counts)
           else ret counts
       | None =>
           throw (js "Cannot read properties of undefined (reading 'success')")
       end)
    (fun error =>
       run logger_error (js "Error syncing order");
       ret (fst counts, S (snd counts))).

Fixpoint syncPendingOrders_loop (orders : list Order) (counts : nat * nat)
    : Async E (nat * nat) :=
  match orders with
  | [] => ret counts
  | order :: rest =>
      await counts' <- syncPendingOrders_turn order counts;
      syncPendingOrders_loop rest counts'
  end.

(** [SyncService.syncPendingOrders(options)] *)
Definition syncPendingOrders (options : SyncOptions) : Async E BatchResult :=
  try_catch
    (run logger_info (js "Starting order sync...");
     await orders <- getAllOrders (syncPendingOrders_filters options);
     await counts <- syncPendingOrders_loop orders (0, 0);
     run logger_info (js "Order sync completed");
     ret {| synced := fst counts;
            failed := snd counts;
            total := length orders |})
    (fun error =>
       run logger_error (js "Order sync failed");
       throw error).

(** [SyncService.updateOrderFromShipmentStatus(orderId, shipmentStatus)].
    For an inherited member [statusMapping.shopifyStatus] and
    [statusMapping.notify] are [undefined]. *)
Definition updateOrderFromShipmentStatus (id : Z)
    (shipmentStatus : StatusReply) : Async E unit :=
  match shipmentStatuses_get (current_status shipmentStatus) with
  | Undefined => logger_warn (js "Unknown shipment status")
  | Own statusMapping =>
      try_catch
        (run updateOrderStatus id (Some (shopifyStatus statusMapping));
         run (if notify statusMapping then
                sendOrderMessage id
                  ([1578; 1581; 1583; 1610; 1579; 32; 1575; 1604; 1588;
                    1581; 1606; 1577; 58; 32]%N ++ name statusMapping)
              else ret tt);
         logger_info (js "Order status updated"))
        (fun error =>
           run logger_error (js "Failed to update order status");
           throw error)
  | Inherited =>
      try_catch
        (run updateOrderStatus id None;
         logger_info (js "Order status updated"))
        (fun error =>
           run logger_error (js "Failed to update order status");
           throw error)
  end.

(** One turn of the [for] loop of [updateConsignmentStatuses]; the pair
    is [(updated, failed)]. *)
Definition updateConsignmentStatuses_turn (order : Order)
    (counts : nat * nat) : Async E (nat * nat) :=
  try_catch
    (match extractConsignmentId (note order) with
     | None => ret counts
     | Some cid =>
         if negb (truthy (Some cid)) then ret counts
         else
           await status <- getConsignmentStatus cid;
           match status with
           | Some reply =>
               if truthy (current_status reply) then
                 run updateOrderFromShipmentStatus (order_id order) reply;
                 ret (S (fst counts), snd counts)
               else ret counts
           | None => ret counts
           end
     end)
    (fun error =>
       run logger_error (js "Error updating status");
       ret (fst counts, S (snd counts))).

Fixpoint updateConsignmentStatuses_loop (orders : list Order)
    (counts : nat * nat) : Async E (nat * nat) :=
  match orders with
  | [] => ret counts
  | order :: rest =>
      await counts' <- updateConsignmentStatuses_turn order counts;
      updateConsignmentStatuses_loop rest counts'
  end.

(** [SyncService.updateConsignmentStatuses()] *)
Definition updateConsignmentStatuses : Async E StatusBatchResult :=
  try_catch
    (run logger_info (js "Starting consignment status update...");
     await orders <- getAllOrders updateConsignmentStatuses_filters;
     await counts <- updateConsignmentStatuses_loop orders (0, 0);
     run logger_info (js "Status update completed");
     ret {| updated := fst counts; failed_updates := snd counts |})
    (fun error =>
       run logger_error (js "Status update failed");
       throw error).

(** The [synced] counter of [SyncService.getSyncStats]. *)
Definition getSyncStats_synced (orders : list Order) : nat :=
  length (List.filter (fun order => note_has_marker (note order)) orders).

(** *** services/webhook-service.js *)

(** [WebhookService.handleOrderUpdated(order)]; the value returned is
    always [{ success: true }]. *)
Definition handleOrderUpdated (order : Order) : Async E bool :=
  try_catch
    (run logger_info (js "Handling order updated webhook");
     run (if bool_decide (financial_status order = Some (js "paid")) then
            let cid := extractConsignmentId (note order) in
            if negb (truthy cid)
               && negb (bool_decide
                          (env_ENABLE_AUTO_SYNC P = Some (js "false")))
            then run syncOrder order; ret tt
            else ret tt
          else ret tt);
     ret true)
    (fun error =>
       run logger_error (js "Error handling order updated webhook");
       throw error).

End Engine.

(* ===================================================================== *)
(** ** Definitions used to state the properties *)
(* ===================================================================== *)

(** The token that starts at the very front of [s]: the literal, any run of
    white space, then the longest non-empty run of digits. *)
Definition token_at (s : jsstring) : option jsstring :=
  match strip_lit SHIPSY_ID_LIT s with
  | Some rest =>
      match take_while is_digit (drop_while is_space rest) with
      | [] => None
      | d => Some d
      end
  | None => None
  end.

(** The token at the leftmost position that has one. *)
Fixpoint first_token (s : jsstring) : option jsstring :=
  match token_at s with
  | Some d => Some d
  | None =>
      match s with
      | [] => None
      | _ :: s' => first_token s'
      end
  end.

(** The text that follows the first occurrence of the literal [l]. *)
Fixpoint after_first_occurrence (l s : jsstring) : option jsstring :=
  match strip_lit l s with
  | Some rest => Some rest
  | None =>
      match s with
      | [] => None
      | _ :: s' => after_first_occurrence l s'
      end
  end.

(** The reading "the maximal digit run that follows, after optional white
    space, the first occurrence of [SHIPSY_ID:]", with [null] when the note
    is empty, has no occurrence, or the run is empty. *)
Definition digits_after_first_marker (note : option jsstring)
    : option jsstring :=
  match note with
  | Some s =>
      match after_first_occurrence SHIPSY_ID_LIT s with
      | Some rest =>
          match take_while is_digit (drop_while is_space rest) with
          | [] => None
          | d => Some d
          end
      | None => None
      end
  | None => None
  end.

(** [syncOrder] returned [{ success: true, ... }]. *)
Definition sync_succeeded (out : Outcome (option SyncOrderResult)) : bool :=
  match out with
  | Returned (Some r) => success r
  | _ => false
  end.

(** [syncOrder] threw. *)
Definition sync_threw (out : Outcome (option SyncOrderResult)) : bool :=
  match out with
  | Thrown _ => true
  | _ => false
  end.

Section Outcomes.

Context {E : Type} (P : Platform E).

(** A world on the outside [e] in which nothing was sent or logged yet. *)
Definition fresh_world (e : E) : World E :=
  {| outside := e; requests := []; app_log := []; sync_log := [] |}.

(** What the calls [syncOrder(order)] settle to when the orders of the
    list are synced one after the other: the first on the outside [e],
    each of the others on the outside the call before it left. *)
Fixpoint sync_outcomes (orders : list Order) (e : E)
    : list (Outcome (option SyncOrderResult)) :=
  match orders with
  | [] => []
  | order :: rest =>
      let after := syncOrder P order (fresh_world e) in
      fst after :: sync_outcomes rest (outside (snd after))
  end.

End Outcomes.

(** The number of outcomes that are a success, and that are a throw. *)
Definition successes (outcomes : list (Outcome (option SyncOrderResult)))
    : nat :=
  length (List.filter sync_succeeded outcomes).

Definition throws (outcomes : list (Outcome (option SyncOrderResult)))
    : nat :=
  length (List.filter sync_threw outcomes).

(** What [m] returns and the outside it leaves depend on the outside it
    starts from only, not on the requests and lines recorded so far. *)
Definition outside_local {E A} (m : Async E A) : Prop :=
  forall w w2 : World E,
    outside w = outside w2 ->
    fst (m w) = fst (m w2) /\ outside (snd (m w)) = outside (snd (m w2)).

(** From [w] to [w'] exactly the requests [rs] were sent, the outside went
    to [e'], and [logs/sync.log] was not written; [logs/app.log] may have
    grown. *)
Definition issued {E} (w w' : World E) (rs : list Request) (e' : E) : Prop :=
  requests w' = requests w ++ rs /\ outside w' = e' /\
  sync_log w' = sync_log w.

(** The lines of [logs/app.log] added from [w] to [w'] all have a message
    that satisfies [Q]. *)
Definition logged_only {E} (Q : jsstring -> Prop) (w w' : World E) : Prop :=
  exists lines,
    app_log w' = app_log w ++ lines /\
    Forall (fun l => Q (log_message l)) lines.

(** Whatever the start, the computation only adds lines to [logs/app.log]
    whose message satisfies [Q]. *)
Definition logs_within {E A} (Q : jsstring -> Prop) (m : Async E A) : Prop :=
  forall w, logged_only Q w (snd (m w)).

(** The carrier's 2xx answer carries a consignment identifier. *)
Definition has_consignment_id (reply : option SoftdataReply) : bool :=
  match reply with
  | Some data => truthy (consignment_id data)
  | None => false
  end.

(* ===================================================================== *)
(** ** A concrete outside: a store of orders and a scripted carrier *)
(* ===================================================================== *)

Module Demo.

Definition apply_patch (patch : OrderPatch) (o : Order) : Order :=
  match patch with
  | PatchNote text =>
      {| order_id := order_id o; order_number := order_number o;
         note := Some text; tags := tags o;
         financial_status := financial_status o;
         fulfillment_status := fulfillment_status o;
         line_items := line_items o |}
  | PatchTags text =>
      {| order_id := order_id o; order_number := order_number o;
         note := note o; tags := Some text;
         financial_status := financial_status o;
         fulfillment_status := fulfillment_status o;
         line_items := line_items o |}
  | PatchFinancialStatus status =>
      {| order_id := order_id o; order_number := order_number o;
         note := note o; tags := tags o;
         financial_status :=
           match status with
           | Some _ => status
           | None => financial_status o
           end;
         fulfillment_status := fulfillment_status o;
         line_items := line_items o |}
  end.

Definition find_order (id : Z) (store : list Order) : option Order :=
  List.find (fun o => (order_id o =? id)%Z) store.

(** The order source keeps a list of orders; the carrier answers a
    creation by [carrier] and a status query by [status]. *)
Definition platform
    (carrier : Consignment -> Http (option SoftdataReply))
    (status : jsstring -> Http (option StatusReply))
    : Platform (list Order) :=
  {| carrier_post_softdata := fun payload store => (carrier payload, store);
     carrier_get_status := fun cid store => (status cid, store);
     shopify_get_orders := fun _ store => (Resolved store, store);
     shopify_get_order := fun id store =>
       (match find_order id store with
        | Some o => Resolved o
        | None => Rejected (js "Request failed with status code 404")
        end, store);
     shopify_put_order := fun id patch store =>
       (match find_order id store with
        | Some _ => Resolved tt
        | None => Rejected (js "Request failed with status code 404")
        end,
        map (fun o => if (order_id o =? id)%Z then apply_patch patch o else o)
          store);
     shopify_post_message := fun _ _ store => (Resolved tt, store);
     toISOString_now := fun _ => js "2024-01-01T00:00:00.000Z";
     env_LOG_LEVEL := None;
     env_ENABLE_AUTO_SYNC := None |}.

Definition world (store : list Order) : World (list Order) :=
  {| outside := store; requests := []; app_log := []; sync_log := [] |}.

Definition order (id : Z) (text : option jsstring) : Order :=
  {| order_id := id; order_number := Some id; note := text; tags := None;
     financial_status := Some (js "paid"); fulfillment_status := None;
     line_items :=
       Some [{| item_title := js "Shirt"; item_quantity := 1;
                item_grams := 500 |}] |}.

(** A carrier that issues the identifier [cid] for every order. *)
Definition issues (cid : jsstring) (payload : Consignment)
    : Http (option SoftdataReply) :=
  Resolved (Some {| consignment_id := Some cid |}).

(** A carrier that rejects the order numbered [bad] and issues [cid] for
    the others. *)
Definition rejects (bad : Z) (cid : jsstring) (payload : Consignment)
    : Http (option SoftdataReply) :=
  if (customer_reference_number payload =? bad)%Z
  then Rejected (js "Request failed with status code 500")
  else Resolved (Some {| consignment_id := Some cid |}).

(** A carrier that answers 2xx without an identifier. *)
Definition omits_id (payload : Consignment) : Http (option SoftdataReply) :=
  Resolved (Some {| consignment_id := None |}).

(** A carrier that reports [s] as the current status of everything. *)
Definition reports (s : jsstring) (cid : jsstring)
    : Http (option StatusReply) :=
  Resolved (Some {| current_status := Some s |}).

(** The instant the demo clock shows. *)
Definition stamp : jsstring := js "2024-01-01T00:00:00.000Z".

(** A note typed by the merchant. *)
Definition merchant_note : jsstring := js "Leave at the back door".

(** The note [syncOrder] writes for a carrier identifier with letters. *)
Definition lettered_note : jsstring := sync_note (js "YE12345") stamp.

(** A note with two markers, the first of them without digits. *)
Definition two_marker_note : jsstring := js "SHIPSY_ID:x SHIPSY_ID:7".

End Demo.


(* ===================================================================== *)
(** ** The rest of the sync service and the webhook service *)
(* ===================================================================== *)

(** The object [getSyncStats] returns. *)
Record SyncStats : Type := {
  stats_total : nat;
  stats_synced : nat;
  stats_notSynced : nat;
  stats_pending : nat;
  stats_completed : nat;
}.

(** The body of the [forEach] of [getSyncStats]: one order is tallied. *)
Definition getSyncStats_tally (stats : SyncStats) (order : Order) : SyncStats :=
  let marked := note_has_marker (note order) in
  let pending :=
    bool_decide (fulfillment_status order = Some (js "pending"))
    || bool_decide (fulfillment_status order = Some (js "partial")) in
  let fulfilled :=
    bool_decide (fulfillment_status order = Some (js "fulfilled")) in
  {| stats_total := stats_total stats;
     stats_synced :=
       if marked then S (stats_synced stats) else stats_synced stats;
     stats_notSynced :=
       if marked then stats_notSynced stats else S (stats_notSynced stats);
     stats_pending :=
       if pending then S (stats_pending stats) else stats_pending stats;
     stats_completed :=
       if pending then stats_completed stats
       else if fulfilled then S (stats_completed stats)
            else stats_completed stats |}.

(** The filters [getSyncStats] asks for: [{ limit: 100 }]. *)
Definition getSyncStats_filters : OrderFilters :=
  {| filter_status := None;
     filter_limit := Some 100%N;
     filter_created_at_min := None |}.

Section Ingress.

Context {E : Type} (P : Platform E).

(** [SyncService.getSyncStats()] *)
Definition getSyncStats : Async E SyncStats :=
  try_catch
    (await orders <- getAllOrders P getSyncStats_filters;
     ret (fold_left getSyncStats_tally orders
            {| stats_total := length orders;
               stats_synced := 0;
               stats_notSynced := 0;
               stats_pending := 0;
               stats_completed := 0 |}))
    (fun error =>
       run logger_error P (js "Failed to get sync stats");
       throw error).

(** [WebhookService.handleOrderCreated(order)]; the value returned is
    always [{ success: true }]. *)
Definition handleOrderCreated (order : Order) : Async E bool :=
  try_catch
    (run logger_info P (js "Handling order created webhook");
     run (if negb (bool_decide (env_ENABLE_AUTO_SYNC P = Some (js "false")))
          then run syncOrder P order; ret tt
          else logger_info P (js "Auto sync is disabled, order not synced"));
     ret true)
    (fun error =>
       run logger_error P (js "Error handling order created webhook");
       throw error).

End Ingress.

(** From [w] to [w'] requests were only added, and every one added
    satisfies [q]. *)
Definition sent_only {E} (q : Request -> bool) (w w' : World E) : Prop :=
  exists rs, requests w' = requests w ++ rs /\ forallb q rs = true.

(** Whatever the start, every request the computation sends satisfies
    [q]. *)
Definition sends_within {E A} (q : Request -> bool) (m : Async E A) : Prop :=
  forall w, sent_only q w (snd (m w)).

(** The requests of a sync: the creation of a consignment, the read of an
    order, and the writes of a note or of tags. *)
Definition is_sync_request (r : Request) : bool :=
  match r with
  | CarrierPostSoftdata _ => true
  | ShopifyGetOrder _ => true
  | ShopifyPutOrder _ (PatchNote _) => true
  | ShopifyPutOrder _ (PatchTags _) => true
  | _ => false
  end.

(** The requests of a reconciliation: the status query, the write of an
    order's status and the message to the customer. *)
Definition is_reconciliation_request (r : Request) : bool :=
  match r with
  | CarrierGetStatus _ => true
  | ShopifyPutOrder _ (PatchFinancialStatus _) => true
  | ShopifyPostMessage _ _ => true
  | _ => false
  end.

(** The read of a page of orders. *)
Definition is_orders_read (r : Request) : bool :=
  match r with
  | ShopifyGetOrders _ => true
  | _ => false
  end.

(** The orders of a page whose note yields a consignment identifier. *)
Definition with_token (orders : list Order) : list Order :=
  List.filter
    (fun o => match extractConsignmentId (note o) with
              | Some _ => true
              | None => false
              end)
    orders.

(* ===================================================================== *)
(** ** Reading [logs/sync.log] (models/sync-log.js) *)
(* ===================================================================== *)

(** The [options] of [SyncLog.getLogs]; [None] is a member that is not
    given.  [orderId] and [limit] are integers. *)
Record LogOptions : Type := {
  options_type : option jsstring;
  options_orderId : option Z;
  options_status : option jsstring;
  options_limit : option Z;
}.

(** [{}] *)
Definition no_options : LogOptions :=
  {| options_type := None; options_orderId := None;
     options_status := None; options_limit := None |}.

(** Truthiness of a value that is an integer or [undefined]. *)
Definition truthy_number (v : option Z) : bool :=
  match v with
  | Some z => negb (z =? 0)%Z
  | None => false
  end.

(** [array.slice(start)] for an integer [start]: a negative [start]
    counts from the end. *)
Definition slice {A} (start : Z) (l : list A) : list A :=
  let len := Z.of_nat (length l) in
  let k := if (start <? 0)%Z then Z.max (len + start) 0
           else Z.min start len in
  drop (Z.to_nat k) l.

(** [SyncLog.getLogs(options)] on a file that holds the entries [file],
    oldest first. *)
Definition SyncLog_getLogs (options : LogOptions) (file : list SyncLogEntry)
    : list SyncLogEntry :=
  let logs := file in
  let logs :=
    if truthy (options_type options)
    then List.filter
           (fun log => bool_decide (Some (entry_type log) = options_type options))
           logs
    else logs in
  let logs :=
    if truthy_number (options_orderId options)
    then List.filter
           (fun log => bool_decide (entry_orderId log = options_orderId options))
           logs
    else logs in
  let logs :=
    if truthy (options_status options)
    then List.filter
           (fun log => bool_decide (entry_status log = options_status options))
           logs
    else logs in
  if truthy_number (options_limit options)
  then slice (- default 0%Z (options_limit options)) logs
  else logs.

(** The object [SyncLog.getStats] returns. *)
Record LogStats : Type := {
  logs_total : nat;
  logs_successful : nat;
  logs_failed : nat;
  logs_partial : nat;
  logs_totalSynced : nat;
  logs_totalFailed : nat;
  logs_lastSync : option jsstring;
}.

(** [logs.filter((l) => l.status === s).length] *)
Definition count_status (s : jsstring) (logs : list SyncLogEntry) : nat :=
  length (List.filter (fun l => bool_decide (entry_status l = Some s)) logs).

(** The body of the [forEach] of [getStats]; the pair is
    [(totalSynced, totalFailed)]. *)
Definition getStats_tally (totals : nat * nat) (log : SyncLogEntry)
    : nat * nat :=
  if bool_decide (entry_type log = js "sync")
  then (fst totals + entry_synced log, snd totals + entry_failed log)
  else totals.

(** [SyncLog.getStats()] *)
Definition SyncLog_getStats (file : list SyncLogEntry) : LogStats :=
  let logs := SyncLog_getLogs no_options file in
  let totals := fold_left getStats_tally logs (0, 0) in
  {| logs_total := length logs;
     logs_successful := count_status (js "success") logs;
     logs_failed := count_status (js "failed") logs;
     logs_partial := count_status (js "partial") logs;
     logs_totalSynced := fst totals;
     logs_totalFailed := snd totals;
     logs_lastSync :=
       match rev logs with
       | log :: _ => Some (entry_timestamp log)
       | [] => None
       end |}.

(* ===================================================================== *)
(** ** Helpers (utils/helpers.js) *)
(* ===================================================================== *)

(** [s.startsWith(prefix)] *)
Definition startsWith (s prefix : jsstring) : bool :=
  match strip_lit prefix s with
  | Some _ => true
  | None => false
  end.

(** [phone.replace(/\D/g, "")]: the digits of [phone], in order. *)
Definition digits_only (phone : jsstring) : jsstring :=
  List.filter is_digit phone.

(** [formatPhoneNumber(phone)] *)
Definition formatPhoneNumber (phone : jsstring) : jsstring :=
  let cleaned := digits_only phone in
  if startsWith cleaned (js "966") then js "+" ++ cleaned
  else if startsWith cleaned (js "0") then js "+966" ++ drop 1 cleaned
  else js "+" ++ cleaned.

(** [isValidPhoneNumber(phone)] *)
Definition isValidPhoneNumber (phone : jsstring) : bool :=
  10 <=? length (digits_only phone).

(** [[^\s@]] *)
Definition is_address_unit (c : N) : bool :=
  negb (is_space c || (c =? 64)%N).

(** The pattern of [isValidEmail] between its anchors:
    [[^\s@]+@[^\s@]+\.[^\s@]+]. *)
Definition EMAIL_RE : Regex.regex :=
  Regex.RSeq (Regex.RClass is_address_unit)
    (Regex.RSeq (Regex.RStar is_address_unit)
       (Regex.RSeq (Regex.RStr (js "@"))
          (Regex.RSeq (Regex.RClass is_address_unit)
             (Regex.RSeq (Regex.RStar is_address_unit)
                (Regex.RSeq (Regex.RStr (js "."))
                   (Regex.RSeq (Regex.RClass is_address_unit)
                      (Regex.RStar is_address_unit))))))).

(** [isValidEmail(email)]: [regex.test] with [^] and [$], so the match
    starts at the first code unit and has to end at the last. *)
Definition isValidEmail (email : jsstring) : bool :=
  match Regex.rmatch EMAIL_RE email None
          (fun rest _ => match rest with [] => Some tt | _ => None end) with
  | Some _ => true
  | None => false
  end.

(* ===================================================================== *)
(** ** The shipment model (models/shipment.js) *)
(* ===================================================================== *)

(** The own properties of [statusMap] in [Shipment.getStatusDescription]. *)
Definition Shipment_statusMap : gmap (list N) jsstring :=
  list_to_map
    [
      (js "pickup_scheduled",
        [1580; 1583; 1608; 1604; 32; 1575; 1604; 1575; 1587; 1578; 1604; 1575;
         1605]%N);
      (js "out_for_pickup",
        [1580; 1575; 1585; 1610; 32; 1575; 1604; 1575; 1587; 1578; 1604; 1575;
         1605]%N);
      (js "reached_at_hub",
        [1608; 1589; 1604; 32; 1575; 1604; 1605; 1585; 1603; 1586]%N);
      (js "in_transit",
        [1601; 1610; 32; 1575; 1604; 1591; 1585; 1610; 1602]%N);
      (js "outfordelivery",
        [1580; 1575; 1585; 1610; 32; 1575; 1604; 1578; 1608; 1589; 1610;
         1604]%N);
      (js "attempted",
        [1605; 1581; 1575; 1608; 1604; 1577; 32; 1578; 1608; 1589; 1610;
         1604]%N);
      (js "delivered",
        [1578; 1605; 32; 1575; 1604; 1578; 1587; 1604; 1610; 1605]%N);
      (js "cancelled",
        [1605; 1604; 1594; 1609]%N);
      (js "pending",
        [1602; 1610; 1583; 32; 1575; 1604; 1575; 1606; 1578; 1592; 1575;
         1585]%N) ].

(** [this.currentStatus] as the constructor of [Shipment] sets it:
    [shipsyData.current_status || "pending"]. *)
Definition Shipment_currentStatus (reply : StatusReply) : jsstring :=
  if truthy (current_status reply) then default [] (current_status reply)
  else js "pending".

(** [Shipment.getStatusDescription()] for a shipment in the status
    [currentStatus]: [statusMap[this.currentStatus] || this.currentStatus].
    The result is a text, or a member inherited from [Object.prototype]. *)
Definition getStatusDescription (currentStatus : jsstring)
    : Property jsstring :=
  match property Shipment_statusMap currentStatus with
  | Own text => if truthy (Some text) then Own text else Own currentStatus
  | Inherited => Inherited
  | Undefined => Own currentStatus
  end.

(** [Shipment.isDelivered()], [isCancelled()] and [isPending()]. *)
Definition isDelivered (currentStatus : jsstring) : bool :=
  bool_decide (currentStatus = js "delivered").

Definition isCancelled (currentStatus : jsstring) : bool :=
  bool_decide (currentStatus = js "cancelled").

Definition isPending (currentStatus : jsstring) : bool :=
  bool_decide (currentStatus = js "pending")
  || bool_decide (currentStatus = js "pickup_scheduled").

(* ===================================================================== *)
(** ** Strings: literals, character runs, occurrences *)
(* ===================================================================== *)

Lemma strip_lit_Some (l s r : jsstring) :
  strip_lit l s = Some r <-> s = l ++ r.
Proof.
  revert s; induction l as [|a l IH]; intros s; simpl.
  - split; [intros [= ->]; reflexivity | intros ->; reflexivity].
  - destruct s as [|c s]; [split; discriminate|].
    destruct (N.eqb_spec c a) as [->|Hne].
    + rewrite IH. split; [intros ->; reflexivity | intros [= ->]; reflexivity].
    + split; [discriminate | intros [= Hc _]; contradiction].
Qed.

Lemma strip_lit_app (l r : jsstring) : strip_lit l (l ++ r) = Some r.
Proof. apply strip_lit_Some; reflexivity. Qed.

Lemma take_drop_while (p : N -> bool) (s : jsstring) :
  take_while p s ++ drop_while p s = s.
Proof.
  induction s as [|c s IH]; simpl; [reflexivity|].
  destruct (p c); simpl; [rewrite IH|]; reflexivity.
Qed.

Lemma take_while_all (p : N -> bool) (s : jsstring) :
  forallb p (take_while p s) = true.
Proof.
  induction s as [|c s IH]; simpl; [reflexivity|].
  destruct (p c) eqn:Hc; simpl; [rewrite Hc, IH|]; reflexivity.
Qed.

Lemma drop_while_head (p : N -> bool) (s : jsstring) :
  match drop_while p s with
  | c :: _ => p c = false
  | [] => True
  end.
Proof.
  induction s as [|c s IH]; simpl; [exact I|].
  destruct (p c) eqn:Hc; [exact IH | exact Hc].
Qed.

(** A stretch of the class followed by a code unit outside it is cut
    exactly there. *)
Lemma take_while_stretch (p : N -> bool) (ds rest : jsstring) :
  forallb p ds = true ->
  match rest with c :: _ => p c = false | [] => True end ->
  take_while p (ds ++ rest) = ds /\ drop_while p (ds ++ rest) = rest.
Proof.
  intros Hds Hrest; induction ds as [|c ds IH]; simpl in *.
  - destruct rest as [|c rest]; simpl; [auto|]. rewrite Hrest; auto.
  - apply andb_true_iff in Hds as [Hc Hds]. rewrite Hc.
    destruct (IH Hds) as [-> ->]; auto.
Qed.

Lemma take_while_length (p : N -> bool) (s : jsstring) :
  take (length s - length (drop_while p s)) s = take_while p s.
Proof.
  induction s as [|c s IH]; simpl; [reflexivity|].
  destruct (p c); simpl.
  - assert (Hle : length (drop_while p s) <= length s).
    { rewrite <- (take_drop_while p s) at 2. rewrite length_app. lia. }
    replace (S (length s) - length (drop_while p s))
      with (S (length s - length (drop_while p s))) by lia.
    simpl. rewrite IH. reflexivity.
  - replace (length s - length s) with 0 by lia. reflexivity.
Qed.

Lemma digit_not_space (c : N) : is_digit c = true -> is_space c = false.
Proof.
  unfold is_digit, is_space; intros H.
  apply andb_true_iff in H as [H1 H2].
  apply N.leb_le in H1; apply N.leb_le in H2.
  repeat (apply orb_false_iff; split);
    try (apply andb_false_iff;
         first [ left; apply N.leb_gt; lia | right; apply N.leb_gt; lia ]);
    apply N.eqb_neq; lia.
Qed.

Lemma includes_true (s l : jsstring) :
  includes s l = true <-> exists pre post, s = pre ++ l ++ post.
Proof.
  induction s as [|c s IH]; simpl.
  - destruct (strip_lit l []) as [r|] eqn:Hs.
    + apply strip_lit_Some in Hs. split; [intros _; exists [], r; exact Hs | auto].
    + split; [discriminate|]. intros (pre & post & H).
      destruct pre; simpl in H.
      * apply strip_lit_Some in H. congruence.
      * discriminate.
  - destruct (strip_lit l (c :: s)) as [r|] eqn:Hs.
    + apply strip_lit_Some in Hs. split; [intros _; exists [], r; exact Hs | auto].
    + rewrite IH. split.
      * intros (pre & post & ->). exists (c :: pre), post. reflexivity.
      * intros (pre & post & H). destruct pre as [|c' pre]; simpl in H.
        -- apply strip_lit_Some in H. congruence.
        -- injection H as _ ->. eauto.
Qed.

(* ===================================================================== *)
(** ** The matcher on [/SHIPSY_ID:\s*(\d+)/] *)
(* ===================================================================== *)

(** Giving code units back never helps when the continuation rejects every
    text that starts inside the class. *)
Lemma star_greedy_no_backtrack {R} (p : N -> bool)
    (k : jsstring -> option R) (s : jsstring) :
  (forall c t, p c = true -> k (c :: t) = None) ->
  Regex.star_greedy p k s = k (drop_while p s).
Proof.
  intros Hk; induction s as [|c s IH]; simpl; [reflexivity|].
  destruct (p c) eqn:Hc; [|reflexivity].
  rewrite IH. destruct (k (drop_while p s)); [reflexivity|].
  apply Hk, Hc.
Qed.

(** A continuation that always accepts is met after the longest run. *)
Lemma star_greedy_accepting {R} (p : N -> bool)
    (k : jsstring -> option R) (s : jsstring) :
  (forall t, k t <> None) ->
  Regex.star_greedy p k s = k (drop_while p s).
Proof.
  intros Hk; induction s as [|c s IH]; simpl; [reflexivity|].
  destruct (p c); [|reflexivity].
  rewrite IH. destruct (k (drop_while p s)) eqn:Hks; [reflexivity|].
  exfalso; exact (Hk _ Hks).
Qed.

(** The capture group [(\d+)] in front of [s]. *)
Lemma rmatch_digits (s : jsstring) :
  Regex.rmatch
    (Regex.RGroup (Regex.RSeq (Regex.RClass is_digit) (Regex.RStar is_digit)))
    s None (fun _ cap => Some cap)
  = match take_while is_digit s with
    | [] => None
    | d => Some (Some d)
    end.
Proof.
  simpl. destruct s as [|c s]; [reflexivity|].
  simpl take_while. destruct (is_digit c) eqn:Hc; [|reflexivity].
  rewrite star_greedy_accepting by discriminate.
  f_equal. f_equal.
  pose proof (take_while_length is_digit (c :: s)) as H.
  simpl take_while in H. simpl drop_while in H. rewrite Hc in H.
  exact H.
Qed.

Lemma rmatch_SHIPSY_ID_RE (s : jsstring) :
  Regex.rmatch SHIPSY_ID_RE s None (fun _ cap => Some cap)
  = option_map Some (token_at s).
Proof.
  unfold SHIPSY_ID_RE, token_at.
  cbn [Regex.rmatch].
  destruct (strip_lit SHIPSY_ID_LIT s) as [rest|]; [|reflexivity].
  rewrite star_greedy_no_backtrack.
  - change (Regex.rmatch
              (Regex.RGroup
                 (Regex.RSeq (Regex.RClass is_digit) (Regex.RStar is_digit)))
              (drop_while is_space rest) None (fun _ cap => Some cap)
            = option_map Some
                match take_while is_digit (drop_while is_space rest) with
                | [] => None
                | n :: l => Some (n :: l)
                end).
    rewrite rmatch_digits.
    destruct (take_while is_digit (drop_while is_space rest)); reflexivity.
  - intros c t Hc. simpl.
    destruct (is_digit c) eqn:Hd; [|reflexivity].
    apply digit_not_space in Hd. congruence.
Qed.

Lemma exec_SHIPSY_ID_RE (s : jsstring) :
  Regex.exec SHIPSY_ID_RE s = option_map Some (first_token s).
Proof.
  induction s as [|c s IH].
  - reflexivity.
  - cbn [Regex.exec first_token].
    rewrite rmatch_SHIPSY_ID_RE.
    destruct (token_at (c :: s)); simpl; [reflexivity | exact IH].
Qed.

(** [extractConsignmentId] is the leftmost token of the note. *)
Lemma extractConsignmentId_first_token (note : option jsstring) :
  extractConsignmentId note
  = match note with
    | Some s => first_token s
    | None => None
    end.
Proof.
  destruct note as [[|c s]|]; try reflexivity.
  unfold extractConsignmentId. cbn [truthy negb].
  rewrite exec_SHIPSY_ID_RE.
  destruct (first_token (c :: s)); reflexivity.
Qed.

(** What a token at the front of a text looks like. *)
Lemma token_at_Some (s d : jsstring) :
  token_at s = Some d <->
  d <> [] /\ forallb is_digit d = true /\
  exists ws post,
    s = SHIPSY_ID_LIT ++ ws ++ d ++ post /\
    forallb is_space ws = true /\
    match post with c :: _ => is_digit c = false | [] => True end.
Proof.
  unfold token_at. split.
  - destruct (strip_lit SHIPSY_ID_LIT s) as [rest|] eqn:Hs; [|discriminate].
    apply strip_lit_Some in Hs.
    destruct (take_while is_digit (drop_while is_space rest)) as [|c d'] eqn:Hd;
      [discriminate|].
    intros [= <-]. split; [discriminate|]. split.
    + rewrite <- Hd. apply take_while_all.
    + exists (take_while is_space rest),
        (drop_while is_digit (drop_while is_space rest)).
      rewrite <- Hd, take_drop_while, take_drop_while.
      split; [exact Hs|]. split; [apply take_while_all|].
      apply drop_while_head.
  - intros (Hne & Hd & ws & post & -> & Hws & Hpost).
    rewrite strip_lit_app.
    destruct d as [|c d]; [contradiction|].
    assert (Hc : is_digit c = true).
    { simpl in Hd. apply andb_true_iff in Hd. tauto. }
    destruct (take_while_stretch is_space ws ((c :: d) ++ post) Hws) as [_ ->].
    { simpl. apply digit_not_space, Hc. }
    destruct (take_while_stretch is_digit (c :: d) post Hd Hpost) as [-> _].
    reflexivity.
Qed.

(** The leftmost token: a token at some position, none before it. *)
Lemma first_token_Some (s d : jsstring) :
  first_token s = Some d <->
  exists pre t,
    s = pre ++ t /\ token_at t = Some d /\
    forall pre' t', s = pre' ++ t' -> length pre' < length pre ->
                    token_at t' = None.
Proof.
  induction s as [|c s IH].
  - simpl. split; [discriminate|].
    intros (pre & t & H & Ht & _).
    symmetry in H. apply app_eq_nil in H as [_ ->]. exact Ht.
  - cbn [first_token]. destruct (token_at (c :: s)) as [d0|] eqn:Hc.
    + split.
      * intros [= ->]. exists [], (c :: s). split; [reflexivity|].
        split; [exact Hc|]. simpl; intros; lia.
      * intros (pre & t & H & Ht & Hleft).
        destruct pre as [|c' pre].
        -- simpl in H. subst t. congruence.
        -- specialize (Hleft [] (c :: s) eq_refl). simpl in Hleft.
           rewrite Hleft in Hc by lia. discriminate.
    + rewrite IH. split.
      * intros (pre & t & -> & Ht & Hleft).
        exists (c :: pre), t. split; [reflexivity|]. split; [exact Ht|].
        intros pre' t' H Hlen. destruct pre' as [|c' pre'].
        -- simpl in H. subst t'. exact Hc.
        -- injection H as _ H. apply (Hleft pre' t' H). simpl in Hlen. lia.
      * intros (pre & t & H & Ht & Hleft).
        destruct pre as [|c' pre].
        -- simpl in H. subst t. congruence.
        -- injection H as _ ->. exists pre, t.
           split; [reflexivity|]. split; [exact Ht|].
           intros pre' t' H Hlen.
           apply (Hleft (c :: pre') t'); [rewrite H; reflexivity | simpl; lia].
Qed.

Lemma first_token_None (s : jsstring) :
  first_token s = None <-> forall pre t, s = pre ++ t -> token_at t = None.
Proof.
  induction s as [|c s IH].
  - simpl. split; [|reflexivity].
    intros _ pre t H. symmetry in H. apply app_eq_nil in H as [_ ->].
    reflexivity.
  - cbn [first_token]. destruct (token_at (c :: s)) as [d0|] eqn:Hc.
    + split; [discriminate|]. intros H.
      rewrite (H [] (c :: s) eq_refl) in Hc. discriminate.
    + rewrite IH. split.
      * intros H pre t Hs. destruct pre as [|c' pre].
        -- simpl in Hs. subst t. exact Hc.
        -- injection Hs as _ Hs. exact (H pre t Hs).
      * intros H pre t ->. apply (H (c :: pre) t). reflexivity.
Qed.

(** The literal followed by white space and a digit carries a token. *)
Lemma token_at_present (ws rest : jsstring) (c : N) :
  forallb is_space ws = true -> is_digit c = true ->
  token_at (SHIPSY_ID_LIT ++ ws ++ c :: rest) <> None.
Proof.
  intros Hws Hc.
  assert (H : token_at (SHIPSY_ID_LIT ++ ws ++
                take_while is_digit (c :: rest) ++ drop_while is_digit (c :: rest))
              = Some (take_while is_digit (c :: rest))).
  { apply token_at_Some. split; [simpl; rewrite Hc; discriminate|].
    split; [apply take_while_all|].
    eexists _, _. split; [reflexivity|]. split; [exact Hws|].
    apply drop_while_head. }
  rewrite take_drop_while in H. rewrite H. discriminate.
Qed.

(** The literal cannot start inside a text and end inside a copy of itself
    that follows the text, unless the text already begins with it. *)
Lemma SHIPSY_ID_LIT_no_overlap (p x r : jsstring) :
  p <> [] -> p ++ SHIPSY_ID_LIT ++ x = SHIPSY_ID_LIT ++ r ->
  exists y, p = SHIPSY_ID_LIT ++ y.
Proof.
  intros Hp H. cbv in H.
  do 10 (destruct p as [|? p]; [try contradiction; simpl in H; discriminate H|]).
  simpl in H. injection H as -> -> -> -> -> -> -> -> -> -> _.
  exists p. reflexivity.
Qed.

Lemma includes_cons_false (c : N) (s l : jsstring) :
  includes (c :: s) l = false ->
  strip_lit l (c :: s) = None /\ includes s l = false.
Proof.
  cbn [includes]. destruct (strip_lit l (c :: s)); [discriminate | auto].
Qed.

(** A text without the literal has no token. *)
Lemma first_token_no_marker (s : jsstring) :
  includes s SHIPSY_ID_LIT = false -> first_token s = None.
Proof.
  intros Hinc. apply first_token_None. intros pre t ->.
  unfold token_at. destruct (strip_lit SHIPSY_ID_LIT t) as [r|] eqn:Hs;
    [|reflexivity].
  apply strip_lit_Some in Hs. subst t.
  assert (includes (pre ++ SHIPSY_ID_LIT ++ r) SHIPSY_ID_LIT = true) as Hyes
    by (apply includes_true; eauto).
  congruence.
Qed.

Lemma first_token_here (t d : jsstring) :
  token_at t = Some d -> first_token t = Some d.
Proof. intros H; destruct t; cbn [first_token]; rewrite H; reflexivity. Qed.

(** A token behind a text without the literal is the leftmost token. *)
Lemma first_token_behind (pre ws d post : jsstring) :
  includes pre SHIPSY_ID_LIT = false ->
  forallb is_space ws = true ->
  d <> [] -> forallb is_digit d = true ->
  match post with c :: _ => is_digit c = false | [] => True end ->
  first_token (pre ++ SHIPSY_ID_LIT ++ ws ++ d ++ post) = Some d.
Proof.
  intros Hpre Hws Hne Hd Hpost.
  assert (Ht : token_at (SHIPSY_ID_LIT ++ ws ++ d ++ post) = Some d).
  { apply token_at_Some. repeat split; eauto. }
  induction pre as [|c pre IH].
  - apply first_token_here, Ht.
  - apply includes_cons_false in Hpre as [Hfront Hpre].
    change ((c :: pre) ++ SHIPSY_ID_LIT ++ ws ++ d ++ post)
      with (c :: pre ++ SHIPSY_ID_LIT ++ ws ++ d ++ post).
    cbn [first_token].
    assert (Hnone : token_at (c :: pre ++ SHIPSY_ID_LIT ++ ws ++ d ++ post) = None).
    { unfold token_at.
      destruct (strip_lit SHIPSY_ID_LIT
                  (c :: pre ++ SHIPSY_ID_LIT ++ ws ++ d ++ post)) as [r|] eqn:Hs;
        [|reflexivity].
      apply strip_lit_Some in Hs.
      destruct (SHIPSY_ID_LIT_no_overlap (c :: pre) (ws ++ d ++ post) r)
        as [y Hy]; [discriminate | exact Hs |].
      rewrite Hy, strip_lit_app in Hfront. discriminate. }
    rewrite Hnone. exact (IH Hpre).
Qed.

(** A text with a leftmost token has the literal, white space and a digit
    somewhere. *)
Lemma first_token_shape (s d : jsstring) :
  first_token s = Some d ->
  exists pre ws c rest,
    forallb is_space ws = true /\ is_digit c = true /\
    s = pre ++ SHIPSY_ID_LIT ++ ws ++ c :: rest.
Proof.
  intros Hd.
  apply first_token_Some in Hd as (pre & t & -> & Ht & _).
  apply token_at_Some in Ht as (Hne & Hdig & ws & post & -> & Hws & _).
  destruct d as [|c d]; [contradiction|].
  simpl in Hdig. apply andb_true_iff in Hdig as [Hc _].
  exists pre, ws, c, (d ++ post). auto.
Qed.

(** A non-null extraction means the note has the marker of [syncOrder]. *)
Lemma extractConsignmentId_marker (note : option jsstring) (d : jsstring) :
  extractConsignmentId note = Some d -> note_has_marker note = true.
Proof.
  rewrite extractConsignmentId_first_token.
  destruct note as [s|]; [|discriminate].
  intros Hd. unfold note_has_marker.
  destruct (includes s SHIPSY_ID_LIT) eqn:Hinc.
  - destruct s; [discriminate Hd | reflexivity].
  - rewrite (first_token_no_marker s Hinc) in Hd. discriminate.
Qed.

(* ===================================================================== *)
(** ** The clients: what each call sends and returns *)
(* ===================================================================== *)

Lemma issued_refl {E} (w : World E) : issued w w [] (outside w).
Proof. unfold issued. rewrite app_nil_r. auto. Qed.

Lemma issued_trans {E} (w w1 w2 : World E) rs1 rs2 e1 e2 :
  issued w w1 rs1 e1 -> issued w1 w2 rs2 e2 -> issued w w2 (rs1 ++ rs2) e2.
Proof.
  unfold issued. intros (H1 & H2 & H3) (H4 & H5 & H6).
  rewrite H4, H1, H6, H3, app_assoc. auto.
Qed.

Section Clients.

Context {E : Type} (P : Platform E).

Lemma Logger_log_issued level message (w : World E) :
  exists w', Logger_log level message w = (Returned tt, w') /\
             issued w w' [] (outside w).
Proof.
  eexists. split; [reflexivity|]. unfold issued; simpl.
  rewrite app_nil_r. auto.
Qed.

Lemma logger_error_issued message (w : World E) :
  exists w', logger_error P message w = (Returned tt, w') /\
             issued w w' [] (outside w).
Proof.
  unfold logger_error. destruct (level_reaches _ _).
  - apply Logger_log_issued.
  - exists w. split; [reflexivity | apply issued_refl].
Qed.

Lemma logger_warn_issued message (w : World E) :
  exists w', logger_warn P message w = (Returned tt, w') /\
             issued w w' [] (outside w).
Proof.
  unfold logger_warn. destruct (level_reaches _ _).
  - apply Logger_log_issued.
  - exists w. split; [reflexivity | apply issued_refl].
Qed.

Lemma logger_info_issued message (w : World E) :
  exists w', logger_info P message w = (Returned tt, w') /\
             issued w w' [] (outside w).
Proof.
  unfold logger_info. destruct (level_reaches _ _).
  - apply Logger_log_issued.
  - exists w. split; [reflexivity | apply issued_refl].
Qed.

(** One request: it is recorded and the outside's answer decides between
    returning and throwing. *)
Lemma http_issued {A} (r : Request) (answer : E -> Http A * E) (w : World E) :
  exists w',
    http r answer w
    = (match fst (answer (outside w)) with
       | Resolved a => Returned a
       | Rejected message => Thrown message
       end, w') /\
    issued w w' [r] (snd (answer (outside w))).
Proof.
  unfold http. destruct (answer (outside w)) as [[a|message] e'];
    eexists; (split; [reflexivity|]); unfold issued; simpl; auto.
Qed.

(** A call wrapped in [try { ... } catch (error) { logger.error(...);
    throw error }] sends what the call sends and settles as it does. *)
Lemma rethrow_issued {A} (m : Async E A) (message : jsstring) (w : World E)
    (out : Outcome A) (w1 : World E) rs e1 :
  m w = (out, w1) -> issued w w1 rs e1 ->
  exists w',
    try_catch m (fun error => run logger_error P message; throw error) w
    = (out, w') /\
    issued w w' rs e1.
Proof.
  intros Hm Hw. unfold try_catch. rewrite Hm.
  destruct out as [a|error].
  - exists w1. auto.
  - unfold bind.
    destruct (logger_error_issued message w1) as (w2 & -> & Hw2).
    exists w2. split; [reflexivity|].
    pose proof (issued_trans _ _ _ _ _ _ _ Hw Hw2) as H.
    rewrite app_nil_r in H. destruct Hw as (_ & <- & _). exact H.
Qed.

(** [createConsignment] when the payload cannot be built. *)
Lemma createConsignment_no_payload (o : Order) (w : World E) error :
  transformOrderToConsignment o = Thrown error ->
  exists w',
    createConsignment P o w = (Thrown error, w') /\
    issued w w' [] (outside w).
Proof.
  intros Ht. unfold createConsignment.
  eapply rethrow_issued; [|apply issued_refl].
  unfold bind. rewrite Ht. reflexivity.
Qed.

(** [createConsignment] once the payload is built: one POST, and the
    answer decides. *)
Lemma createConsignment_posts (o : Order) (w : World E) payload :
  transformOrderToConsignment o = Returned payload ->
  exists w',
    createConsignment P o w
    = (match fst (carrier_post_softdata P payload (outside w)) with
       | Resolved (Some data) =>
           if truthy (consignment_id data) then
             Returned {| created_success := true;
                         created_consignmentId :=
                           default [] (consignment_id data);
                         created_data := data |}
           else Thrown (js "No consignment ID in response")
       | Resolved None => Thrown (js "No consignment ID in response")
       | Rejected message => Thrown message
       end, w') /\
    issued w w' [CarrierPostSoftdata payload]
      (snd (carrier_post_softdata P payload (outside w))).
Proof.
  intros Ht. unfold createConsignment.
  destruct (logger_info_issued (js "Creating consignment in Shipsy") w)
    as (w1 & Hlog1 & Hw1).
  destruct (http_issued (CarrierPostSoftdata payload)
              (carrier_post_softdata P payload) w1) as (w2 & Hpost & Hw2).
  assert (He : outside w1 = outside w) by (destruct Hw1 as (_ & H & _); exact H).
  rewrite He in Hpost, Hw2.
  pose proof (issued_trans _ _ _ _ _ _ _ Hw1 Hw2) as Hw12. simpl in Hw12.
  destruct (fst (carrier_post_softdata P payload (outside w)))
    as [[data|]|message] eqn:Hanswer.
  - destruct (truthy (consignment_id data)) eqn:Hid.
    + destruct (logger_info_issued (js "Consignment created successfully") w2)
        as (w3 & Hlog3 & Hw3).
      eapply rethrow_issued.
      * unfold bind. rewrite Ht, Hlog1, Hpost, Hid, Hlog3. reflexivity.
      * pose proof (issued_trans _ _ _ _ _ _ _ Hw12 Hw3) as H.
        simpl in H. destruct Hw2 as (_ & <- & _). exact H.
    + eapply rethrow_issued; [|exact Hw12].
      unfold bind. rewrite Ht, Hlog1, Hpost, Hid. reflexivity.
  - eapply rethrow_issued; [|exact Hw12].
    unfold bind. rewrite Ht, Hlog1, Hpost. reflexivity.
  - eapply rethrow_issued; [|exact Hw12].
    unfold bind. rewrite Ht, Hlog1, Hpost. reflexivity.
Qed.

(** A consignment that is returned reports success and carries a
    non-empty identifier. *)
Lemma createConsignment_returned (o : Order) (w w' : World E) c :
  createConsignment P o w = (Returned c, w') ->
  created_success c = true /\ created_consignmentId c <> [] /\
  consignment_id (created_data c) = Some (created_consignmentId c) /\
  exists payload,
    transformOrderToConsignment o = Returned payload /\
    fst (carrier_post_softdata P payload (outside w))
      = Resolved (Some (created_data c)) /\
    issued w w' [CarrierPostSoftdata payload]
      (snd (carrier_post_softdata P payload (outside w))).
Proof.
  intros Hc.
  destruct (transformOrderToConsignment o) as [payload|error] eqn:Ht.
  - destruct (createConsignment_posts o w payload Ht) as (w1 & Hrun & Hw1).
    rewrite Hc in Hrun.
    destruct (fst (carrier_post_softdata P payload (outside w)))
      as [[data|]|message] eqn:Hanswer; try (injection Hrun; discriminate).
    destruct (consignment_id data) as [[|ch cid]|] eqn:Hid;
      simpl in Hrun; try (injection Hrun; discriminate).
    injection Hrun as -> ->. simpl. rewrite Hid.
    repeat split; try discriminate. eauto.
  - destruct (createConsignment_no_payload o w error Ht) as (w1 & Hrun & _).
    rewrite Hc in Hrun. injection Hrun; discriminate.
Qed.

Lemma getConsignmentStatus_issued (cid : jsstring) (w : World E) :
  exists w',
    getConsignmentStatus P cid w
    = (match fst (carrier_get_status P cid (outside w)) with
       | Resolved reply => Returned reply
       | Rejected message => Thrown message
       end, w') /\
    issued w w' [CarrierGetStatus cid]
      (snd (carrier_get_status P cid (outside w))).
Proof.
  unfold getConsignmentStatus.
  destruct (http_issued (CarrierGetStatus cid) (carrier_get_status P cid) w)
    as (w1 & Hrun & Hw1).
  eapply rethrow_issued; eauto.
Qed.

Lemma updateOrderNote_issued (id : Z) (text : jsstring) (w : World E) :
  exists w',
    updateOrderNote P id text w
    = (match fst (shopify_put_order P id (PatchNote text) (outside w)) with
       | Resolved a => Returned a
       | Rejected message => Thrown message
       end, w') /\
    issued w w' [ShopifyPutOrder id (PatchNote text)]
      (snd (shopify_put_order P id (PatchNote text) (outside w))).
Proof.
  unfold updateOrderNote.
  destruct (http_issued (ShopifyPutOrder id (PatchNote text))
              (shopify_put_order P id (PatchNote text)) w)
    as (w1 & Hrun & Hw1).
  eapply rethrow_issued; eauto.
Qed.

Lemma updateOrderStatus_issued (id : Z) (status : option jsstring)
    (w : World E) :
  exists w',
    updateOrderStatus P id status w
    = (match fst (shopify_put_order P id (PatchFinancialStatus status)
                    (outside w)) with
       | Resolved a => Returned a
       | Rejected message => Thrown message
       end, w') /\
    issued w w' [ShopifyPutOrder id (PatchFinancialStatus status)]
      (snd (shopify_put_order P id (PatchFinancialStatus status) (outside w))).
Proof.
  unfold updateOrderStatus.
  destruct (http_issued (ShopifyPutOrder id (PatchFinancialStatus status))
              (shopify_put_order P id (PatchFinancialStatus status)) w)
    as (w1 & Hrun & Hw1).
  eapply rethrow_issued; eauto.
Qed.

Lemma getOrder_issued (id : Z) (w : World E) :
  exists w',
    getOrder P id w
    = (match fst (shopify_get_order P id (outside w)) with
       | Resolved o => Returned o
       | Rejected message => Thrown message
       end, w') /\
    issued w w' [ShopifyGetOrder id] (snd (shopify_get_order P id (outside w))).
Proof.
  unfold getOrder.
  destruct (http_issued (ShopifyGetOrder id) (shopify_get_order P id) w)
    as (w1 & Hrun & Hw1).
  eapply rethrow_issued; eauto.
Qed.

(** [addOrderTag] reads the order and, when that works, writes the tag
    list back; it never touches the note. *)
Lemma addOrderTag_issued (id : Z) (tag : jsstring) (w : World E) :
  exists out w' rs e',
    addOrderTag P id tag w = (out, w') /\ issued w w' rs e' /\
    ((exists error, out = Thrown error /\ rs = [ShopifyGetOrder id]) \/
     (exists text, rs = [ShopifyGetOrder id;
                         ShopifyPutOrder id (PatchTags text)])).
Proof.
  unfold addOrderTag.
  destruct (getOrder_issued id w) as (w1 & Hget & Hw1).
  destruct (fst (shopify_get_order P id (outside w))) as [o|message] eqn:Ho.
  - set (text := join_comma_space
                   (if bool_decide
                         (tag ∈ (if truthy (tags o)
                                  then split_comma_space (default [] (tags o)) []
                                  else []))
                    then (if truthy (tags o)
                          then split_comma_space (default [] (tags o)) []
                          else [])
                    else (if truthy (tags o)
                          then split_comma_space (default [] (tags o)) []
                          else []) ++ [tag])).
    destruct (http_issued (ShopifyPutOrder id (PatchTags text))
                (shopify_put_order P id (PatchTags text)) w1)
      as (w2 & Hput & Hw2).
    pose proof (issued_trans _ _ _ _ _ _ _ Hw1 Hw2) as Hw12. simpl in Hw12.
    edestruct (rethrow_issued
                 (await order <- getOrder P id;
                  let tags0 :=
                    if truthy (tags order)
                    then split_comma_space (default [] (tags order)) []
                    else [] in
                  let tags1 :=
                    if bool_decide (tag ∈ tags0) then tags0 else tags0 ++ [tag] in
                  http (ShopifyPutOrder id (PatchTags (join_comma_space tags1)))
                    (shopify_put_order P id (PatchTags (join_comma_space tags1))))
                 (js "Failed to add order tag") w) as (w3 & Hrun & Hw3).
    + unfold bind. rewrite Hget. cbv zeta. fold text. exact Hput.
    + exact Hw12.
    + eexists _, w3, _, _. split; [exact Hrun|]. split; [exact Hw3|].
      right. eauto.
  - edestruct (rethrow_issued
                 (await order <- getOrder P id;
                  let tags0 :=
                    if truthy (tags order)
                    then split_comma_space (default [] (tags order)) []
                    else [] in
                  let tags1 :=
                    if bool_decide (tag ∈ tags0) then tags0 else tags0 ++ [tag] in
                  http (ShopifyPutOrder id (PatchTags (join_comma_space tags1)))
                    (shopify_put_order P id (PatchTags (join_comma_space tags1))))
                 (js "Failed to add order tag") w) as (w3 & Hrun & Hw3).
    + unfold bind. rewrite Hget. reflexivity.
    + exact Hw1.
    + eexists _, w3, _, _. split; [exact Hrun|]. split; [exact Hw3|].
      left. eauto.
Qed.

End Clients.

(* ===================================================================== *)
(** ** [syncOrder]: every way a call can go *)
(* ===================================================================== *)

Section SyncOrder.

Context {E : Type} (P : Platform E).

(** A call of [syncOrder] ends in one of three ways: the guard stops it;
    it throws; or it created a consignment, replaced the note and wrote
    the tags. *)
Lemma syncOrder_cases (o : Order) (w : World E) :
  exists out w' rs e',
    syncOrder P o w = (out, w') /\ issued w w' rs e' /\
    ((note_has_marker (note o) = true /\
      out = Returned (Some already_synced) /\ rs = [] /\ e' = outside w)
     \/ (note_has_marker (note o) = false /\ exists error, out = Thrown error)
     \/ (note_has_marker (note o) = false /\
         exists payload cid text,
           transformOrderToConsignment o = Returned payload /\
           fst (carrier_post_softdata P payload (outside w))
             = Resolved (Some {| consignment_id := Some cid |}) /\
           cid <> [] /\
           out = Returned (Some {| success := true;
                                   reason := None;
                                   orderId := Some (order_id o);
                                   consignmentId := Some cid |}) /\
           rs = [CarrierPostSoftdata payload;
                 ShopifyPutOrder (order_id o)
                   (PatchNote
                      (sync_note cid
                         (toISOString_now P
                            (snd (carrier_post_softdata P payload (outside w))))));
                 ShopifyGetOrder (order_id o);
                 ShopifyPutOrder (order_id o) (PatchTags text)])).
Proof.
  unfold syncOrder.
  destruct (note_has_marker (note o)) eqn:Hguard.
  { (* the guard *)
    destruct (logger_info_issued P (js "Order already synced") w)
      as (w1 & Hlog & Hw1).
    match goal with
    | |- context [try_catch ?m ?h _] =>
        assert (Hbody : m w = (Returned (Some already_synced), w1))
          by (unfold bind; rewrite Hlog; reflexivity);
        destruct (rethrow_issued P m (js "Failed to sync order") w _ _ _ _
                    Hbody Hw1) as (w' & Hrun & Hw')
    end.
    eexists _, w', _, _. split; [exact Hrun|]. split; [exact Hw'|]. auto. }
  destruct (transformOrderToConsignment o) as [payload|error] eqn:Ht.
  2: { (* no payload *)
    destruct (createConsignment_no_payload P o w error Ht)
      as (w1 & Hcreate & Hw1).
    match goal with
    | |- context [try_catch ?m ?h _] =>
        assert (Hbody : m w = (Thrown error, w1))
          by (unfold bind; rewrite Hcreate; reflexivity);
        destruct (rethrow_issued P m (js "Failed to sync order") w _ _ _ _
                    Hbody Hw1) as (w' & Hrun & Hw')
    end.
    eexists _, w', _, _. split; [exact Hrun|]. split; [exact Hw'|]. eauto. }
  destruct (createConsignment_posts P o w payload Ht) as (w1 & Hcreate & Hw1).
  set (e1 := snd (carrier_post_softdata P payload (outside w))) in *.
  destruct (fst (carrier_post_softdata P payload (outside w)))
    as [[[[[|ch cid]|]]|]|message] eqn:Hanswer; simpl in Hcreate.
  1, 3, 4, 5:
    match goal with
    | |- context [try_catch ?m ?h _] =>
        eassert (Hbody : m w = (Thrown _, w1))
          by (unfold bind; rewrite Hcreate; reflexivity);
        destruct (rethrow_issued P m (js "Failed to sync order") w _ _ _ _
                    Hbody Hw1) as (w' & Hrun & Hw')
    end;
    eexists _, w', _, _; (split; [exact Hrun|]); (split; [exact Hw'|]); eauto.
  (* a consignment was created *)
  assert (He1 : outside w1 = e1) by (destruct Hw1 as (_ & H & _); exact H).
  set (text := sync_note (ch :: cid) (toISOString_now P e1)).
  destruct (updateOrderNote_issued P (order_id o) text w1)
    as (w2 & Hnote & Hw2).
  pose proof (issued_trans _ _ _ _ _ _ _ Hw1 Hw2) as Hw12. simpl in Hw12.
  destruct (fst (shopify_put_order P (order_id o) (PatchNote text) (outside w1)))
    as [[]|message] eqn:Hput.
  2: { match goal with
       | |- context [try_catch ?m ?h _] =>
           assert (Hbody : m w = (Thrown message, w2))
             by (unfold bind, now; rewrite Hcreate; simpl;
                 rewrite He1; fold text; rewrite Hnote; reflexivity);
           destruct (rethrow_issued P m (js "Failed to sync order") w _ _ _ _
                       Hbody Hw12) as (w' & Hrun & Hw')
       end.
       eexists _, w', _, _. split; [exact Hrun|]. split; [exact Hw'|]. eauto. }
  destruct (addOrderTag_issued P (order_id o) (js "shipsy-synced") w2)
    as (out3 & w3 & rs3 & e3 & Htag & Hw3 & Hrs3).
  pose proof (issued_trans _ _ _ _ _ _ _ Hw12 Hw3) as Hw123. simpl in Hw123.
  destruct out3 as [[]|error].
  2: { match goal with
       | |- context [try_catch ?m ?h _] =>
           assert (Hbody : m w = (Thrown error, w3))
             by (unfold bind, now; rewrite Hcreate; simpl;
                 rewrite He1; fold text; rewrite Hnote, Htag; reflexivity);
           destruct (rethrow_issued P m (js "Failed to sync order") w _ _ _ _
                       Hbody Hw123) as (w' & Hrun & Hw')
       end.
       eexists _, w', _, _. split; [exact Hrun|]. split; [exact Hw'|]. eauto. }
  destruct Hrs3 as [(error & Hthrown & _)|(tagtext & ->)]; [discriminate Hthrown|].
  destruct (logger_info_issued P (js "Order synced successfully") w3)
    as (w4 & Hlog & Hw4).
  pose proof (issued_trans _ _ _ _ _ _ _ Hw123 Hw4) as Hw1234.
  simpl in Hw1234.
  match goal with
  | |- context [try_catch ?m ?h _] =>
      assert (Hbody :
                m w = (Returned (Some {| success := true;
                                         reason := None;
                                         orderId := Some (order_id o);
                                         consignmentId := Some (ch :: cid) |}),
                       w4))
        by (unfold bind, now; rewrite Hcreate; simpl;
            rewrite He1; fold text; rewrite Hnote, Htag, Hlog; reflexivity);
      destruct (rethrow_issued P m (js "Failed to sync order") w _ _ _ _
                  Hbody Hw1234) as (w' & Hrun & Hw')
  end.
  eexists _, w', _, _. split; [exact Hrun|]. split; [exact Hw'|].
  right. right. split; [reflexivity|].
  exists payload, (ch :: cid), tagtext.
  split; [reflexivity|]. split; [exact Hanswer|]. split; [discriminate|].
  split; reflexivity.
Qed.

End SyncOrder.

(* ===================================================================== *)
(** ** The batch loops *)
(* ===================================================================== *)

Section Batches.

Context {E : Type} (P : Platform E).

Lemma getAllOrders_issued (filters : OrderFilters) (w : World E) :
  exists w',
    getAllOrders P filters w
    = (match fst (shopify_get_orders P (getAllOrders_params filters)
                    (outside w)) with
       | Resolved orders => Returned orders
       | Rejected message => Thrown message
       end, w') /\
    issued w w' [ShopifyGetOrders (getAllOrders_params filters)]
      (snd (shopify_get_orders P (getAllOrders_params filters) (outside w))).
Proof.
  unfold getAllOrders. cbv zeta.
  destruct (http_issued (ShopifyGetOrders (getAllOrders_params filters))
              (shopify_get_orders P (getAllOrders_params filters)) w)
    as (w1 & Hrun & Hw1).
  eapply rethrow_issued; eauto.
Qed.

(** [syncOrder] never falls off its end: what it returns is an object. *)
Lemma syncOrder_defined (o : Order) (w : World E) :
  fst (syncOrder P o w) <> Returned None.
Proof.
  destruct (syncOrder_cases P o w) as (out & w' & rs & e' & Hrun & _ & Hcases).
  rewrite Hrun. simpl.
  destruct Hcases as [(_ & -> & _)|[(_ & error & ->)|(_ & H)]];
    try discriminate.
  destruct H as (payload & cid & text & _ & _ & _ & -> & _). discriminate.
Qed.

(** One turn of the loop of [syncPendingOrders] always completes; it
    counts a success, a throw, or nothing. *)
Lemma syncPendingOrders_turn_counts (o : Order) (counts : nat * nat)
    (w : World E) :
  syncPendingOrders_turn P o counts w
  = (Returned
       (if is_terminal o then counts
        else if sync_succeeded (fst (syncOrder P o w))
             then (S (fst counts), snd counts)
             else if sync_threw (fst (syncOrder P o w))
                  then (fst counts, S (snd counts))
                  else counts),
     snd (syncPendingOrders_turn P o (0, 0) w)).
Proof.
  unfold syncPendingOrders_turn, try_catch.
  destruct (is_terminal o); [reflexivity|].
  unfold bind.
  pose proof (syncOrder_defined o w) as Hdef.
  destruct (syncOrder P o w) as [[[r|]|error] w1]; simpl in *.
  - destruct (success r); reflexivity.
  - contradiction.
  - destruct (logger_error_issued P (js "Error syncing order") w1)
      as (w2 & -> & _). reflexivity.
Qed.

End Batches.

(* ===================================================================== *)
(** ** What a call depends on: the outside only *)
(* ===================================================================== *)

Section Locality.

Context {E : Type} (P : Platform E).

Lemma outside_local_ret {A} (a : A) : outside_local (@ret E A a).
Proof. intros w w2 H. auto. Qed.

Lemma outside_local_throw {A} (message : jsstring) :
  outside_local (@throw E A message).
Proof. intros w w2 H. auto. Qed.

Lemma outside_local_pure {A} (out : Outcome A) :
  outside_local (fun w : World E => (out, w)).
Proof. intros w w2 H. auto. Qed.

Lemma outside_local_bind {A B} (m : Async E A) (k : A -> Async E B) :
  outside_local m -> (forall a, outside_local (k a)) ->
  outside_local (bind m k).
Proof.
  intros Hm Hk w w2 H. unfold bind. specialize (Hm w w2 H).
  destruct (m w) as [[a|error] w1], (m w2) as [[a2|error2] w3];
    simpl in *; destruct Hm as [Hout Hw]; try discriminate Hout.
  - injection Hout as <-. apply Hk. exact Hw.
  - injection Hout as ->. split; [reflexivity | exact Hw].
Qed.

Lemma outside_local_try_catch {A} (m : Async E A)
    (h : jsstring -> Async E A) :
  outside_local m -> (forall error, outside_local (h error)) ->
  outside_local (try_catch m h).
Proof.
  intros Hm Hh w w2 H. unfold try_catch. specialize (Hm w w2 H).
  destruct (m w) as [[a|error] w1], (m w2) as [[a2|error2] w3];
    simpl in *; destruct Hm as [Hout Hw]; try discriminate Hout.
  - split; assumption.
  - injection Hout as <-. apply Hh. exact Hw.
Qed.

Lemma outside_local_http {A} (r : Request) (answer : E -> Http A * E) :
  outside_local (http r answer).
Proof.
  intros w w2 H. unfold http. rewrite H.
  destruct (answer (outside w2)) as [[a|message] e']; auto.
Qed.

Lemma outside_local_Logger_log (level message : jsstring) :
  outside_local (@Logger_log E level message).
Proof. intros w w2 H. auto. Qed.

Lemma outside_local_logger_error (message : jsstring) :
  outside_local (logger_error P message).
Proof.
  unfold logger_error. destruct (level_reaches _ _);
    [apply outside_local_Logger_log | apply outside_local_ret].
Qed.

Lemma outside_local_logger_info (message : jsstring) :
  outside_local (logger_info P message).
Proof.
  unfold logger_info. destruct (level_reaches _ _);
    [apply outside_local_Logger_log | apply outside_local_ret].
Qed.

Lemma outside_local_now : outside_local (now P).
Proof. intros w w2 H. unfold now. simpl. rewrite H. auto. Qed.

End Locality.

Ltac local_step :=
  first
    [ apply outside_local_ret
    | apply outside_local_throw
    | apply outside_local_pure
    | apply outside_local_now
    | apply outside_local_logger_error
    | apply outside_local_logger_info
    | apply outside_local_http
    | apply outside_local_bind; [|intros]
    | apply outside_local_try_catch; [|intros]
    | match goal with
      | |- outside_local (if ?b then _ else _) => destruct b
      | |- outside_local (match ?x with _ => _ end) => destruct x
      end ].

Ltac local := cbv zeta; repeat local_step.

Section BatchOutcomes.

Context {E : Type} (P : Platform E).

(** [syncOrder] settles, and leaves the outside, by the outside it was
    called on; the requests and the log lines recorded before play no
    part. *)
Lemma syncOrder_local (o : Order) : outside_local (syncOrder P o).
Proof.
  unfold syncOrder, createConsignment, updateOrderNote, addOrderTag, getOrder.
  local.
Qed.

Lemma is_terminal_false (o : Order) :
  financial_status o <> Some (js "refunded") ->
  fulfillment_status o <> Some (js "cancelled") ->
  is_terminal o = false.
Proof.
  intros Hf Hc. unfold is_terminal.
  rewrite !bool_decide_eq_false_2 by assumption. reflexivity.
Qed.

(** A turn for an order that is not skipped leaves the outside as the
    call of [syncOrder] left it. *)
Lemma syncPendingOrders_turn_outside (o : Order) (counts : nat * nat)
    (w : World E) :
  is_terminal o = false ->
  outside (snd (syncPendingOrders_turn P o counts w))
  = outside (snd (syncOrder P o w)).
Proof.
  intros Hterm. unfold syncPendingOrders_turn, try_catch, bind.
  rewrite Hterm.
  destruct (syncOrder P o w) as [[[r|]|error] w1]; simpl.
  - destruct (success r); reflexivity.
  - destruct (logger_error_issued P (js "Error syncing order") w1)
      as (w2 & -> & (_ & Hout & _)). exact Hout.
  - destruct (logger_error_issued P (js "Error syncing order") w1)
      as (w2 & -> & (_ & Hout & _)). exact Hout.
Qed.

(** The loop over orders none of which is refunded or cancelled never
    throws, and its counters are the numbers of calls of [syncOrder] that
    succeeded and that threw. *)
Lemma syncPendingOrders_loop_outcomes (orders : list Order) :
  forall (counts : nat * nat) (w : World E),
  Forall (fun o => financial_status o <> Some (js "refunded") /\
                   fulfillment_status o <> Some (js "cancelled")) orders ->
  exists w',
    syncPendingOrders_loop P orders counts w
    = (Returned
         (fst counts + successes (sync_outcomes P orders (outside w)),
          snd counts + throws (sync_outcomes P orders (outside w))), w').
Proof.
  induction orders as [|o orders IH]; intros [s f] w Hkeep.
  - exists w. unfold successes, throws. simpl.
    rewrite !Nat.add_0_r. reflexivity.
  - inversion Hkeep as [|? ? [Hf Hc] Hrest]; subst.
    pose proof (is_terminal_false o Hf Hc) as Hterm.
    cbn [syncPendingOrders_loop]. unfold bind.
    rewrite syncPendingOrders_turn_counts. rewrite Hterm.
    set (w1 := snd (syncPendingOrders_turn P o (0, 0) w)).
    destruct (syncOrder_local o w (fresh_world (outside w)) eq_refl)
      as [Hout Hafter].
    assert (Hw1 : outside w1
                  = outside (snd (syncOrder P o (fresh_world (outside w)))))
      by (unfold w1; rewrite syncPendingOrders_turn_outside by exact Hterm;
          exact Hafter).
    cbn [sync_outcomes]. cbv zeta. rewrite <- Hw1, <- Hout.
    unfold successes, throws. cbn [List.filter].
    pose proof (syncOrder_defined P o w) as Hdef.
    destruct (fst (syncOrder P o w)) as [[r|]|error]; simpl in *.
    + destruct (success r); simpl;
        [destruct (IH (S s, f) w1 Hrest) as (w' & ->)
        |destruct (IH (s, f) w1 Hrest) as (w' & ->)];
        exists w'; unfold successes, throws; simpl;
        repeat f_equal; lia.
    + contradiction.
    + destruct (IH (s, S f) w1 Hrest) as (w' & ->).
      exists w'. unfold successes, throws; simpl.
      repeat f_equal; lia.
Qed.

(** When every call succeeds or throws, the two numbers add up to the
    number of orders. *)
Lemma sync_outcomes_partition (orders : list Order) :
  forall e : E,
  Forall (fun out => sync_succeeded out || sync_threw out = true)
         (sync_outcomes P orders e) ->
  successes (sync_outcomes P orders e) + throws (sync_outcomes P orders e)
  = length orders.
Proof.
  unfold successes, throws.
  induction orders as [|o orders IH]; intros e Hall; [reflexivity|].
  cbn [sync_outcomes] in *. cbv zeta in *.
  inversion Hall as [|? ? Ha Hall']; subst.
  specialize (IH _ Hall'). cbn [List.filter length].
  destruct (fst (syncOrder P o (fresh_world e))) as [[r|]|error];
    simpl in *; try discriminate.
  - rewrite orb_false_r in Ha. rewrite Ha. simpl. lia.
  - lia.
Qed.

End BatchOutcomes.

(* ===================================================================== *)
(** ** What goes to [logs/app.log] *)
(* ===================================================================== *)

Lemma logged_only_refl {E} (Q : jsstring -> Prop) (w : World E) :
  logged_only Q w w.
Proof. exists []. rewrite app_nil_r. auto. Qed.

Lemma logged_only_trans {E} (Q : jsstring -> Prop) (w w1 w2 : World E) :
  logged_only Q w w1 -> logged_only Q w1 w2 -> logged_only Q w w2.
Proof.
  intros (l1 & H1 & HQ1) (l2 & H2 & HQ2). exists (l1 ++ l2).
  rewrite H2, H1, app_assoc. split; [reflexivity|].
  apply Forall_app; auto.
Qed.

Section Logging.

Context {E : Type} (P : Platform E) (Q : jsstring -> Prop).

Lemma logs_within_ret {A} (a : A) : logs_within Q (@ret E A a).
Proof. intros w. apply logged_only_refl. Qed.

Lemma logs_within_throw {A} (message : jsstring) :
  logs_within Q (@throw E A message).
Proof. intros w. apply logged_only_refl. Qed.

Lemma logs_within_bind {A B} (m : Async E A) (k : A -> Async E B) :
  logs_within Q m -> (forall a, logs_within Q (k a)) ->
  logs_within Q (bind m k).
Proof.
  intros Hm Hk w. unfold bind. specialize (Hm w).
  destruct (m w) as [[a|error] w1]; simpl in *; [|exact Hm].
  eapply logged_only_trans; [exact Hm | apply Hk].
Qed.

Lemma logs_within_try_catch {A} (m : Async E A) (h : jsstring -> Async E A) :
  logs_within Q m -> (forall error, logs_within Q (h error)) ->
  logs_within Q (try_catch m h).
Proof.
  intros Hm Hh w. unfold try_catch. specialize (Hm w).
  destruct (m w) as [[a|error] w1]; simpl in *; [exact Hm|].
  eapply logged_only_trans; [exact Hm | apply Hh].
Qed.

Lemma logs_within_http {A} (r : Request) (answer : E -> Http A * E) :
  logs_within Q (http r answer).
Proof.
  intros w. unfold http.
  destruct (answer (outside w)) as [[a|message] e'];
    exists []; simpl; rewrite app_nil_r; auto.
Qed.

Lemma logs_within_Logger_log (level message : jsstring) :
  Q message -> logs_within Q (@Logger_log E level message).
Proof.
  intros HQ w. eexists. split; [reflexivity|].
  constructor; [exact HQ | constructor].
Qed.

Lemma logs_within_logger_error (message : jsstring) :
  Q message -> logs_within Q (logger_error P message).
Proof.
  intros HQ. unfold logger_error. destruct (level_reaches _ _);
    [apply logs_within_Logger_log, HQ | apply logs_within_ret].
Qed.

Lemma logs_within_logger_info (message : jsstring) :
  Q message -> logs_within Q (logger_info P message).
Proof.
  intros HQ. unfold logger_info. destruct (level_reaches _ _);
    [apply logs_within_Logger_log, HQ | apply logs_within_ret].
Qed.

End Logging.

(* ===================================================================== *)
(** ** Reconciliation: [updateOrderFromShipmentStatus] and its loop *)
(* ===================================================================== *)

Ltac message_differs :=
  let H := fresh in intros H; vm_compute in H; discriminate H.

Section Reconciliation.

Context {E : Type} (P : Platform E).

Lemma sendOrderMessage_issued (id : Z) (message : jsstring) (w : World E) :
  exists out w',
    sendOrderMessage P id message w = (out, w') /\
    issued w w' [ShopifyPostMessage id message]
      (snd (shopify_post_message P id message (outside w))).
Proof.
  unfold sendOrderMessage.
  destruct (http_issued (ShopifyPostMessage id message)
              (shopify_post_message P id message) w) as (w1 & Hpost & Hw1).
  destruct (fst (shopify_post_message P id message (outside w)))
    as [[]|error] eqn:Hanswer.
  - destruct (logger_info_issued P (js "Order message sent") w1)
      as (w2 & Hlog & Hw2).
    pose proof (issued_trans _ _ _ _ _ _ _ Hw1 Hw2) as Hw12. simpl in Hw12.
    match goal with
    | |- context [try_catch ?m ?h _] =>
        assert (Hbody : m w = (Returned tt, w2))
          by (unfold bind; rewrite Hpost, Hlog; reflexivity);
        destruct (rethrow_issued P m (js "Failed to send order message") w
                    _ _ _ _ Hbody Hw12) as (w' & Hrun & Hw')
    end.
    exists (Returned tt), w'. split; [exact Hrun|].
    destruct Hw1 as (_ & <- & _). exact Hw'.
  - match goal with
    | |- context [try_catch ?m ?h _] =>
        assert (Hbody : m w = (Thrown error, w1))
          by (unfold bind; rewrite Hpost; reflexivity);
        destruct (rethrow_issued P m (js "Failed to send order message") w
                    _ _ _ _ Hbody Hw1) as (w' & Hrun & Hw')
    end.
    exists (Thrown error), w'. auto.
Qed.

(** A status for which the lookup is [undefined]: at most the warning is
    written, nothing is sent, no error. *)
Lemma updateOrderFromShipmentStatus_unknown (id : Z) (reply : StatusReply)
    (w : World E) :
  shipmentStatuses_get (current_status reply) = Undefined ->
  exists w',
    updateOrderFromShipmentStatus P id reply w = (Returned tt, w') /\
    issued w w' [] (outside w).
Proof.
  intros Hget. unfold updateOrderFromShipmentStatus. rewrite Hget.
  apply logger_warn_issued.
Qed.

(** A status with an entry: the first thing sent is the status update,
    and the warning is not written. *)
Lemma updateOrderFromShipmentStatus_known (id : Z) (reply : StatusReply)
    (w : World E) (m : StatusMapping) :
  shipmentStatuses_get (current_status reply) = Own m ->
  exists out w' rs e',
    updateOrderFromShipmentStatus P id reply w = (out, w') /\
    issued w w'
      (ShopifyPutOrder id (PatchFinancialStatus (Some (shopifyStatus m))) :: rs)
      e' /\
    logged_only (fun msg => msg <> js "Unknown shipment status") w w'.
Proof.
  intros Hget.
  assert (Hlogs : logged_only (fun msg => msg <> js "Unknown shipment status")
                    w (snd (updateOrderFromShipmentStatus P id reply w))).
  { unfold updateOrderFromShipmentStatus. rewrite Hget.
    apply logs_within_try_catch.
    - apply logs_within_bind.
      + unfold updateOrderStatus. apply logs_within_try_catch.
        * apply logs_within_http.
        * intros error. apply logs_within_bind;
            [apply logs_within_logger_error; message_differs
            |intros; apply logs_within_throw].
      + intros _. apply logs_within_bind.
        * destruct (notify m); [|apply logs_within_ret].
          unfold sendOrderMessage. apply logs_within_try_catch.
          -- apply logs_within_bind; [apply logs_within_http|].
             intros _. apply logs_within_logger_info; message_differs.
          -- intros error. apply logs_within_bind;
               [apply logs_within_logger_error; message_differs
               |intros; apply logs_within_throw].
        * intros _. apply logs_within_logger_info; message_differs.
    - intros error. apply logs_within_bind;
        [apply logs_within_logger_error; message_differs
        |intros; apply logs_within_throw]. }
  revert Hlogs. unfold updateOrderFromShipmentStatus. rewrite Hget.
  destruct (updateOrderStatus_issued P id (Some (shopifyStatus m)) w)
    as (w1 & Hput & Hw1).
  destruct (fst (shopify_put_order P id
                   (PatchFinancialStatus (Some (shopifyStatus m))) (outside w)))
    as [[]|error] eqn:Hanswer.
  2: { match goal with
       | |- context [try_catch ?b ?h _] =>
           assert (Hbody : b w = (Thrown error, w1))
             by (unfold bind; rewrite Hput; reflexivity);
           destruct (rethrow_issued P b (js "Failed to update order status") w
                       _ _ _ _ Hbody Hw1) as (w' & Hrun & Hw')
       end.
       rewrite Hrun. intros Hlogs. eexists _, w', [], _.
       split; [reflexivity|]. split; [exact Hw' | exact Hlogs]. }
  assert (Hnotify : exists out2 w2 rs2 e2,
             (if notify m
              then sendOrderMessage P id
                     ([1578; 1581; 1583; 1610; 1579; 32; 1575; 1604; 1588;
                       1581; 1606; 1577; 58; 32]%N ++ name m)
              else ret tt) w1 = (out2, w2) /\ issued w1 w2 rs2 e2).
  { destruct (notify m).
    - destruct (sendOrderMessage_issued id
                  ([1578; 1581; 1583; 1610; 1579; 32; 1575; 1604; 1588;
                    1581; 1606; 1577; 58; 32]%N ++ name m) w1)
        as (out2 & w2 & Hsend & Hw2). eauto 6.
    - exists (Returned tt), w1, [], (outside w1).
      split; [reflexivity | apply issued_refl]. }
  destruct Hnotify as (out2 & w2 & rs2 & e2 & Hsend & Hw2).
  pose proof (issued_trans _ _ _ _ _ _ _ Hw1 Hw2) as Hw12. simpl in Hw12.
  destruct out2 as [[]|error].
  - destruct (logger_info_issued P (js "Order status updated") w2)
      as (w3 & Hlog & Hw3).
    pose proof (issued_trans _ _ _ _ _ _ _ Hw12 Hw3) as Hw123.
    rewrite app_nil_r in Hw123.
    match goal with
    | |- context [try_catch ?b ?h _] =>
        assert (Hbody : b w = (Returned tt, w3))
          by (unfold bind; rewrite Hput, Hsend, Hlog; reflexivity);
        destruct (rethrow_issued P b (js "Failed to update order status") w
                    _ _ _ _ Hbody Hw123) as (w' & Hrun & Hw')
    end.
    rewrite Hrun. intros Hlogs. eexists _, w', rs2, _.
    split; [reflexivity|]. split; [exact Hw' | exact Hlogs].
  - match goal with
    | |- context [try_catch ?b ?h _] =>
        assert (Hbody : b w = (Thrown error, w2))
          by (unfold bind; rewrite Hput, Hsend; reflexivity);
        destruct (rethrow_issued P b (js "Failed to update order status") w
                    _ _ _ _ Hbody Hw12) as (w' & Hrun & Hw')
    end.
    rewrite Hrun. intros Hlogs. eexists _, w', rs2, _.
    split; [reflexivity|]. split; [exact Hw' | exact Hlogs].
Qed.

End Reconciliation.

(* ===================================================================== *)
(** ** The status table against the status vocabulary (C1) *)
(* ===================================================================== *)

(** C1, as stated, fails: [pending] and [in_transit] belong to the status
    vocabulary of a consignment ([Shipment.getStatusDescription]) but
    [settings.shipmentStatuses] has no entry for them, and reconciliation
    given [pending] takes the unknown-status branch: it writes the warning
    and sends nothing. *)
Lemma shipmentStatuses_misses_pending :
  In (js "pending") Shipment_statusMap_keys /\
  In (js "in_transit") Shipment_statusMap_keys /\
  shipmentStatuses_get (Some (js "pending")) = Undefined /\
  shipmentStatuses_get (Some (js "in_transit")) = Undefined /\
  updateOrderFromShipmentStatus
    (Demo.platform (Demo.issues (js "12345")) (Demo.reports (js "pending")))
    1001 {| current_status := Some (js "pending") |} (Demo.world [])
  = (Returned tt,
     {| outside := [];
        requests := [];
        app_log := [{| log_level := js "WARN";
                       log_message := js "Unknown shipment status" |}];
        sync_log := [] |}).
Proof.
  split; [vm_compute; tauto|]. split; [vm_compute; tauto|].
  split; [vm_compute; reflexivity|]. split; vm_compute; reflexivity.
Qed.

(** C1, amended: every status of [SUPPORTED_SHIPMENT_STATUSES]
    (pickup_scheduled, out_for_pickup, reached_at_hub, outfordelivery,
    attempted, delivered, cancelled) has an entry in
    [settings.shipmentStatuses], and reconciliation given such a status does
    not take the unknown-status branch: the first request it sends is the
    status update of the order, and no line it logs is the unknown-status
    warning. *)
Theorem supported_statuses_are_mapped {E} (P : Platform E) (s : jsstring)
    (id : Z) (w : World E) :
  In s SUPPORTED_SHIPMENT_STATUSES ->
  exists m,
    shipmentStatuses_get (Some s) = Own m /\
    exists out w' rs e',
      updateOrderFromShipmentStatus P id {| current_status := Some s |} w
        = (out, w') /\
      issued w w'
        (ShopifyPutOrder id (PatchFinancialStatus (Some (shopifyStatus m))) :: rs)
        e' /\
      logged_only (fun msg => msg <> js "Unknown shipment status") w w'.
Proof.
  intros Hs.
  assert (Hm : exists m, shipmentStatuses_get (Some s) = Own m).
  { simpl in Hs.
    repeat (destruct Hs as [<-|Hs]; [eexists; vm_compute; reflexivity|]).
    contradiction. }
  destruct Hm as (m & Hm). exists m. split; [exact Hm|].
  apply updateOrderFromShipmentStatus_known. exact Hm.
Qed.

Lemma supported_statuses_are_mapped_witness :
  exists m,
    shipmentStatuses_get (Some (js "delivered")) = Own m /\
    exists out w' rs e',
      updateOrderFromShipmentStatus
        (Demo.platform (Demo.issues (js "12345")) (Demo.reports (js "delivered")))
        1001 {| current_status := Some (js "delivered") |}
        (Demo.world [Demo.order 1001 None])
        = (out, w') /\
      issued (Demo.world [Demo.order 1001 None]) w'
        (ShopifyPutOrder 1001 (PatchFinancialStatus (Some (shopifyStatus m))) :: rs)
        e' /\
      logged_only (fun msg => msg <> js "Unknown shipment status")
        (Demo.world [Demo.order 1001 None]) w'.
Proof.
  apply (supported_statuses_are_mapped
           (Demo.platform (Demo.issues (js "12345"))
              (Demo.reports (js "delivered")))
           (js "delivered") 1001 (Demo.world [Demo.order 1001 None])).
  vm_compute. tauto.
Defined.

(* ===================================================================== *)
(** ** The guard of [syncOrder] (C2, C5) *)
(* ===================================================================== *)

Lemma note_has_marker_contains (pre post : jsstring) :
  note_has_marker (Some (pre ++ SHIPSY_ID_LIT ++ post)) = true.
Proof.
  unfold note_has_marker. apply andb_true_iff. split.
  - destruct pre; reflexivity.
  - apply includes_true. eauto.
Qed.

(** C2, at the failing input: the note [syncOrder] itself writes for the
    carrier identifier YE12345 is not synced for [extractConsignmentId], so
    [handleOrderUpdated] calls [syncOrder] for the order and
    [updateConsignmentStatuses] skips it without asking the carrier; yet
    the guard of [syncOrder] takes its already-synced short-circuit on it,
    and [getSyncStats] counts the order as synced. *)
Theorem syncOrder_guard_is_not_extractConsignmentId :
  let P := Demo.platform (Demo.issues (js "YE12345"))
             (Demo.reports (js "delivered")) in
  let o := Demo.order 1001 (Some Demo.lettered_note) in
  extractConsignmentId (note o) = None /\
  note_has_marker (note o) = true /\
  fst (syncOrder P o (Demo.world [o])) = Returned (Some already_synced) /\
  getSyncStats_synced [o] = 1 /\
  map log_message (app_log (snd (handleOrderUpdated P o (Demo.world [o]))))
  = [js "Handling order updated webhook"; js "Order already synced"] /\
  updateConsignmentStatuses P (Demo.world [o])
  = (Returned {| updated := 0; failed_updates := 0 |},
     {| outside := [o];
        requests := [ShopifyGetOrders
                       (getAllOrders_params updateConsignmentStatuses_filters)];
        app_log := [{| log_level := js "INFO";
                       log_message := js "Starting consignment status update..." |};
                    {| log_level := js "INFO";
                       log_message := js "Status update completed" |}];
        sync_log := [] |}).
Proof. repeat split; vm_compute; reflexivity. Qed.

(** C5: for an order whose note contains [SHIPSY_ID:], [syncOrder] returns
    [{ success: false, reason: "already_synced" }], sends no request at all
    (none to the carrier, none to the order source) and leaves the outside
    as it was. *)
Theorem syncOrder_already_synced {E} (P : Platform E) (o : Order)
    (w : World E) (pre post : jsstring) :
  note o = Some (pre ++ SHIPSY_ID_LIT ++ post) ->
  fst (syncOrder P o w) = Returned (Some already_synced) /\
  requests (snd (syncOrder P o w)) = requests w /\
  outside (snd (syncOrder P o w)) = outside w.
Proof.
  intros Hnote.
  destruct (syncOrder_cases P o w) as (out & w' & rs & e' & Hrun & Hw & Hcases).
  rewrite Hrun. simpl.
  assert (Hguard : note_has_marker (note o) = true)
    by (rewrite Hnote; apply note_has_marker_contains).
  destruct Hcases as [(_ & -> & -> & ->)|[(Hno & _)|(Hno & _)]];
    try congruence.
  destruct Hw as (Hreq & Hout & _). rewrite app_nil_r in Hreq. auto.
Qed.

Lemma syncOrder_already_synced_witness :
  fst (syncOrder
         (Demo.platform (Demo.issues (js "99")) (Demo.reports (js "delivered")))
         (Demo.order 1001 (Some (sync_note (js "12345") Demo.stamp)))
         (Demo.world [Demo.order 1001 (Some (sync_note (js "12345") Demo.stamp))]))
    = Returned (Some already_synced) /\
  requests
    (snd (syncOrder
            (Demo.platform (Demo.issues (js "99")) (Demo.reports (js "delivered")))
            (Demo.order 1001 (Some (sync_note (js "12345") Demo.stamp)))
            (Demo.world [Demo.order 1001 (Some (sync_note (js "12345") Demo.stamp))])))
    = [] /\
  outside
    (snd (syncOrder
            (Demo.platform (Demo.issues (js "99")) (Demo.reports (js "delivered")))
            (Demo.order 1001 (Some (sync_note (js "12345") Demo.stamp)))
            (Demo.world [Demo.order 1001 (Some (sync_note (js "12345") Demo.stamp))])))
    = [Demo.order 1001 (Some (sync_note (js "12345") Demo.stamp))].
Proof.
  apply (syncOrder_already_synced
           (Demo.platform (Demo.issues (js "99")) (Demo.reports (js "delivered")))
           (Demo.order 1001 (Some (sync_note (js "12345") Demo.stamp)))
           (Demo.world [Demo.order 1001 (Some (sync_note (js "12345") Demo.stamp))])
           []
           (js " 12345" ++ [LF] ++ js "Created: " ++ Demo.stamp)).
  reflexivity.
Defined.

(* ===================================================================== *)
(** ** What a successful [syncOrder] writes (C3, C4) *)
(* ===================================================================== *)

(** A successful [syncOrder] sends four requests: the consignment, the
    note, the read of the order and the tags.  The note it sends is
    [SHIPSY_ID: <id>], a line feed and [Created: <instant>], whatever the
    note of the order was. *)
Lemma syncOrder_success_requests {E} (P : Platform E) (o : Order)
    (w w' : World E) (r : SyncOrderResult) :
  syncOrder P o w = (Returned (Some r), w') -> success r = true ->
  exists payload cid text,
    transformOrderToConsignment o = Returned payload /\
    consignmentId r = Some cid /\ cid <> [] /\
    requests w'
    = requests w ++
      [CarrierPostSoftdata payload;
       ShopifyPutOrder (order_id o)
         (PatchNote
            (sync_note cid
               (toISOString_now P
                  (snd (carrier_post_softdata P payload (outside w))))));
       ShopifyGetOrder (order_id o);
       ShopifyPutOrder (order_id o) (PatchTags text)].
Proof.
  intros Hrun Hok.
  destruct (syncOrder_cases P o w) as (out & w1 & rs & e' & Hrun' & Hw & Hcases).
  rewrite Hrun in Hrun'. injection Hrun' as <- <-.
  destruct Hcases as [(_ & Hout & _)|[(_ & error & Hout)|(_ & H)]].
  - injection Hout as ->. discriminate Hok.
  - discriminate Hout.
  - destruct H as (payload & cid & text & Ht & _ & Hcid & Hout & ->).
    injection Hout as ->. exists payload, cid, text.
    destruct Hw as (Hreq & _). auto.
Qed.

(** C3, at the failing input: an order whose note is the merchant's text
    "Leave at the back door" is synced with success; the note sent to the
    order source is only the token line and the [Created:] line, the order
    source then holds that text as the note, and the merchant's text is no
    longer part of it. *)
Theorem syncOrder_replaces_merchant_note :
  let P := Demo.platform (Demo.issues (js "12345"))
             (Demo.reports (js "delivered")) in
  let o := Demo.order 1001 (Some Demo.merchant_note) in
  let after := syncOrder P o (Demo.world [o]) in
  fst after
    = Returned (Some {| success := true; reason := None;
                        orderId := Some 1001%Z;
                        consignmentId := Some (js "12345") |}) /\
  List.filter is_order_write (requests (snd after))
    = [ShopifyPutOrder 1001 (PatchNote (sync_note (js "12345") Demo.stamp));
       ShopifyPutOrder 1001 (PatchTags (js "shipsy-synced"))] /\
  option_map note (Demo.find_order 1001 (outside (snd after)))
    = Some (Some (sync_note (js "12345") Demo.stamp)) /\
  includes (sync_note (js "12345") Demo.stamp) Demo.merchant_note = false.
Proof. repeat split; vm_compute; reflexivity. Qed.

(** [SyncLog.logSync] appends the entry it returns to [logs/sync.log]. *)
Lemma logSync_appends {E} (P : Platform E) (d : SyncData) (w : World E) :
  exists entry,
    fst (logSync P d w) = Returned entry /\
    sync_log (snd (logSync P d w)) = sync_log w ++ [entry].
Proof. eexists. split; reflexivity. Qed.

(** C4, on the code: no call of [syncOrder], whether it succeeds,
    short-circuits or throws, adds an entry to [logs/sync.log]; the file is
    left exactly as it was. *)
Theorem syncOrder_never_writes_sync_log {E} (P : Platform E) (o : Order)
    (w : World E) :
  sync_log (snd (syncOrder P o w)) = sync_log w.
Proof.
  destruct (syncOrder_cases P o w) as (out & w' & rs & e' & Hrun & Hw & _).
  rewrite Hrun. destruct Hw as (_ & _ & Hlog). exact Hlog.
Qed.

(** What [syncOrder] does write goes to [logs/app.log], and not one line
    per attempt: three lines for a success, one for the short-circuit,
    three for a rejected creation. *)
Example syncOrder_app_log_lines :
  let P := Demo.platform (Demo.issues (js "12345"))
             (Demo.reports (js "delivered")) in
  let R := Demo.platform (Demo.rejects 1001 (js "12345"))
             (Demo.reports (js "delivered")) in
  let fresh := Demo.order 1001 None in
  let done := Demo.order 1001 (Some (sync_note (js "12345") Demo.stamp)) in
  map log_message (app_log (snd (syncOrder P fresh (Demo.world [fresh]))))
  = [js "Creating consignment in Shipsy";
     js "Consignment created successfully";
     js "Order synced successfully"] /\
  map log_message (app_log (snd (syncOrder P done (Demo.world [done]))))
  = [js "Order already synced"] /\
  map log_message (app_log (snd (syncOrder R fresh (Demo.world [fresh]))))
  = [js "Creating consignment in Shipsy";
     js "Failed to create consignment";
     js "Failed to sync order"].
Proof. repeat split; vm_compute; reflexivity. Qed.

(* ===================================================================== *)
(** ** The note token (C6, C10) *)
(* ===================================================================== *)

(** C6: the round trip of the note token.
    - The note [syncOrder] writes for a non-empty, all-digit identifier
      extracts to that identifier, whatever the instant.
    - A [null] note, an empty note, a note without [SHIPSY_ID:], and a
      note in which no [SHIPSY_ID:] is followed by optional white space and
      a digit, extract to [null].
    - A note made of a text without [SHIPSY_ID:], then [SHIPSY_ID:], white
      space, the digits, and then nothing or a text that starts with a
      non-digit (a new line, say), extracts to those digits. *)
Theorem extractConsignmentId_round_trip :
  (forall cid stamp : jsstring,
      cid <> [] -> forallb is_digit cid = true ->
      extractConsignmentId (Some (sync_note cid stamp)) = Some cid) /\
  extractConsignmentId None = None /\
  extractConsignmentId (Some []) = None /\
  (forall s : jsstring,
      includes s SHIPSY_ID_LIT = false ->
      extractConsignmentId (Some s) = None) /\
  (forall s : jsstring,
      (forall pre ws c rest,
          forallb is_space ws = true -> is_digit c = true ->
          s <> pre ++ SHIPSY_ID_LIT ++ ws ++ c :: rest) ->
      extractConsignmentId (Some s) = None) /\
  (forall pre ws cid post : jsstring,
      includes pre SHIPSY_ID_LIT = false ->
      forallb is_space ws = true ->
      cid <> [] -> forallb is_digit cid = true ->
      match post with c :: _ => is_digit c = false | [] => True end ->
      extractConsignmentId (Some (pre ++ SHIPSY_ID_LIT ++ ws ++ cid ++ post))
      = Some cid).
Proof.
  assert (Hbehind : forall pre ws cid post : jsstring,
             includes pre SHIPSY_ID_LIT = false ->
             forallb is_space ws = true ->
             cid <> [] -> forallb is_digit cid = true ->
             match post with c :: _ => is_digit c = false | [] => True end ->
             extractConsignmentId
               (Some (pre ++ SHIPSY_ID_LIT ++ ws ++ cid ++ post)) = Some cid).
  { intros. rewrite extractConsignmentId_first_token.
    apply first_token_behind; assumption. }
  split; [|split; [reflexivity|split; [reflexivity|split;
    [|split; [|exact Hbehind]]]]].
  - intros cid stamp Hne Hd.
    apply (Hbehind [] [32%N] cid (LF :: js "Created: " ++ stamp));
      auto; reflexivity.
  - intros s Hs. rewrite extractConsignmentId_first_token.
    apply first_token_no_marker, Hs.
  - intros s Hs. rewrite extractConsignmentId_first_token.
    destruct (first_token s) as [d|] eqn:Hd; [|reflexivity].
    apply first_token_shape in Hd as (pre & ws & c & rest & Hws & Hc & Heq).
    exfalso. exact (Hs pre ws c rest Hws Hc Heq).
Qed.

Lemma extractConsignmentId_round_trip_witness :
  extractConsignmentId (Some (sync_note (js "12345") Demo.stamp))
    = Some (js "12345") /\
  extractConsignmentId (Some Demo.merchant_note) = None /\
  extractConsignmentId
    (Some (js "Leave at the back door; " ++ SHIPSY_ID_LIT ++ js "  " ++
           js "777" ++ js " thanks"))
    = Some (js "777").
Proof.
  destruct extractConsignmentId_round_trip as (H1 & _ & _ & H2 & _ & H3).
  split; [|split].
  - apply H1; [discriminate | reflexivity].
  - apply H2. reflexivity.
  - apply H3; try reflexivity. discriminate.
Defined.

(** C10, as stated, fails: on a note with two markers of which only the
    second is followed by digits, [extractConsignmentId] returns the digits
    of the second one; it is neither [null] nor the digit run that follows
    the first occurrence of [SHIPSY_ID:], which is empty. *)
Lemma extractConsignmentId_skips_first_marker :
  ~ (forall note : option jsstring,
        extractConsignmentId note = None \/
        extractConsignmentId note = digits_after_first_marker note).
Proof.
  intros H. specialize (H (Some Demo.two_marker_note)).
  vm_compute in H. destruct H as [H|H]; discriminate H.
Qed.

(** C10, amended: [extractConsignmentId] is total; on a [null] or empty
    note it returns [null]; it returns [null] exactly when no occurrence of
    [SHIPSY_ID:] in the note is followed by optional white space and a
    digit; and otherwise it returns a non-empty string of decimal digits,
    the maximal digit run that follows (after optional white space) the
    first occurrence of [SHIPSY_ID:] that is followed by optional white
    space and a digit. *)
Theorem extractConsignmentId_leftmost_token (note : option jsstring) :
  extractConsignmentId None = None /\
  extractConsignmentId (Some []) = None /\
  match extractConsignmentId note with
  | None =>
      forall pre ws c rest,
        forallb is_space ws = true -> is_digit c = true ->
        note <> Some (pre ++ SHIPSY_ID_LIT ++ ws ++ c :: rest)
  | Some d =>
      d <> [] /\ forallb is_digit d = true /\
      exists pre ws post,
        note = Some (pre ++ SHIPSY_ID_LIT ++ ws ++ d ++ post) /\
        forallb is_space ws = true /\
        match post with c :: _ => is_digit c = false | [] => True end /\
        forall pre' ws' c rest,
          forallb is_space ws' = true -> is_digit c = true ->
          note = Some (pre' ++ SHIPSY_ID_LIT ++ ws' ++ c :: rest) ->
          length pre <= length pre'
  end.
Proof.
  split; [reflexivity|]. split; [reflexivity|].
  rewrite extractConsignmentId_first_token.
  destruct note as [s|].
  - destruct (first_token s) as [d|] eqn:Hd.
    + apply first_token_Some in Hd as (pre & t & -> & Ht & Hleft).
      apply token_at_Some in Ht as (Hne & Hdig & ws & post & -> & Hws & Hpost).
      split; [exact Hne|]. split; [exact Hdig|].
      exists pre, ws, post. split; [reflexivity|]. split; [exact Hws|].
      split; [exact Hpost|].
      intros pre' ws' c rest Hws' Hc [= Heq].
      destruct (Nat.le_gt_cases (length pre) (length pre')) as [Hle|Hlt];
        [exact Hle|].
      exfalso. apply (token_at_present ws' rest c Hws' Hc).
      exact (Hleft pre' _ Heq Hlt).
    + intros pre ws c rest Hws Hc [= ->].
      apply (token_at_present ws rest c Hws Hc).
      rewrite first_token_None in Hd. exact (Hd pre _ eq_refl).
  - intros pre ws c rest _ _ H. discriminate H.
Qed.

Lemma extractConsignmentId_leftmost_token_witness :
  extractConsignmentId None = None /\
  extractConsignmentId (Some []) = None /\
  match extractConsignmentId (Some Demo.two_marker_note) with
  | None =>
      forall pre ws c rest,
        forallb is_space ws = true -> is_digit c = true ->
        Some Demo.two_marker_note
        <> Some (pre ++ SHIPSY_ID_LIT ++ ws ++ c :: rest)
  | Some d =>
      d <> [] /\ forallb is_digit d = true /\
      exists pre ws post,
        Some Demo.two_marker_note
        = Some (pre ++ SHIPSY_ID_LIT ++ ws ++ d ++ post) /\
        forallb is_space ws = true /\
        match post with c :: _ => is_digit c = false | [] => True end /\
        forall pre' ws' c rest,
          forallb is_space ws' = true -> is_digit c = true ->
          Some Demo.two_marker_note
          = Some (pre' ++ SHIPSY_ID_LIT ++ ws' ++ c :: rest) ->
          length pre <= length pre'
  end.
Proof. exact (extractConsignmentId_leftmost_token (Some Demo.two_marker_note)). Defined.

(* ===================================================================== *)
(** ** Batch isolation of [syncPendingOrders] (C7) *)
(* ===================================================================== *)

(** C7: once the page of orders is fetched, and none of its orders is
    refunded or cancelled, [syncPendingOrders] returns and does not throw,
    whatever the single calls of [syncOrder] do: [synced] is the number of
    calls of [syncOrder] that returned success, [failed] the number of
    calls that threw, [total] the number of orders fetched; and when every
    call either succeeds or throws, [synced + failed = total]. *)
Theorem syncPendingOrders_batch_isolation {E} (P : Platform E)
    (options : SyncOptions) (w : World E) (orders : list Order) :
  fst (shopify_get_orders P
         (getAllOrders_params (syncPendingOrders_filters options)) (outside w))
    = Resolved orders ->
  Forall (fun o => financial_status o <> Some (js "refunded") /\
                   fulfillment_status o <> Some (js "cancelled")) orders ->
  let outcomes :=
    sync_outcomes P orders
      (snd (shopify_get_orders P
              (getAllOrders_params (syncPendingOrders_filters options))
              (outside w))) in
  exists w',
    syncPendingOrders P options w
    = (Returned {| synced := successes outcomes;
                   failed := throws outcomes;
                   total := length orders |}, w') /\
    (Forall (fun out => sync_succeeded out || sync_threw out = true) outcomes ->
     successes outcomes + throws outcomes = length orders).
Proof.
  intros Hfetch Hkeep outcomes. unfold syncPendingOrders.
  destruct (logger_info_issued P (js "Starting order sync...") w)
    as (w0 & Hlog0 & Hw0).
  destruct (getAllOrders_issued P (syncPendingOrders_filters options) w0)
    as (w1 & Hget & Hw1).
  assert (He : outside w0 = outside w) by (destruct Hw0 as (_ & H & _); exact H).
  rewrite He in Hget, Hw1. rewrite Hfetch in Hget.
  assert (He1 : outside w1
                = snd (shopify_get_orders P
                         (getAllOrders_params (syncPendingOrders_filters options))
                         (outside w)))
    by (destruct Hw1 as (_ & H & _); exact H).
  destruct (syncPendingOrders_loop_outcomes P orders (0, 0) w1 Hkeep)
    as (w2 & Hloop).
  rewrite He1 in Hloop. fold outcomes in Hloop.
  destruct (logger_info_issued P (js "Order sync completed") w2)
    as (w3 & Hlog3 & _).
  exists w3. split.
  - unfold try_catch, bind. rewrite Hlog0, Hget, Hloop, Hlog3. reflexivity.
  - apply sync_outcomes_partition.
Qed.

Lemma syncPendingOrders_batch_isolation_witness :
  let P := Demo.platform (Demo.rejects 2 (js "77"))
             (Demo.reports (js "delivered")) in
  let orders := [Demo.order 1 None; Demo.order 2 None; Demo.order 3 None] in
  let options := {| limit := None; createdAfter := None |} in
  let outcomes := sync_outcomes P orders orders in
  outcomes
    = [Returned (Some {| success := true; reason := None;
                         orderId := Some 1%Z;
                         consignmentId := Some (js "77") |});
       Thrown (js "Request failed with status code 500");
       Returned (Some {| success := true; reason := None;
                         orderId := Some 3%Z;
                         consignmentId := Some (js "77") |})] /\
  exists w',
    syncPendingOrders P options (Demo.world orders)
    = (Returned {| synced := 2; failed := 1; total := 3 |}, w') /\
    (Forall (fun out => sync_succeeded out || sync_threw out = true) outcomes ->
     2 + 1 = 3).
Proof.
  split; [vm_compute; reflexivity|].
  apply (syncPendingOrders_batch_isolation
           (Demo.platform (Demo.rejects 2 (js "77"))
              (Demo.reports (js "delivered")))
           {| limit := None; createdAfter := None |}
           (Demo.world [Demo.order 1 None; Demo.order 2 None; Demo.order 3 None])
           [Demo.order 1 None; Demo.order 2 None; Demo.order 3 None]).
  - reflexivity.
  - repeat (constructor; [split; discriminate|]). constructor.
Defined.

(** The scenario of the specification: of three orders the carrier rejects
    the second; the batch reports two synced, one failed, three in all. *)
Example syncPendingOrders_one_of_three_fails :
  fst (syncPendingOrders
         (Demo.platform (Demo.rejects 2 (js "77")) (Demo.reports (js "delivered")))
         {| limit := None; createdAfter := None |}
         (Demo.world [Demo.order 1 None; Demo.order 2 None; Demo.order 3 None]))
  = Returned {| synced := 2; failed := 1; total := 3 |}.
Proof. vm_compute. reflexivity. Qed.

(* ===================================================================== *)
(** ** A 2xx answer without an identifier (C8) *)
(* ===================================================================== *)

(** C8: when the carrier answers the upload without a transport error,
    [createConsignment] throws "No consignment ID in response" if the
    answer lacks a consignment identifier, and returns success, with that
    identifier, only if the answer carries one. *)
Theorem createConsignment_needs_identifier {E} (P : Platform E) (o : Order)
    (w : World E) (payload : Consignment) (reply : option SoftdataReply) :
  transformOrderToConsignment o = Returned payload ->
  fst (carrier_post_softdata P payload (outside w)) = Resolved reply ->
  (has_consignment_id reply = false ->
   fst (createConsignment P o w) = Thrown (js "No consignment ID in response")) /\
  (forall c, fst (createConsignment P o w) = Returned c ->
             created_success c = true /\
             created_consignmentId c <> [] /\
             reply = Some (created_data c) /\
             consignment_id (created_data c) = Some (created_consignmentId c)).
Proof.
  intros Ht Hreply. split.
  - intros Hid.
    destruct (createConsignment_posts P o w payload Ht) as (w' & -> & _).
    rewrite Hreply. simpl.
    destruct reply as [data|]; [|reflexivity].
    simpl in Hid. rewrite Hid. reflexivity.
  - intros c Hc.
    destruct (createConsignment P o w) as [out w'] eqn:Hrun.
    simpl in Hc. subst out.
    destruct (createConsignment_returned P o w w' c Hrun)
      as (Hok & Hne & Hid & payload' & Ht' & Hanswer & _).
    rewrite Ht in Ht'. injection Ht' as <-.
    rewrite Hreply in Hanswer. injection Hanswer as ->. auto.
Qed.

Lemma createConsignment_needs_identifier_witness :
  let P := Demo.platform Demo.omits_id (Demo.reports (js "delivered")) in
  let o := Demo.order 1001 None in
  (has_consignment_id (Some {| consignment_id := None |}) = false ->
   fst (createConsignment P o (Demo.world [o]))
   = Thrown (js "No consignment ID in response")) /\
  (forall c, fst (createConsignment P o (Demo.world [o])) = Returned c ->
             created_success c = true /\
             created_consignmentId c <> [] /\
             Some {| consignment_id := None |} = Some (created_data c) /\
             consignment_id (created_data c) = Some (created_consignmentId c)).
Proof.
  apply (createConsignment_needs_identifier
           (Demo.platform Demo.omits_id (Demo.reports (js "delivered")))
           (Demo.order 1001 None) (Demo.world [Demo.order 1001 None])
           {| customer_reference_number := 1001; items := [(js "Shirt", 1%Z)] |}
           (Some {| consignment_id := None |}));
    reflexivity.
Defined.

(* ===================================================================== *)
(** ** An unmapped status in [updateConsignmentStatuses] (C9) *)
(* ===================================================================== *)

(** C9 as it is stated fails on the code.  Neither [constructor] nor the
    empty text has an entry in [settings.shipmentStatuses].  For
    [constructor] the lookup finds the member every object inherits, so
    the order is not skipped: its status is written to the order source,
    and the order is counted as updated.  For an empty status nothing is
    written and the order is not counted as updated. *)
Theorem updateConsignmentStatuses_no_entry_is_not_unmapped :
  let o := Demo.order 1001 (Some (sync_note (js "12345") Demo.stamp)) in
  let named :=
    updateConsignmentStatuses_turn
      (Demo.platform (Demo.issues (js "12345")) (Demo.reports (js "constructor")))
      o (0, 0) (Demo.world [o]) in
  let empty :=
    updateConsignmentStatuses_turn
      (Demo.platform (Demo.issues (js "12345")) (Demo.reports []))
      o (0, 0) (Demo.world [o]) in
  shipmentStatuses !! js "constructor" = None /\
  fst named = Returned (1, 0) /\
  List.filter is_order_write (requests (snd named))
    = [ShopifyPutOrder 1001 (PatchFinancialStatus None)] /\
  shipmentStatuses !! ([] : jsstring) = None /\
  fst empty = Returned (0, 0) /\
  List.filter is_order_write (requests (snd empty)) = [].
Proof. repeat split; vm_compute; reflexivity. Qed.

(** C9, amended: in the loop of [updateConsignmentStatuses], an order whose
    note carries a token and whose carrier-reported [current_status] is a
    non-empty text that is neither a key of [settings.shipmentStatuses] nor
    the name of a member every object inherits costs one status query and
    nothing else: nothing is sent to the order source, [failed] stays as it
    is, and [updated] is incremented all the same; the loop goes on with
    the remaining orders. *)
Theorem updateConsignmentStatuses_counts_unmapped {E} (P : Platform E)
    (o : Order) (rest : list Order) (counts : nat * nat) (w : World E)
    (cid s : jsstring) (reply : StatusReply) :
  extractConsignmentId (note o) = Some cid ->
  fst (carrier_get_status P cid (outside w)) = Resolved (Some reply) ->
  current_status reply = Some s -> s <> [] ->
  shipmentStatuses !! s = None ->
  ~ In s Object_prototype_names ->
  exists w',
    updateConsignmentStatuses_turn P o counts w
      = (Returned (S (fst counts), snd counts), w') /\
    issued w w' [CarrierGetStatus cid]
      (snd (carrier_get_status P cid (outside w))) /\
    List.filter is_order_write (requests w')
      = List.filter is_order_write (requests w) /\
    updateConsignmentStatuses_loop P (o :: rest) counts w
      = updateConsignmentStatuses_loop P rest (S (fst counts), snd counts) w'.
Proof.
  intros Hcid Hanswer Hstatus Hs Hnone Hname.
  assert (Hmap : shipmentStatuses_get (Some s) = Undefined).
  { unfold shipmentStatuses_get, property. cbn [default from_option].
    unfold Datatypes.id. rewrite Hnone.
    rewrite bool_decide_eq_false_2; [reflexivity|].
    intros Hin. apply Hname. apply list_elem_of_In. exact Hin. }
  destruct (getConsignmentStatus_issued P cid w) as (w1 & Hget & Hw1).
  rewrite Hanswer in Hget.
  assert (Hunknown : shipmentStatuses_get (current_status reply) = Undefined)
    by (rewrite Hstatus; exact Hmap).
  destruct (updateOrderFromShipmentStatus_unknown P (order_id o) reply w1
              Hunknown) as (w2 & Hupd & Hw12).
  assert (Hturn : updateConsignmentStatuses_turn P o counts w
                  = (Returned (S (fst counts), snd counts), w2)).
  { unfold updateConsignmentStatuses_turn, try_catch, bind.
    rewrite Hcid.
    assert (Htruthy : truthy (Some cid) = true).
    { rewrite extractConsignmentId_first_token in Hcid.
      destruct (note o) as [t|]; [|discriminate].
      apply first_token_Some in Hcid as (? & ? & _ & Ht & _).
      apply token_at_Some in Ht as (Hne & _). destruct cid; [contradiction|].
      reflexivity. }
    rewrite Htruthy. cbn [negb]. rewrite Hget.
    assert (Hst : truthy (current_status reply) = true)
      by (rewrite Hstatus; destruct s; [contradiction | reflexivity]).
    rewrite Hst, Hupd. reflexivity. }
  exists w2. split; [exact Hturn|].
  assert (Hw2 : issued w w2 [CarrierGetStatus cid]
                  (snd (carrier_get_status P cid (outside w)))).
  { pose proof (issued_trans _ _ _ _ _ _ _ Hw1 Hw12) as H. simpl in H.
    destruct Hw1 as (_ & <- & _). exact H. }
  split; [exact Hw2|]. split.
  - destruct Hw2 as (-> & _). rewrite List.filter_app. simpl.
    apply app_nil_r.
  - cbn [updateConsignmentStatuses_loop]. unfold bind at 1.
    rewrite Hturn. reflexivity.
Qed.

Lemma updateConsignmentStatuses_counts_unmapped_witness :
  let P := Demo.platform (Demo.issues (js "12345"))
             (Demo.reports (js "in_transit")) in
  let o := Demo.order 1001 (Some (sync_note (js "12345") Demo.stamp)) in
  exists w',
    updateConsignmentStatuses_turn P o (0, 0) (Demo.world [o])
      = (Returned (1, 0), w') /\
    issued (Demo.world [o]) w' [CarrierGetStatus (js "12345")]
      (snd (carrier_get_status P (js "12345") (outside (Demo.world [o])))) /\
    List.filter is_order_write (requests w')
      = List.filter is_order_write (requests (Demo.world [o])) /\
    updateConsignmentStatuses_loop P [o] (0, 0) (Demo.world [o])
      = updateConsignmentStatuses_loop P [] (1, 0) w'.
Proof.
  apply (updateConsignmentStatuses_counts_unmapped
           (Demo.platform (Demo.issues (js "12345"))
              (Demo.reports (js "in_transit")))
           (Demo.order 1001 (Some (sync_note (js "12345") Demo.stamp)))
           [] (0, 0)
           (Demo.world [Demo.order 1001 (Some (sync_note (js "12345") Demo.stamp))])
           (js "12345") (js "in_transit")
           {| current_status := Some (js "in_transit") |}).
  - reflexivity.
  - reflexivity.
  - reflexivity.
  - discriminate.
  - vm_compute. reflexivity.
  - intros H. repeat (destruct H as [H|H]; [discriminate H|]). exact H.
Defined.

(** The same order through the whole of [updateConsignmentStatuses]: the
    result counts it as updated although nothing was written. *)
Example updateConsignmentStatuses_unmapped_is_updated :
  let P := Demo.platform (Demo.issues (js "12345"))
             (Demo.reports (js "in_transit")) in
  let o := Demo.order 1001 (Some (sync_note (js "12345") Demo.stamp)) in
  fst (updateConsignmentStatuses P (Demo.world [o]))
    = Returned {| updated := 1; failed_updates := 0 |} /\
  List.filter is_order_write
    (requests (snd (updateConsignmentStatuses P (Demo.world [o])))) = [].
Proof. split; vm_compute; reflexivity. Qed.

(* ===================================================================== *)
(** ** Further properties of the engine *)
(* ===================================================================== *)

(** Whenever [extractConsignmentId] finds an identifier, the guard of
    [syncOrder] holds: the two tests differ in one direction only. *)
Theorem extractConsignmentId_implies_guard (text : option jsstring)
    (d : jsstring) :
  extractConsignmentId text = Some d -> note_has_marker text = true.
Proof. apply extractConsignmentId_marker. Qed.

Lemma extractConsignmentId_implies_guard_witness :
  note_has_marker (Some (sync_note (js "12345") Demo.stamp)) = true.
Proof.
  apply (extractConsignmentId_implies_guard
           (Some (sync_note (js "12345") Demo.stamp)) (js "12345")).
  reflexivity.
Defined.

(** The fresh-sync scenario: a [syncOrder] that returns success got a
    non-empty identifier from the carrier in answer to the consignment it
    sent, returns that identifier with the id of the order, and sent, in
    this order, the consignment, the note [SHIPSY_ID: <id>] with that
    identifier, the read of the order and the write of its tags. *)
Theorem syncOrder_fresh_sync {E} (P : Platform E) (o : Order)
    (w w' : World E) (r : SyncOrderResult) :
  syncOrder P o w = (Returned (Some r), w') -> success r = true ->
  exists payload cid text,
    transformOrderToConsignment o = Returned payload /\
    fst (carrier_post_softdata P payload (outside w))
      = Resolved (Some {| consignment_id := Some cid |}) /\
    cid <> [] /\
    r = {| success := true; reason := None;
           orderId := Some (order_id o); consignmentId := Some cid |} /\
    requests w'
    = requests w ++
      [CarrierPostSoftdata payload;
       ShopifyPutOrder (order_id o)
         (PatchNote
            (sync_note cid
               (toISOString_now P
                  (snd (carrier_post_softdata P payload (outside w))))));
       ShopifyGetOrder (order_id o);
       ShopifyPutOrder (order_id o) (PatchTags text)].
Proof.
  intros Hrun Hok.
  destruct (syncOrder_cases P o w) as (out & w1 & rs & e' & Hrun' & Hw & Hcases).
  rewrite Hrun in Hrun'. injection Hrun' as <- <-.
  destruct Hcases as [(_ & Hout & _)|[(_ & error & Hout)|(_ & H)]].
  - injection Hout as ->. discriminate Hok.
  - discriminate Hout.
  - destruct H as (payload & cid & text & Ht & Hanswer & Hcid & Hout & ->).
    injection Hout as ->. exists payload, cid, text.
    destruct Hw as (Hreq & _). auto.
Qed.

Lemma syncOrder_fresh_sync_witness :
  let P := Demo.platform (Demo.issues (js "12345"))
             (Demo.reports (js "delivered")) in
  let o := Demo.order 1001 None in
  exists payload cid text,
    transformOrderToConsignment o = Returned payload /\
    fst (carrier_post_softdata P payload (outside (Demo.world [o])))
      = Resolved (Some {| consignment_id := Some cid |}) /\
    cid <> [] /\
    {| success := true; reason := None; orderId := Some 1001%Z;
       consignmentId := Some (js "12345") |}
    = {| success := true; reason := None;
         orderId := Some (order_id o); consignmentId := Some cid |} /\
    requests (snd (syncOrder P o (Demo.world [o])))
    = requests (Demo.world [o]) ++
      [CarrierPostSoftdata payload;
       ShopifyPutOrder (order_id o)
         (PatchNote
            (sync_note cid
               (toISOString_now P
                  (snd (carrier_post_softdata P payload
                          (outside (Demo.world [o])))))));
       ShopifyGetOrder (order_id o);
       ShopifyPutOrder (order_id o) (PatchTags text)].
Proof.
  apply (syncOrder_fresh_sync
           (Demo.platform (Demo.issues (js "12345"))
              (Demo.reports (js "delivered")))
           (Demo.order 1001 None) (Demo.world [Demo.order 1001 None])
           (snd (syncOrder
                   (Demo.platform (Demo.issues (js "12345"))
                      (Demo.reports (js "delivered")))
                   (Demo.order 1001 None) (Demo.world [Demo.order 1001 None])))
           {| success := true; reason := None; orderId := Some 1001%Z;
              consignmentId := Some (js "12345") |});
    vm_compute; reflexivity.
Defined.

(** A refunded or cancelled order is passed over by [syncPendingOrders]:
    whatever its note, nothing is sent for it and neither counter moves. *)
Theorem syncPendingOrders_skips_terminal {E} (P : Platform E) (o : Order)
    (counts : nat * nat) (w : World E) :
  financial_status o = Some (js "refunded") \/
  fulfillment_status o = Some (js "cancelled") ->
  syncPendingOrders_turn P o counts w = (Returned counts, w).
Proof.
  intros Hterm. unfold syncPendingOrders_turn, try_catch.
  assert (H : is_terminal o = true).
  { unfold is_terminal. apply orb_true_iff.
    destruct Hterm as [H|H]; [left|right]; apply bool_decide_eq_true; exact H. }
  rewrite H. reflexivity.
Qed.

Lemma syncPendingOrders_skips_terminal_witness :
  let P := Demo.platform (Demo.issues (js "12345"))
             (Demo.reports (js "delivered")) in
  let o := {| order_id := 7; order_number := Some 7%Z; note := None;
              tags := None; financial_status := Some (js "refunded");
              fulfillment_status := None; line_items := Some [] |} in
  syncPendingOrders_turn P o (0, 0) (Demo.world [o])
  = (Returned (0, 0), Demo.world [o]).
Proof.
  apply (syncPendingOrders_skips_terminal
           (Demo.platform (Demo.issues (js "12345"))
              (Demo.reports (js "delivered")))
           {| order_id := 7; order_number := Some 7%Z; note := None;
              tags := None; financial_status := Some (js "refunded");
              fulfillment_status := None; line_items := Some [] |}
           (0, 0)).
  left. reflexivity.
Defined.

(** [syncOrder] never returns [undefined]: a consignment that
    [createConsignment] returns always reports success. *)
Theorem syncOrder_returns_an_object {E} (P : Platform E) (o : Order)
    (w : World E) :
  fst (syncOrder P o w) <> Returned None.
Proof. apply syncOrder_defined. Qed.

(** A status named like a member of [Object.prototype] is not taken as
    unknown: the lookup is truthy, and the order's status is overwritten
    with [undefined]. *)
Example updateOrderFromShipmentStatus_inherited_name :
  shipmentStatuses_get (Some (js "constructor")) = Inherited /\
  requests
    (snd (updateOrderFromShipmentStatus
            (Demo.platform (Demo.issues (js "12345"))
               (Demo.reports (js "constructor")))
            1001 {| current_status := Some (js "constructor") |}
            (Demo.world [Demo.order 1001 None])))
  = [ShopifyPutOrder 1001 (PatchFinancialStatus None)].
Proof. split; vm_compute; reflexivity. Qed.

(* ===================================================================== *)
(** ** Which requests a method can send *)
(* ===================================================================== *)

Lemma sent_only_refl {E} (q : Request -> bool) (w : World E) : sent_only q w w.
Proof. exists []. rewrite app_nil_r. auto. Qed.

Lemma sent_only_trans {E} (q : Request -> bool) (w w1 w2 : World E) :
  sent_only q w w1 -> sent_only q w1 w2 -> sent_only q w w2.
Proof.
  intros (r1 & H1 & Hq1) (r2 & H2 & Hq2). exists (r1 ++ r2).
  rewrite H2, H1, app_assoc. split; [reflexivity|].
  rewrite forallb_app, Hq1, Hq2. reflexivity.
Qed.

Lemma sent_only_weaken {E} (q q' : Request -> bool) (w w' : World E) :
  (forall r, q r = true -> q' r = true) ->
  sent_only q w w' -> sent_only q' w w'.
Proof.
  intros Hqq (rs & H & Hq). exists rs. split; [exact H|].
  apply forallb_forall. intros r Hr.
  apply Hqq. exact (proj1 (forallb_forall q rs) Hq r Hr).
Qed.

Section Sending.

Context {E : Type} (P : Platform E) (q : Request -> bool).

Lemma sends_within_ret {A} (a : A) : sends_within q (@ret E A a).
Proof. intros w. apply sent_only_refl. Qed.

Lemma sends_within_throw {A} (message : jsstring) :
  sends_within q (@throw E A message).
Proof. intros w. apply sent_only_refl. Qed.

Lemma sends_within_pure {A} (out : Outcome A) :
  sends_within q (fun w : World E => (out, w)).
Proof. intros w. apply sent_only_refl. Qed.

Lemma sends_within_bind {A B} (m : Async E A) (k : A -> Async E B) :
  sends_within q m -> (forall a, sends_within q (k a)) ->
  sends_within q (bind m k).
Proof.
  intros Hm Hk w. unfold bind. specialize (Hm w).
  destruct (m w) as [[a|error] w1]; simpl in *; [|exact Hm].
  eapply sent_only_trans; [exact Hm | apply Hk].
Qed.

Lemma sends_within_try_catch {A} (m : Async E A) (h : jsstring -> Async E A) :
  sends_within q m -> (forall error, sends_within q (h error)) ->
  sends_within q (try_catch m h).
Proof.
  intros Hm Hh w. unfold try_catch. specialize (Hm w).
  destruct (m w) as [[a|error] w1]; simpl in *; [exact Hm|].
  eapply sent_only_trans; [exact Hm | apply Hh].
Qed.

Lemma sends_within_http {A} (r : Request) (answer : E -> Http A * E) :
  q r = true -> sends_within q (http r answer).
Proof.
  intros Hr w. unfold http.
  destruct (answer (outside w)) as [[a|message] e'];
    exists [r]; simpl; rewrite Hr; auto.
Qed.

Lemma sends_within_Logger_log (level message : jsstring) :
  sends_within q (@Logger_log E level message).
Proof. intros w. exists []. simpl. rewrite app_nil_r. auto. Qed.

Lemma sends_within_logger_error (message : jsstring) :
  sends_within q (logger_error P message).
Proof.
  unfold logger_error. destruct (level_reaches _ _);
    [apply sends_within_Logger_log | apply sends_within_ret].
Qed.

Lemma sends_within_logger_warn (message : jsstring) :
  sends_within q (logger_warn P message).
Proof.
  unfold logger_warn. destruct (level_reaches _ _);
    [apply sends_within_Logger_log | apply sends_within_ret].
Qed.

Lemma sends_within_logger_info (message : jsstring) :
  sends_within q (logger_info P message).
Proof.
  unfold logger_info. destruct (level_reaches _ _);
    [apply sends_within_Logger_log | apply sends_within_ret].
Qed.

Lemma sends_within_now : sends_within q (now P).
Proof. intros w. apply sent_only_refl. Qed.

End Sending.

Lemma sends_within_weaken {E A} (q q' : Request -> bool) (m : Async E A) :
  (forall r, q r = true -> q' r = true) ->
  sends_within q m -> sends_within q' m.
Proof. intros Hqq Hm w. eapply sent_only_weaken; [exact Hqq | apply Hm]. Qed.

(** Walks through a method: sequencing, [try]/[catch], branches, the
    logger, and the requests themselves. *)
Ltac sends_step :=
  first
    [ apply sends_within_ret
    | apply sends_within_throw
    | apply sends_within_pure
    | apply sends_within_now
    | apply sends_within_logger_error
    | apply sends_within_logger_warn
    | apply sends_within_logger_info
    | apply sends_within_http; reflexivity
    | apply sends_within_bind; [|intros]
    | apply sends_within_try_catch; [|intros]
    | match goal with
      | |- sends_within _ (if ?b then _ else _) => destruct b
      | |- sends_within _ (match ?x with _ => _ end) => destruct x
      end ].

Ltac sends := cbv zeta; repeat sends_step.

Section SendingOfMethods.

Context {E : Type} (P : Platform E).

Lemma createConsignment_sends (o : Order) :
  sends_within is_sync_request (createConsignment P o).
Proof. unfold createConsignment. sends. Qed.

Lemma getOrder_sends (id : Z) : sends_within is_sync_request (getOrder P id).
Proof. unfold getOrder. sends. Qed.

Lemma updateOrderNote_sends (id : Z) (text : jsstring) :
  sends_within is_sync_request (updateOrderNote P id text).
Proof. unfold updateOrderNote. sends. Qed.

Lemma addOrderTag_sends (id : Z) (tag : jsstring) :
  sends_within is_sync_request (addOrderTag P id tag).
Proof.
  unfold addOrderTag. apply sends_within_try_catch; [|intros; sends].
  apply sends_within_bind; [apply getOrder_sends|].
  intros order. cbv zeta. apply sends_within_http. reflexivity.
Qed.

Lemma syncOrder_sends (o : Order) :
  sends_within is_sync_request (syncOrder P o).
Proof.
  unfold syncOrder. apply sends_within_try_catch; [|intros; sends].
  destruct (note_has_marker (note o)); [sends|].
  apply sends_within_bind; [apply createConsignment_sends|].
  intros consignment. destruct (created_success consignment); [|sends].
  apply sends_within_bind; [apply sends_within_now|]. intros timestamp.
  cbv zeta.
  apply sends_within_bind; [apply updateOrderNote_sends|]. intros _.
  apply sends_within_bind; [apply addOrderTag_sends|]. intros _.
  sends.
Qed.

Lemma syncPendingOrders_turn_sends (o : Order) (counts : nat * nat) :
  sends_within is_sync_request (syncPendingOrders_turn P o counts).
Proof.
  unfold syncPendingOrders_turn. apply sends_within_try_catch; [|intros; sends].
  destruct (is_terminal o); [sends|].
  apply sends_within_bind; [apply syncOrder_sends|]. intros result. sends.
Qed.

Lemma syncPendingOrders_loop_sends (orders : list Order) :
  forall counts,
  sends_within is_sync_request (syncPendingOrders_loop P orders counts).
Proof.
  induction orders as [|o orders IH]; intros counts; simpl.
  - apply sends_within_ret.
  - apply sends_within_bind; [apply syncPendingOrders_turn_sends|].
    intros counts'. apply IH.
Qed.

Lemma getAllOrders_sends (filters : OrderFilters) :
  sends_within is_orders_read (getAllOrders P filters).
Proof. unfold getAllOrders. sends. Qed.

Lemma getConsignmentStatus_sends (cid : jsstring) :
  sends_within is_reconciliation_request (getConsignmentStatus P cid).
Proof. unfold getConsignmentStatus. sends. Qed.

Lemma updateOrderFromShipmentStatus_sends (id : Z) (reply : StatusReply) :
  sends_within is_reconciliation_request
    (updateOrderFromShipmentStatus P id reply).
Proof.
  unfold updateOrderFromShipmentStatus, updateOrderStatus, sendOrderMessage.
  sends.
Qed.

Lemma updateConsignmentStatuses_turn_sends (o : Order) (counts : nat * nat) :
  sends_within is_reconciliation_request
    (updateConsignmentStatuses_turn P o counts).
Proof.
  unfold updateConsignmentStatuses_turn.
  apply sends_within_try_catch; [|intros; sends].
  destruct (extractConsignmentId (note o)) as [cid|]; [|sends].
  destruct (negb (truthy (Some cid))); [sends|].
  apply sends_within_bind; [apply getConsignmentStatus_sends|].
  intros [reply|]; [|sends].
  destruct (truthy (current_status reply)); [|sends].
  apply sends_within_bind; [apply updateOrderFromShipmentStatus_sends|].
  intros; sends.
Qed.

Lemma updateConsignmentStatuses_loop_sends (orders : list Order) :
  forall counts,
  sends_within is_reconciliation_request
    (updateConsignmentStatuses_loop P orders counts).
Proof.
  induction orders as [|o orders IH]; intros counts; simpl.
  - apply sends_within_ret.
  - apply sends_within_bind; [apply updateConsignmentStatuses_turn_sends|].
    intros counts'. apply IH.
Qed.

End SendingOfMethods.

(** A batch sync reads one page of orders and, besides, only sends sync
    requests: it never asks the carrier for a status, never overwrites the
    status of an order and never messages a customer. *)
Theorem syncPendingOrders_only_syncs {E} (P : Platform E)
    (options : SyncOptions) :
  sends_within (fun r => is_orders_read r || is_sync_request r)
    (syncPendingOrders P options).
Proof.
  unfold syncPendingOrders.
  apply sends_within_try_catch; [|intros; sends].
  apply sends_within_bind; [sends|]. intros _.
  apply sends_within_bind.
  { eapply sends_within_weaken; [|apply getAllOrders_sends].
    intros r ->. reflexivity. }
  intros orders. apply sends_within_bind.
  { eapply sends_within_weaken; [|apply syncPendingOrders_loop_sends].
    intros r ->. apply orb_true_r. }
  intros counts. sends.
Qed.

(** A reconciliation reads one page of orders and, besides, only asks the
    carrier for statuses, writes order statuses and messages customers: it
    never creates a consignment and never writes a note or tags. *)
Theorem updateConsignmentStatuses_only_reconciles {E} (P : Platform E) :
  sends_within (fun r => is_orders_read r || is_reconciliation_request r)
    (updateConsignmentStatuses P).
Proof.
  unfold updateConsignmentStatuses.
  apply sends_within_try_catch; [|intros; sends].
  apply sends_within_bind; [sends|]. intros _.
  apply sends_within_bind.
  { eapply sends_within_weaken; [|apply getAllOrders_sends].
    intros r ->. reflexivity. }
  intros orders. apply sends_within_bind.
  { eapply sends_within_weaken; [|apply updateConsignmentStatuses_loop_sends].
    intros r ->. apply orb_true_r. }
  intros counts. sends.
Qed.

(* ===================================================================== *)
(** ** The webhook handlers *)
(* ===================================================================== *)

Section Webhooks.

Context {E : Type} (P : Platform E).

(** The short-circuit of [syncOrder], with the world it leaves. *)
Lemma syncOrder_marked (o : Order) (w : World E) :
  note_has_marker (note o) = true ->
  exists w',
    syncOrder P o w = (Returned (Some already_synced), w') /\
    issued w w' [] (outside w).
Proof.
  intros Hguard.
  destruct (syncOrder_cases P o w) as (out & w' & rs & e' & Hrun & Hw & Hcases).
  destruct Hcases as [(_ & -> & -> & ->)|[(Hno & _)|(Hno & _)]];
    try congruence.
  exists w'. auto.
Qed.

Lemma handleOrderCreated_marked (o : Order) (w : World E) :
  note_has_marker (note o) = true ->
  exists w',
    handleOrderCreated P o w = (Returned true, w') /\
    issued w w' [] (outside w).
Proof.
  intros Hguard. unfold handleOrderCreated, try_catch, bind.
  destruct (logger_info_issued P (js "Handling order created webhook") w)
    as (w1 & -> & Hw1).
  assert (He : outside w1 = outside w) by (destruct Hw1 as (_ & H & _); exact H).
  destruct (negb (bool_decide (env_ENABLE_AUTO_SYNC P = Some (js "false")))).
  - destruct (syncOrder_marked o w1 Hguard) as (w2 & -> & Hw2).
    exists w2. split; [reflexivity|].
    pose proof (issued_trans _ _ _ _ _ _ _ Hw1 Hw2) as H.
    rewrite He in H. exact H.
  - destruct (logger_info_issued P
                (js "Auto sync is disabled, order not synced") w1)
      as (w2 & -> & Hw2).
    exists w2. split; [reflexivity|].
    pose proof (issued_trans _ _ _ _ _ _ _ Hw1 Hw2) as H.
    rewrite He in H. exact H.
Qed.

Lemma handleOrderUpdated_marked (o : Order) (w : World E) :
  note_has_marker (note o) = true ->
  exists w',
    handleOrderUpdated P o w = (Returned true, w') /\
    issued w w' [] (outside w).
Proof.
  intros Hguard. unfold handleOrderUpdated, try_catch, bind.
  destruct (logger_info_issued P (js "Handling order updated webhook") w)
    as (w1 & -> & Hw1).
  assert (He : outside w1 = outside w) by (destruct Hw1 as (_ & H & _); exact H).
  destruct (bool_decide (financial_status o = Some (js "paid")));
    [|exists w1; auto].
  cbv zeta.
  destruct (negb (truthy (extractConsignmentId (note o)))
            && negb (bool_decide (env_ENABLE_AUTO_SYNC P = Some (js "false"))));
    [|exists w1; auto].
  unfold bind.
  destruct (syncOrder_marked o w1 Hguard) as (w2 & -> & Hw2).
  exists w2. split; [reflexivity|].
  pose proof (issued_trans _ _ _ _ _ _ _ Hw1 Hw2) as H.
  rewrite He in H. exact H.
Qed.

(** With [ENABLE_AUTO_SYNC=false] the created-order handler only logs. *)
Lemma handleOrderCreated_disabled (o : Order) (w : World E) :
  env_ENABLE_AUTO_SYNC P = Some (js "false") ->
  exists w',
    handleOrderCreated P o w = (Returned true, w') /\
    issued w w' [] (outside w).
Proof.
  intros Henv. unfold handleOrderCreated, try_catch, bind.
  destruct (logger_info_issued P (js "Handling order created webhook") w)
    as (w1 & -> & Hw1).
  assert (He : outside w1 = outside w) by (destruct Hw1 as (_ & H & _); exact H).
  rewrite Henv. rewrite bool_decide_eq_true_2 by reflexivity. cbn [negb].
  destruct (logger_info_issued P
              (js "Auto sync is disabled, order not synced") w1)
    as (w2 & -> & Hw2).
  exists w2. split; [reflexivity|].
  pose proof (issued_trans _ _ _ _ _ _ _ Hw1 Hw2) as H.
  rewrite He in H. exact H.
Qed.

(** The updated-order handler only logs when the order is not paid, when
    its note yields an identifier, or when auto sync is off. *)
Lemma handleOrderUpdated_idle (o : Order) (w : World E) :
  financial_status o <> Some (js "paid") \/
  extractConsignmentId (note o) <> None \/
  env_ENABLE_AUTO_SYNC P = Some (js "false") ->
  exists w',
    handleOrderUpdated P o w = (Returned true, w') /\
    issued w w' [] (outside w).
Proof.
  intros Hidle. unfold handleOrderUpdated, try_catch, bind.
  destruct (logger_info_issued P (js "Handling order updated webhook") w)
    as (w1 & -> & Hw1).
  destruct (bool_decide (financial_status o = Some (js "paid"))) eqn:Hpaid;
    [|exists w1; auto].
  apply bool_decide_eq_true in Hpaid. cbv zeta.
  assert (Hoff : negb (truthy (extractConsignmentId (note o)))
                 && negb (bool_decide
                            (env_ENABLE_AUTO_SYNC P = Some (js "false")))
                 = false).
  { destruct Hidle as [H|[H|H]]; [contradiction| |].
    - destruct (extractConsignmentId (note o)) as [[|c d]|] eqn:Hx;
        [|reflexivity|contradiction].
      exfalso. rewrite extractConsignmentId_first_token in Hx.
      destruct (note o) as [t|]; [|discriminate].
      apply first_token_Some in Hx as (? & ? & _ & Ht & _).
      apply token_at_Some in Ht as (Hne & _). contradiction.
    - rewrite H, bool_decide_eq_true_2 by reflexivity. apply andb_false_r. }
  rewrite Hoff. exists w1. auto.
Qed.

End Webhooks.

(** Webhook idempotency: for an order whose note contains [SHIPSY_ID:],
    both webhook handlers return [{ success: true }] and send no request
    at all; the outside is left as it was. *)
Theorem webhooks_idle_on_synced_order {E} (P : Platform E) (o : Order)
    (w : World E) (pre post : jsstring) :
  note o = Some (pre ++ SHIPSY_ID_LIT ++ post) ->
  (exists w', handleOrderCreated P o w = (Returned true, w') /\
              issued w w' [] (outside w)) /\
  (exists w', handleOrderUpdated P o w = (Returned true, w') /\
              issued w w' [] (outside w)).
Proof.
  intros Hnote.
  assert (Hguard : note_has_marker (note o) = true)
    by (rewrite Hnote; apply note_has_marker_contains).
  split;
    [apply handleOrderCreated_marked | apply handleOrderUpdated_marked];
    exact Hguard.
Qed.

Lemma webhooks_idle_on_synced_order_witness :
  let P := Demo.platform (Demo.issues (js "99")) (Demo.reports (js "delivered")) in
  let o := Demo.order 1001 (Some (sync_note (js "12345") Demo.stamp)) in
  (exists w', handleOrderCreated P o (Demo.world [o]) = (Returned true, w') /\
              issued (Demo.world [o]) w' [] (outside (Demo.world [o]))) /\
  (exists w', handleOrderUpdated P o (Demo.world [o]) = (Returned true, w') /\
              issued (Demo.world [o]) w' [] (outside (Demo.world [o]))).
Proof.
  apply (webhooks_idle_on_synced_order
           (Demo.platform (Demo.issues (js "99")) (Demo.reports (js "delivered")))
           (Demo.order 1001 (Some (sync_note (js "12345") Demo.stamp)))
           (Demo.world [Demo.order 1001 (Some (sync_note (js "12345") Demo.stamp))])
           []
           (js " 12345" ++ [LF] ++ js "Created: " ++ Demo.stamp)).
  reflexivity.
Defined.

(** The switch and the payment gate of the webhooks: with
    [ENABLE_AUTO_SYNC=false] neither handler sends a request, whatever the
    order; and the updated-order handler sends none either for an order
    that is not paid or whose note already yields an identifier.  In each
    case the handler returns [{ success: true }]. *)
Theorem webhooks_gates {E} (P : Platform E) (o : Order) (w : World E) :
  (env_ENABLE_AUTO_SYNC P = Some (js "false") ->
   exists w', handleOrderCreated P o w = (Returned true, w') /\
              issued w w' [] (outside w)) /\
  (financial_status o <> Some (js "paid") \/
   extractConsignmentId (note o) <> None \/
   env_ENABLE_AUTO_SYNC P = Some (js "false") ->
   exists w', handleOrderUpdated P o w = (Returned true, w') /\
              issued w w' [] (outside w)).
Proof.
  split; [apply handleOrderCreated_disabled | apply handleOrderUpdated_idle].
Qed.

Lemma webhooks_gates_witness :
  let P := Demo.platform (Demo.issues (js "99")) (Demo.reports (js "delivered")) in
  let o := {| order_id := 7; order_number := Some 7%Z; note := None;
              tags := None; financial_status := Some (js "pending");
              fulfillment_status := None; line_items := Some [] |} in
  exists w', handleOrderUpdated P o (Demo.world [o]) = (Returned true, w') /\
             issued (Demo.world [o]) w' [] (outside (Demo.world [o])).
Proof.
  apply (proj2 (webhooks_gates
                  (Demo.platform (Demo.issues (js "99"))
                     (Demo.reports (js "delivered")))
                  {| order_id := 7; order_number := Some 7%Z; note := None;
                     tags := None; financial_status := Some (js "pending");
                     fulfillment_status := None; line_items := Some [] |}
                  (Demo.world
                     [{| order_id := 7; order_number := Some 7%Z; note := None;
                         tags := None; financial_status := Some (js "pending");
                         fulfillment_status := None; line_items := Some [] |}]))).
  left. discriminate.
Defined.

(* ===================================================================== *)
(** ** [getSyncStats] and the loop of [updateConsignmentStatuses] *)
(* ===================================================================== *)

Lemma getSyncStats_tally_fold (orders : list Order) :
  forall s0 : SyncStats,
  let s := fold_left getSyncStats_tally orders s0 in
  stats_total s = stats_total s0 /\
  stats_synced s = stats_synced s0 + getSyncStats_synced orders /\
  stats_synced s + stats_notSynced s
    = stats_synced s0 + stats_notSynced s0 + length orders /\
  stats_pending s + stats_completed s
    <= stats_pending s0 + stats_completed s0 + length orders.
Proof.
  unfold getSyncStats_synced.
  induction orders as [|o orders IH]; intros s0; cbn zeta.
  - simpl. lia.
  - cbn [fold_left List.filter].
    set (s1 := getSyncStats_tally s0 o).
    assert (Hs1 :
      stats_total s1 = stats_total s0 /\
      stats_synced s1
        = stats_synced s0 + (if note_has_marker (note o) then 1 else 0) /\
      stats_synced s1 + stats_notSynced s1
        = stats_synced s0 + stats_notSynced s0 + 1 /\
      stats_pending s1 + stats_completed s1
        <= stats_pending s0 + stats_completed s0 + 1).
    { unfold s1, getSyncStats_tally. simpl.
      destruct (note_has_marker (note o));
        destruct (bool_decide (fulfillment_status o = Some (js "pending"))
                  || bool_decide (fulfillment_status o = Some (js "partial")));
        destruct (bool_decide (fulfillment_status o = Some (js "fulfilled")));
        lia. }
    destruct Hs1 as (A1 & A2 & A3 & A4).
    destruct (IH s1) as (H1 & H2 & H3 & H4). cbv zeta in H1, H2, H3, H4.
    destruct (note_has_marker (note o)); cbn [length]; lia.
Qed.

Lemma with_token_synced (orders : list Order) :
  length (with_token orders) <= getSyncStats_synced orders.
Proof.
  unfold with_token, getSyncStats_synced.
  induction orders as [|o orders IH]; [reflexivity|].
  cbn [List.filter].
  destruct (extractConsignmentId (note o)) as [d|] eqn:Hd.
  - rewrite (extractConsignmentId_marker _ _ Hd). simpl. lia.
  - destruct (note_has_marker (note o)); simpl; lia.
Qed.

Lemma with_token_length (orders : list Order) :
  length (with_token orders) <= length orders.
Proof.
  unfold with_token. induction orders as [|o orders IH]; [reflexivity|].
  cbn [List.filter]. destruct (extractConsignmentId (note o)); simpl; lia.
Qed.

(** [getSyncStats] on a page that was fetched: the tallies are consistent
    ([synced + notSynced = total], [pending + completed <= total]), an
    order is counted as synced by the test of [syncOrder]'s guard, which
    covers every order whose note yields an identifier, and the only
    request sent is the read of the page. *)
Theorem getSyncStats_consistent {E} (P : Platform E) (w : World E)
    (orders : list Order) :
  fst (shopify_get_orders P (getAllOrders_params getSyncStats_filters)
         (outside w)) = Resolved orders ->
  exists stats w',
    getSyncStats P w = (Returned stats, w') /\
    stats_total stats = length orders /\
    stats_synced stats + stats_notSynced stats = stats_total stats /\
    stats_pending stats + stats_completed stats <= stats_total stats /\
    stats_synced stats = getSyncStats_synced orders /\
    length (with_token orders) <= stats_synced stats /\
    issued w w' [ShopifyGetOrders (getAllOrders_params getSyncStats_filters)]
      (snd (shopify_get_orders P (getAllOrders_params getSyncStats_filters)
              (outside w))).
Proof.
  intros Hfetch. unfold getSyncStats, try_catch, bind.
  destruct (getAllOrders_issued P getSyncStats_filters w) as (w1 & -> & Hw1).
  rewrite Hfetch.
  destruct (getSyncStats_tally_fold orders
              {| stats_total := length orders; stats_synced := 0;
                 stats_notSynced := 0; stats_pending := 0;
                 stats_completed := 0 |}) as (H1 & H2 & H3 & H4).
  cbv zeta in H1, H2, H3, H4. simpl in H1, H2, H3, H4.
  eexists _, w1. split; [reflexivity|].
  pose proof (with_token_synced orders) as Htok.
  split; [exact H1|]. split; [lia|]. split; [lia|]. split; [lia|].
  split; [lia | exact Hw1].
Qed.

Lemma getSyncStats_consistent_witness :
  let P := Demo.platform (Demo.issues (js "99")) (Demo.reports (js "delivered")) in
  let orders := [Demo.order 1 None;
                 Demo.order 2 (Some (sync_note (js "12345") Demo.stamp));
                 Demo.order 3 (Some Demo.lettered_note)] in
  exists stats w',
    getSyncStats P (Demo.world orders) = (Returned stats, w') /\
    stats_total stats = length orders /\
    stats_synced stats + stats_notSynced stats = stats_total stats /\
    stats_pending stats + stats_completed stats <= stats_total stats /\
    stats_synced stats = getSyncStats_synced orders /\
    length (with_token orders) <= stats_synced stats /\
    issued (Demo.world orders) w'
      [ShopifyGetOrders (getAllOrders_params getSyncStats_filters)]
      (snd (shopify_get_orders P (getAllOrders_params getSyncStats_filters)
              (outside (Demo.world orders)))).
Proof.
  apply (getSyncStats_consistent
           (Demo.platform (Demo.issues (js "99")) (Demo.reports (js "delivered")))
           (Demo.world [Demo.order 1 None;
                        Demo.order 2 (Some (sync_note (js "12345") Demo.stamp));
                        Demo.order 3 (Some Demo.lettered_note)])).
  reflexivity.
Defined.

Section StatusLoop.

Context {E : Type} (P : Platform E).

(** One turn of the status loop always completes: the counters stay, or
    exactly one of them grows by one; without a token they stay and
    nothing is sent. *)
Lemma updateConsignmentStatuses_turn_completes (o : Order)
    (counts : nat * nat) (w : World E) :
  exists c' w',
    updateConsignmentStatuses_turn P o counts w = (Returned c', w') /\
    (c' = counts \/ c' = (S (fst counts), snd counts)
     \/ c' = (fst counts, S (snd counts))) /\
    (extractConsignmentId (note o) = None -> c' = counts /\ w' = w).
Proof.
  unfold updateConsignmentStatuses_turn, try_catch, bind.
  destruct (extractConsignmentId (note o)) as [cid|].
  2: { exists counts, w. auto. }
  destruct (negb (truthy (Some cid))).
  { exists counts, w. split; [reflexivity|]. split; [auto | discriminate]. }
  destruct (getConsignmentStatus P cid w) as [[[reply|]|error] w1].
  - destruct (truthy (current_status reply)).
    + destruct (updateOrderFromShipmentStatus P (order_id o) reply w1)
        as [[u|error] w2].
      * eexists _, w2. split; [reflexivity|]. split; [auto | discriminate].
      * destruct (logger_error_issued P (js "Error updating status") w2)
          as (w3 & -> & _).
        eexists _, w3. split; [reflexivity|]. split; [auto | discriminate].
    + eexists _, w1. split; [reflexivity|]. split; [auto | discriminate].
  - eexists _, w1. split; [reflexivity|]. split; [auto | discriminate].
  - destruct (logger_error_issued P (js "Error updating status") w1)
      as (w2 & -> & _).
    eexists _, w2. split; [reflexivity|]. split; [auto | discriminate].
Qed.

Lemma updateConsignmentStatuses_loop_completes (orders : list Order) :
  forall (counts : nat * nat) (w : World E),
  exists c' w',
    updateConsignmentStatuses_loop P orders counts w = (Returned c', w') /\
    fst counts <= fst c' /\ snd counts <= snd c' /\
    fst c' + snd c' <= fst counts + snd counts + length (with_token orders).
Proof.
  induction orders as [|o orders IH]; intros counts w.
  - exists counts, w. simpl. split; [reflexivity | lia].
  - cbn [updateConsignmentStatuses_loop]. unfold bind.
    destruct (updateConsignmentStatuses_turn_completes o counts w)
      as (c1 & w1 & -> & Hc1 & Hnone).
    destruct (IH c1 w1) as (c' & w' & -> & H1 & H2 & H3).
    exists c', w'. split; [reflexivity|].
    unfold with_token in *. cbn [List.filter].
    destruct (extractConsignmentId (note o)) as [cid|].
    + cbn [length]. destruct Hc1 as [Hc | [Hc | Hc]]; subst c1; simpl in *; lia.
    + destruct (Hnone eq_refl) as [-> _]. lia.
Qed.

End StatusLoop.

(** Batch isolation of the reconciliation: once the page of orders is
    fetched, [updateConsignmentStatuses] returns and does not throw,
    whatever the carrier and the order source answer for the single
    orders; every order with a token is counted at most once, as updated
    or as failed, and orders without a token are not counted. *)
Theorem updateConsignmentStatuses_batch_isolation {E} (P : Platform E)
    (w : World E) (orders : list Order) :
  fst (shopify_get_orders P
         (getAllOrders_params updateConsignmentStatuses_filters) (outside w))
    = Resolved orders ->
  exists result w',
    updateConsignmentStatuses P w = (Returned result, w') /\
    updated result + failed_updates result <= length (with_token orders) /\
    length (with_token orders) <= length orders.
Proof.
  intros Hfetch. unfold updateConsignmentStatuses, try_catch, bind.
  destruct (logger_info_issued P (js "Starting consignment status update...") w)
    as (w0 & -> & Hw0).
  destruct (getAllOrders_issued P updateConsignmentStatuses_filters w0)
    as (w1 & -> & _).
  assert (He : outside w0 = outside w) by (destruct Hw0 as (_ & H & _); exact H).
  rewrite He, Hfetch.
  destruct (updateConsignmentStatuses_loop_completes P orders (0, 0) w1)
    as (c' & w2 & -> & _ & _ & Hsum).
  destruct (logger_info_issued P (js "Status update completed") w2)
    as (w3 & -> & _).
  eexists _, w3. split; [reflexivity|]. simpl in *.
  split; [lia | apply with_token_length].
Qed.

Lemma updateConsignmentStatuses_batch_isolation_witness :
  let P := Demo.platform (Demo.issues (js "99")) (Demo.reports (js "delivered")) in
  let orders := [Demo.order 1 None;
                 Demo.order 2 (Some (sync_note (js "12345") Demo.stamp));
                 Demo.order 3 (Some Demo.lettered_note)] in
  exists result w',
    updateConsignmentStatuses P (Demo.world orders) = (Returned result, w') /\
    updated result + failed_updates result <= length (with_token orders) /\
    length (with_token orders) <= length orders.
Proof.
  apply (updateConsignmentStatuses_batch_isolation
           (Demo.platform (Demo.issues (js "99")) (Demo.reports (js "delivered")))
           (Demo.world [Demo.order 1 None;
                        Demo.order 2 (Some (sync_note (js "12345") Demo.stamp));
                        Demo.order 3 (Some Demo.lettered_note)])).
  reflexivity.
Defined.

(** An order whose note yields no identifier is passed over by the
    reconciliation: nothing is sent for it and neither counter moves. *)
Theorem updateConsignmentStatuses_skips_unsynced {E} (P : Platform E)
    (o : Order) (counts : nat * nat) (w : World E) :
  extractConsignmentId (note o) = None ->
  updateConsignmentStatuses_turn P o counts w = (Returned counts, w).
Proof.
  intros Hnone.
  destruct (updateConsignmentStatuses_turn_completes P o counts w)
    as (c' & w' & -> & _ & H).
  destruct (H Hnone) as [-> ->]. reflexivity.
Qed.

Lemma updateConsignmentStatuses_skips_unsynced_witness :
  let P := Demo.platform (Demo.issues (js "99")) (Demo.reports (js "delivered")) in
  let o := Demo.order 1001 (Some Demo.merchant_note) in
  updateConsignmentStatuses_turn P o (0, 0) (Demo.world [o])
  = (Returned (0, 0), Demo.world [o]).
Proof.
  apply (updateConsignmentStatuses_skips_unsynced
           (Demo.platform (Demo.issues (js "99")) (Demo.reports (js "delivered")))
           (Demo.order 1001 (Some Demo.merchant_note)) (0, 0)).
  reflexivity.
Defined.

(* ===================================================================== *)
(** ** Tags: [split(", ")] and [join(", ")] *)
(* ===================================================================== *)

(** One step of [split(", ")]. *)
Lemma split_comma_space_cons (c : N) (s current : jsstring) :
  split_comma_space (c :: s) current
  = match s with
    | d :: s' =>
        if ((c =? 44) && (d =? 32))%N
        then rev current :: split_comma_space s' []
        else split_comma_space s (c :: current)
    | [] => split_comma_space [] (c :: current)
    end.
Proof.
  destruct (N.eqb_spec c 44) as [->|Hc].
  - destruct s as [|d s']; [reflexivity|].
    destruct (N.eqb_spec d 32) as [->|Hd]; [reflexivity|].
    cbn [andb].
    destruct d as [|p]; [reflexivity|].
    do 6 (destruct p as [p|p|]; try reflexivity).
    exfalso. apply Hd. reflexivity.
  - assert (H : split_comma_space (c :: s) current
                = split_comma_space s (c :: current)).
    { destruct c as [|p]; [reflexivity|].
      do 6 (destruct p as [p|p|]; try reflexivity).
      exfalso. apply Hc. reflexivity. }
    rewrite H. destruct s; reflexivity.
Qed.

Lemma join_comma_space_cons (p : jsstring) (parts : list jsstring) :
  parts <> [] ->
  join_comma_space (p :: parts) = p ++ js ", " ++ join_comma_space parts.
Proof. destruct parts; [contradiction | reflexivity]. Qed.

Lemma split_comma_space_nonempty (s : jsstring) :
  forall current, split_comma_space s current <> [].
Proof.
  induction s as [|c s IH]; intros current; [discriminate|].
  rewrite split_comma_space_cons.
  destruct s as [|d s']; [discriminate|].
  destruct ((c =? 44) && (d =? 32))%N; [discriminate | apply IH].
Qed.

(** [tags.split(", ").join(", ")] gives [tags] back. *)
Lemma join_split_comma_space (n : nat) :
  forall s current : jsstring,
  length s <= n ->
  join_comma_space (split_comma_space s current) = rev current ++ s.
Proof.
  induction n as [|n IH]; intros s current Hlen.
  - destruct s; [|simpl in Hlen; lia]. simpl. rewrite app_nil_r. reflexivity.
  - destruct s as [|c s].
    + simpl. rewrite app_nil_r. reflexivity.
    + rewrite split_comma_space_cons. simpl in Hlen.
      destruct s as [|d s'].
      * simpl. reflexivity.
      * destruct ((c =? 44) && (d =? 32))%N eqn:Hsep.
        -- apply andb_true_iff in Hsep as [Hc Hd].
           apply N.eqb_eq in Hc, Hd. subst c d.
           rewrite join_comma_space_cons by apply split_comma_space_nonempty.
           rewrite IH by (simpl in Hlen; lia). reflexivity.
        -- rewrite IH by lia. simpl. rewrite <- app_assoc. reflexivity.
Qed.

Lemma join_comma_space_snoc (parts : list jsstring) (tag : jsstring) :
  parts <> [] ->
  join_comma_space (parts ++ [tag])
  = join_comma_space parts ++ js ", " ++ tag.
Proof.
  induction parts as [|p parts IH]; [contradiction|]. intros _.
  destruct parts as [|p' parts].
  - reflexivity.
  - change ((p :: p' :: parts) ++ [tag]) with (p :: (p' :: parts) ++ [tag]).
    rewrite join_comma_space_cons by (simpl; discriminate).
    rewrite IH by discriminate.
    rewrite (join_comma_space_cons p (p' :: parts)) by discriminate.
    rewrite <- !app_assoc. reflexivity.
Qed.

(* ===================================================================== *)
(** ** [addOrderTag]: the tags it writes *)
(* ===================================================================== *)

(** [addOrderTag] never drops a tag: once the order is read, the tags
    text it writes is the order's own tags text when the tag is already
    one of its [", "]-separated parts, that text followed by [", "] and
    the tag when it is not, and the tag alone when the order has no
    tags. *)
Theorem addOrderTag_keeps_tags {E} (P : Platform E) (id : Z)
    (tag : jsstring) (w : World E) (o' : Order) :
  fst (shopify_get_order P id (outside w)) = Resolved o' ->
  exists out w' text e',
    addOrderTag P id tag w = (out, w') /\
    issued w w' [ShopifyGetOrder id; ShopifyPutOrder id (PatchTags text)] e' /\
    (truthy (tags o') = false -> text = tag) /\
    (forall old, tags o' = Some old -> old <> [] ->
                 In tag (split_comma_space old []) -> text = old) /\
    (forall old, tags o' = Some old -> old <> [] ->
                 ~ In tag (split_comma_space old []) ->
                 text = old ++ js ", " ++ tag).
Proof.
  intros Hget. unfold addOrderTag.
  destruct (getOrder_issued P id w) as (w1 & Hrun & Hw1).
  rewrite Hget in Hrun.
  set (tags0 := if truthy (tags o')
                then split_comma_space (default [] (tags o')) []
                else []).
  set (text := join_comma_space
                 (if bool_decide (tag ∈ tags0) then tags0 else tags0 ++ [tag])).
  destruct (http_issued (ShopifyPutOrder id (PatchTags text))
              (shopify_put_order P id (PatchTags text)) w1)
    as (w2 & Hput & Hw2).
  pose proof (issued_trans _ _ _ _ _ _ _ Hw1 Hw2) as Hw12. simpl in Hw12.
  match goal with
  | |- context [try_catch ?m ?h _] =>
      eassert (Hbody : m w = (_, w2))
        by (unfold bind; rewrite Hrun; cbv zeta; fold tags0; fold text;
            exact Hput);
      destruct (rethrow_issued P m (js "Failed to add order tag") w _ _ _ _
                  Hbody Hw12) as (w' & Hrun' & Hw')
  end.
  eexists _, w', text, _. split; [exact Hrun'|]. split; [exact Hw'|].
  split; [|split].
  - intros Hfalsy. unfold text, tags0. rewrite Hfalsy.
    rewrite bool_decide_eq_false_2 by (apply not_elem_of_nil). reflexivity.
  - intros old Hold Hne Hin. unfold text, tags0. rewrite Hold.
    destruct old as [|c old]; [contradiction|]. cbn [truthy default]. unfold Datatypes.id.
    rewrite bool_decide_eq_true_2 by (apply list_elem_of_In; exact Hin).
    rewrite (join_split_comma_space (length (c :: old)) (c :: old) []) by apply le_n. reflexivity.
  - intros old Hold Hne Hin. unfold text, tags0. rewrite Hold.
    destruct old as [|c old]; [contradiction|]. cbn [truthy default]. unfold Datatypes.id.
    rewrite bool_decide_eq_false_2
      by (intros H; apply Hin; apply list_elem_of_In; exact H).
    rewrite join_comma_space_snoc by apply split_comma_space_nonempty.
    rewrite (join_split_comma_space (length (c :: old)) (c :: old) []) by apply le_n. reflexivity.
Qed.

Lemma addOrderTag_keeps_tags_witness :
  let P := Demo.platform (Demo.issues (js "99")) (Demo.reports (js "delivered")) in
  let o := {| order_id := 7; order_number := Some 7%Z; note := None;
              tags := Some (js "vip, gift"); financial_status := None;
              fulfillment_status := None; line_items := Some [] |} in
  exists out w' text e',
    addOrderTag P 7 (js "shipsy-synced") (Demo.world [o]) = (out, w') /\
    issued (Demo.world [o]) w'
      [ShopifyGetOrder 7; ShopifyPutOrder 7 (PatchTags text)] e' /\
    (truthy (tags o) = false -> text = js "shipsy-synced") /\
    (forall old, tags o = Some old -> old <> [] ->
                 In (js "shipsy-synced") (split_comma_space old []) ->
                 text = old) /\
    (forall old, tags o = Some old -> old <> [] ->
                 ~ In (js "shipsy-synced") (split_comma_space old []) ->
                 text = old ++ js ", " ++ js "shipsy-synced").
Proof.
  apply (addOrderTag_keeps_tags
           (Demo.platform (Demo.issues (js "99")) (Demo.reports (js "delivered")))
           7 (js "shipsy-synced")
           (Demo.world
              [{| order_id := 7; order_number := Some 7%Z; note := None;
                  tags := Some (js "vip, gift"); financial_status := None;
                  fulfillment_status := None; line_items := Some [] |}])).
  reflexivity.
Defined.

(** The tags of the demo order after the tag is added: nothing is lost. *)
Example addOrderTag_appends :
  let P := Demo.platform (Demo.issues (js "99")) (Demo.reports (js "delivered")) in
  let o := {| order_id := 7; order_number := Some 7%Z; note := None;
              tags := Some (js "vip, gift"); financial_status := None;
              fulfillment_status := None; line_items := Some [] |} in
  option_map tags
    (Demo.find_order 7
       (outside (snd (addOrderTag P 7 (js "shipsy-synced") (Demo.world [o])))))
  = Some (Some (js "vip, gift, shipsy-synced")).
Proof. vm_compute. reflexivity. Qed.

(* ===================================================================== *)
(** ** [syncOrder]: how it fails, and what a second call does *)
(* ===================================================================== *)

Lemma sync_note_marked (cid ts : jsstring) :
  note_has_marker (Some (sync_note cid ts)) = true.
Proof.
  change (sync_note cid ts)
    with ([] ++ SHIPSY_ID_LIT ++ (js " " ++ cid ++ [LF] ++ js "Created: " ++ ts)).
  apply note_has_marker_contains.
Qed.

(** When the carrier does not issue a consignment (it rejects the
    request, or answers without an identifier), [syncOrder] throws after
    that one request: nothing is written to the order. *)
Theorem syncOrder_carrier_failure {E} (P : Platform E) (o : Order)
    (w : World E) (payload : Consignment) :
  note_has_marker (note o) = false ->
  transformOrderToConsignment o = Returned payload ->
  (forall data,
      fst (carrier_post_softdata P payload (outside w)) = Resolved (Some data) ->
      truthy (consignment_id data) = false) ->
  exists error w',
    syncOrder P o w = (Thrown error, w') /\
    issued w w' [CarrierPostSoftdata payload]
      (snd (carrier_post_softdata P payload (outside w))).
Proof.
  intros Hguard Ht Hanswer. unfold syncOrder. rewrite Hguard.
  destruct (createConsignment_posts P o w payload Ht) as (w1 & Hcreate & Hw1).
  assert (Hthrown : exists error, createConsignment P o w = (Thrown error, w1)).
  { destruct (fst (carrier_post_softdata P payload (outside w)))
      as [[data|]|message].
    - rewrite (Hanswer data eq_refl) in Hcreate. eauto.
    - eauto.
    - eauto. }
  destruct Hthrown as (error & Hcreate').
  match goal with
  | |- context [try_catch ?m ?h _] =>
      assert (Hbody : m w = (Thrown error, w1))
        by (unfold bind; rewrite Hcreate'; reflexivity);
      destruct (rethrow_issued P m (js "Failed to sync order") w _ _ _ _
                  Hbody Hw1) as (w' & Hrun & Hw')
  end.
  exists error, w'. auto.
Qed.

Lemma syncOrder_carrier_failure_witness :
  let P := Demo.platform Demo.omits_id (Demo.reports (js "delivered")) in
  let o := Demo.order 1001 None in
  let payload := {| customer_reference_number := 1001;
                    items := [(js "Shirt", 1%Z)] |} in
  exists error w',
    syncOrder P o (Demo.world [o]) = (Thrown error, w') /\
    issued (Demo.world [o]) w' [CarrierPostSoftdata payload]
      (snd (carrier_post_softdata P payload (outside (Demo.world [o])))).
Proof.
  apply (syncOrder_carrier_failure
           (Demo.platform Demo.omits_id (Demo.reports (js "delivered")))
           (Demo.order 1001 None) (Demo.world [Demo.order 1001 None])
           {| customer_reference_number := 1001;
              items := [(js "Shirt", 1%Z)] |}).
  - reflexivity.
  - reflexivity.
  - intros data Hdata. injection Hdata as <-. reflexivity.
Defined.

(** When the carrier issued a consignment and the order source then
    rejects the note, [syncOrder] throws the rejection: the consignment
    exists at the carrier, and the order has received neither the note
    nor the tag. *)
Theorem syncOrder_note_write_rejected {E} (P : Platform E) (o : Order)
    (w : World E) (payload : Consignment) (data : SoftdataReply)
    (cid message : jsstring) :
  note_has_marker (note o) = false ->
  transformOrderToConsignment o = Returned payload ->
  fst (carrier_post_softdata P payload (outside w)) = Resolved (Some data) ->
  consignment_id data = Some cid -> cid <> [] ->
  let e1 := snd (carrier_post_softdata P payload (outside w)) in
  let text := sync_note cid (toISOString_now P e1) in
  fst (shopify_put_order P (order_id o) (PatchNote text) e1)
    = Rejected message ->
  exists w',
    syncOrder P o w = (Thrown message, w') /\
    issued w w'
      [CarrierPostSoftdata payload;
       ShopifyPutOrder (order_id o) (PatchNote text)]
      (snd (shopify_put_order P (order_id o) (PatchNote text) e1)).
Proof.
  intros Hguard Ht Hanswer Hid Hcid e1 text Hput.
  unfold syncOrder. rewrite Hguard.
  destruct (createConsignment_posts P o w payload Ht) as (w1 & Hcreate & Hw1).
  rewrite Hanswer, Hid in Hcreate.
  destruct cid as [|ch cid]; [contradiction|]. simpl in Hcreate.
  assert (He1 : outside w1 = e1) by (destruct Hw1 as (_ & H & _); exact H).
  destruct (updateOrderNote_issued P (order_id o) text w1)
    as (w2 & Hnote & Hw2).
  rewrite He1 in Hnote, Hw2. rewrite Hput in Hnote.
  pose proof (issued_trans _ _ _ _ _ _ _ Hw1 Hw2) as Hw12. simpl in Hw12.
  match goal with
  | |- context [try_catch ?m ?h _] =>
      assert (Hbody : m w = (Thrown message, w2))
        by (unfold bind, now; rewrite Hcreate; simpl;
            rewrite He1; fold text; rewrite Hnote; reflexivity);
      destruct (rethrow_issued P m (js "Failed to sync order") w _ _ _ _
                  Hbody Hw12) as (w' & Hrun & Hw')
  end.
  exists w'. auto.
Qed.

Lemma syncOrder_note_write_rejected_witness :
  let P := Demo.platform (Demo.issues (js "12345"))
             (Demo.reports (js "delivered")) in
  let o := Demo.order 1001 None in
  let payload := {| customer_reference_number := 1001;
                    items := [(js "Shirt", 1%Z)] |} in
  let text := sync_note (js "12345") Demo.stamp in
  exists w',
    syncOrder P o (Demo.world [])
    = (Thrown (js "Request failed with status code 404"), w') /\
    issued (Demo.world []) w'
      [CarrierPostSoftdata payload; ShopifyPutOrder 1001 (PatchNote text)]
      [].
Proof.
  apply (syncOrder_note_write_rejected
           (Demo.platform (Demo.issues (js "12345"))
              (Demo.reports (js "delivered")))
           (Demo.order 1001 None) (Demo.world [])
           {| customer_reference_number := 1001;
              items := [(js "Shirt", 1%Z)] |}
           {| consignment_id := Some (js "12345") |}
           (js "12345") (js "Request failed with status code 404"));
    try reflexivity.
  discriminate.
Defined.

(** The note a successful [syncOrder] writes stops every later
    [syncOrder]: on an order that carries this note, the call returns
    [already_synced] and sends nothing. *)
Theorem syncOrder_resync_is_idle {E} (P : Platform E) (o : Order)
    (w w' : World E) (r : SyncOrderResult) :
  syncOrder P o w = (Returned (Some r), w') -> success r = true ->
  exists text,
    In (ShopifyPutOrder (order_id o) (PatchNote text)) (requests w') /\
    forall (o2 : Order) (w2 : World E),
      note o2 = Some text ->
      exists w3,
        syncOrder P o2 w2 = (Returned (Some already_synced), w3) /\
        issued w2 w3 [] (outside w2).
Proof.
  intros Hrun Hok.
  destruct (syncOrder_success_requests P o w w' r Hrun Hok)
    as (payload & cid & text & _ & _ & _ & Hreq).
  eexists. split.
  - rewrite Hreq. apply in_or_app. right. right. left. reflexivity.
  - intros o2 w2 Hnote. apply syncOrder_marked.
    rewrite Hnote. apply sync_note_marked.
Qed.

Lemma syncOrder_resync_is_idle_witness :
  let P := Demo.platform (Demo.issues (js "12345"))
             (Demo.reports (js "delivered")) in
  let o := Demo.order 1001 None in
  exists text,
    In (ShopifyPutOrder (order_id o) (PatchNote text))
       (requests (snd (syncOrder P o (Demo.world [o])))) /\
    forall (o2 : Order) (w2 : World (list Order)),
      note o2 = Some text ->
      exists w3,
        syncOrder P o2 w2 = (Returned (Some already_synced), w3) /\
        issued w2 w3 [] (outside w2).
Proof.
  apply (syncOrder_resync_is_idle
           (Demo.platform (Demo.issues (js "12345"))
              (Demo.reports (js "delivered")))
           (Demo.order 1001 None) (Demo.world [Demo.order 1001 None])
           (snd (syncOrder
                   (Demo.platform (Demo.issues (js "12345"))
                      (Demo.reports (js "delivered")))
                   (Demo.order 1001 None) (Demo.world [Demo.order 1001 None])))
           {| success := true; reason := None; orderId := Some 1001%Z;
              consignmentId := Some (js "12345") |});
    vm_compute; reflexivity.
Defined.

(** The store after the second of two [syncOrder] calls on the same
    order, the second on the order as the store then holds it: one
    consignment was requested, not two. *)
Example syncOrder_twice :
  let P := Demo.platform (Demo.issues (js "12345"))
             (Demo.reports (js "delivered")) in
  let o := Demo.order 1001 None in
  let w1 := snd (syncOrder P o (Demo.world [o])) in
  match Demo.find_order 1001 (outside w1) with
  | Some o1 =>
      fst (syncOrder P o1 w1) = Returned (Some already_synced) /\
      length (List.filter
                (fun r => match r with CarrierPostSoftdata _ => true | _ => false end)
                (requests (snd (syncOrder P o1 w1)))) = 1
  | None => False
  end.
Proof. vm_compute. split; reflexivity. Qed.

(* ===================================================================== *)
(** ** Reading back the note of [syncOrder] *)
(* ===================================================================== *)

(** A code unit outside the class ends the run, whatever precedes it. *)
Lemma take_while_cut (p : N -> bool) (a b : jsstring) (x : N) :
  p x = false -> take_while p (a ++ x :: b) = take_while p a.
Proof.
  intros Hx. induction a as [|c a IH]; simpl.
  - rewrite Hx. reflexivity.
  - destruct (p c); [rewrite IH|]; reflexivity.
Qed.

Lemma take_while_id (p : N -> bool) (s : jsstring) :
  take_while p s = s <-> forallb p s = true.
Proof.
  split.
  - intros <-. apply take_while_all.
  - induction s as [|c s IH]; simpl; [reflexivity|].
    intros H. apply andb_true_iff in H as [-> Hs]. rewrite (IH Hs). reflexivity.
Qed.

(** What [extractConsignmentId] reads back from the note [syncOrder]
    wrote for an identifier that starts with a digit is the leading
    digits of that identifier; it is the identifier itself exactly when
    the identifier has digits only. *)
Theorem extractConsignmentId_reads_leading_digits (c : N)
    (cid stamp : jsstring) :
  is_digit c = true ->
  extractConsignmentId (Some (sync_note (c :: cid) stamp))
    = Some (c :: take_while is_digit cid) /\
  (extractConsignmentId (Some (sync_note (c :: cid) stamp)) = Some (c :: cid)
   <-> forallb is_digit cid = true).
Proof.
  intros Hc.
  assert (Hread : extractConsignmentId (Some (sync_note (c :: cid) stamp))
                  = Some (c :: take_while is_digit cid)).
  { rewrite extractConsignmentId_first_token. apply first_token_here.
    unfold token_at, sync_note.
    change (strip_lit SHIPSY_ID_LIT
              (js "SHIPSY_ID: " ++ (c :: cid) ++ [LF] ++ js "Created: " ++ stamp))
      with (Some (32%N :: c :: cid ++ LF :: js "Created: " ++ stamp)).
    cbn [drop_while]. change (is_space 32) with true. cbv iota.
    rewrite (digit_not_space c Hc). cbn [take_while]. rewrite Hc.
    rewrite take_while_cut by reflexivity. reflexivity. }
  split; [exact Hread|]. rewrite Hread. rewrite <- take_while_id.
  split; intros H; [injection H as H; exact H | rewrite H; reflexivity].
Qed.

Lemma extractConsignmentId_reads_leading_digits_witness :
  extractConsignmentId (Some (sync_note (js "123-45") Demo.stamp))
    = Some (js "123") /\
  (extractConsignmentId (Some (sync_note (js "123-45") Demo.stamp))
     = Some (js "123-45")
   <-> forallb is_digit (js "23-45") = true).
Proof.
  apply (extractConsignmentId_reads_leading_digits 49%N (js "23-45") Demo.stamp).
  reflexivity.
Defined.

(* ===================================================================== *)
(** ** Reading [logs/sync.log] *)
(* ===================================================================== *)

Lemma In_drop {A} (n : nat) (l : list A) (x : A) :
  In x (drop n l) -> In x l.
Proof.
  revert l; induction n as [|n IH]; intros [|a l]; simpl; auto.
Qed.

Lemma In_slice {A} (start : Z) (l : list A) (x : A) :
  In x (slice start l) -> In x l.
Proof. apply In_drop. Qed.

(** [slice(-n)] for a positive [n] keeps the last [n] elements. *)
Lemma slice_last {A} (n : Z) (l : list A) :
  (0 < n)%Z ->
  length (slice (- n) l) <= Z.to_nat n /\
  exists older, l = older ++ slice (- n) l.
Proof.
  intros Hn. unfold slice.
  replace (- n <? 0)%Z with true by (symmetry; apply Z.ltb_lt; lia).
  split.
  - rewrite length_drop. lia.
  - eexists. symmetry. apply take_drop.
Qed.

Lemma SyncLog_getLogs_no_options (file : list SyncLogEntry) :
  SyncLog_getLogs no_options file = file.
Proof. reflexivity. Qed.

(** Every entry [SyncLog.getLogs] returns is an entry of the file and
    passes each filter that was asked for. *)
Theorem SyncLog_getLogs_sound (options : LogOptions)
    (file : list SyncLogEntry) (log : SyncLogEntry) :
  In log (SyncLog_getLogs options file) ->
  In log file /\
  (forall t, options_type options = Some t -> t <> [] -> entry_type log = t) /\
  (forall id, options_orderId options = Some id -> id <> 0%Z ->
              entry_orderId log = Some id) /\
  (forall s, options_status options = Some s -> s <> [] ->
             entry_status log = Some s).
Proof.
  unfold SyncLog_getLogs. intros Hin.
  assert (Hin' :
    In log
      (let logs := file in
       let logs :=
         if truthy (options_type options)
         then List.filter
                (fun log => bool_decide (Some (entry_type log)
                                         = options_type options)) logs
         else logs in
       let logs :=
         if truthy_number (options_orderId options)
         then List.filter
                (fun log => bool_decide (entry_orderId log
                                         = options_orderId options)) logs
         else logs in
       if truthy (options_status options)
       then List.filter
              (fun log => bool_decide (entry_status log
                                       = options_status options)) logs
       else logs)).
  { cbv zeta in *. destruct (truthy_number (options_limit options));
      [eapply In_slice|]; exact Hin. }
  clear Hin. cbv zeta in Hin'.
  assert (Hstatus :
    (forall s, options_status options = Some s -> s <> [] ->
               entry_status log = Some s) /\
    In log
      (if truthy_number (options_orderId options)
       then List.filter
              (fun log => bool_decide (entry_orderId log
                                       = options_orderId options))
              (if truthy (options_type options)
               then List.filter
                      (fun log => bool_decide (Some (entry_type log)
                                               = options_type options)) file
               else file)
       else (if truthy (options_type options)
             then List.filter
                    (fun log => bool_decide (Some (entry_type log)
                                             = options_type options)) file
             else file))).
  { destruct (options_status options) as [[|c s]|] eqn:Hs; cbn [truthy] in Hin'.
    - split; [|exact Hin']. intros s' Hs' Hne. congruence.
    - apply filter_In in Hin' as [Hin' Heq].
      apply bool_decide_eq_true in Heq. split; [|exact Hin'].
      intros s' Hs' _. congruence.
    - split; [|exact Hin']. intros s' Hs'. discriminate Hs'. }
  destruct Hstatus as [Hstatus Hin]. clear Hin'.
  assert (Hid :
    (forall id, options_orderId options = Some id -> id <> 0%Z ->
                entry_orderId log = Some id) /\
    In log
      (if truthy (options_type options)
       then List.filter
              (fun log => bool_decide (Some (entry_type log)
                                       = options_type options)) file
       else file)).
  { destruct (options_orderId options) as [id|] eqn:Hid;
      cbn [truthy_number] in Hin.
    - destruct (Z.eqb_spec id 0) as [->|Hne]; cbn [negb] in Hin.
      + split; [|exact Hin]. intros id' Hid' Hne. congruence.
      + apply filter_In in Hin as [Hin Heq].
        apply bool_decide_eq_true in Heq. split; [|exact Hin].
        intros id' Hid' _. congruence.
    - split; [|exact Hin]. intros id' Hid'. discriminate Hid'. }
  destruct Hid as [Hid Hin'']. clear Hin.
  assert (Htype :
    (forall t, options_type options = Some t -> t <> [] ->
               entry_type log = t) /\ In log file).
  { destruct (options_type options) as [[|c t]|] eqn:Ht; cbn [truthy] in Hin''.
    - split; [|exact Hin'']. intros t' Ht' Hne. congruence.
    - apply filter_In in Hin'' as [Hin'' Heq].
      apply bool_decide_eq_true in Heq. split; [|exact Hin''].
      intros t' Ht' _. congruence.
    - split; [|exact Hin'']. intros t' Ht'. discriminate Ht'. }
  destruct Htype as [Htype Hfile]. auto.
Qed.

(** With a positive [limit], [SyncLog.getLogs] returns at most that many
    entries, and they are the last ones of what it returns without the
    limit. *)
Theorem SyncLog_getLogs_limit (options : LogOptions)
    (file : list SyncLogEntry) (n : Z) :
  options_limit options = Some n -> (0 < n)%Z ->
  length (SyncLog_getLogs options file) <= Z.to_nat n /\
  exists older,
    SyncLog_getLogs
      {| options_type := options_type options;
         options_orderId := options_orderId options;
         options_status := options_status options;
         options_limit := None |} file
    = older ++ SyncLog_getLogs options file.
Proof.
  intros Hlimit Hn. unfold SyncLog_getLogs. cbv zeta. cbn [options_type
    options_orderId options_status options_limit truthy_number].
  rewrite Hlimit. cbn [truthy_number default from_option].
  replace (n =? 0)%Z with false by (symmetry; apply Z.eqb_neq; lia).
  cbn [negb]. apply slice_last. exact Hn.
Qed.

Lemma SyncLog_getLogs_sound_witness :
  let entry (status : jsstring) (id : Z) :=
    {| entry_timestamp := Demo.stamp; entry_type := js "sync";
       entry_status := Some status; entry_orderId := Some id;
       entry_consignmentId := None; entry_synced := 1; entry_failed := 0;
       entry_total := 1; entry_message := []; entry_error := None;
       entry_duration := 0 |} in
  let options :=
    {| options_type := None; options_orderId := None;
       options_status := Some (js "failed"); options_limit := Some 10%Z |} in
  let file := [entry (js "success") 1%Z; entry (js "failed") 2%Z] in
  let log := entry (js "failed") 2%Z in
  In log file /\
  (forall t, options_type options = Some t -> t <> [] -> entry_type log = t) /\
  (forall id, options_orderId options = Some id -> id <> 0%Z ->
              entry_orderId log = Some id) /\
  (forall s, options_status options = Some s -> s <> [] ->
             entry_status log = Some s).
Proof.
  intros entry options file log.
  apply (SyncLog_getLogs_sound options file log).
  vm_compute. left. reflexivity.
Defined.

Lemma SyncLog_getLogs_limit_witness :
  let entry (status : jsstring) (id : Z) :=
    {| entry_timestamp := Demo.stamp; entry_type := js "sync";
       entry_status := Some status; entry_orderId := Some id;
       entry_consignmentId := None; entry_synced := 1; entry_failed := 0;
       entry_total := 1; entry_message := []; entry_error := None;
       entry_duration := 0 |} in
  let options :=
    {| options_type := Some (js "sync"); options_orderId := None;
       options_status := None; options_limit := Some 1%Z |} in
  let file := [entry (js "success") 1%Z; entry (js "failed") 2%Z] in
  length (SyncLog_getLogs options file) <= Z.to_nat 1 /\
  exists older,
    SyncLog_getLogs
      {| options_type := options_type options;
         options_orderId := options_orderId options;
         options_status := options_status options;
         options_limit := None |} file
    = older ++ SyncLog_getLogs options file.
Proof.
  intros entry options file.
  apply (SyncLog_getLogs_limit options file 1%Z); [reflexivity | lia].
Defined.

Lemma getStats_tally_fold (logs : list SyncLogEntry) (totals : nat * nat)
    (log : SyncLogEntry) :
  fold_left getStats_tally (logs ++ [log]) totals
  = getStats_tally (fold_left getStats_tally logs totals) log.
Proof. rewrite fold_left_app. reflexivity. Qed.

Lemma count_status_snoc (s : jsstring) (logs : list SyncLogEntry)
    (log : SyncLogEntry) :
  count_status s (logs ++ [log])
  = count_status s logs
    + (if bool_decide (entry_status log = Some s) then 1 else 0).
Proof.
  unfold count_status. rewrite List.filter_app, length_app. simpl.
  destruct (bool_decide (entry_status log = Some s)); reflexivity.
Qed.

(** What [SyncLog.logSync] writes, [SyncLog.getStats] counts: after the
    call there is one entry more, the totals have grown by the [synced]
    and [failed] of the data (zero when they are not given), the count
    of its status has grown by one, and the last synchronisation is the
    instant of the call. *)
Theorem SyncLog_getStats_after_logSync {E} (P : Platform E) (d : SyncData)
    (w : World E) :
  let before := SyncLog_getStats (sync_log w) in
  let after := SyncLog_getStats (sync_log (snd (logSync P d w))) in
  logs_total after = S (logs_total before) /\
  logs_totalSynced after
    = logs_totalSynced before + default 0 (data_synced d) /\
  logs_totalFailed after
    = logs_totalFailed before + default 0 (data_failed d) /\
  logs_successful after
    = logs_successful before
      + (if bool_decide (data_status d = Some (js "success")) then 1 else 0) /\
  logs_failed after
    = logs_failed before
      + (if bool_decide (data_status d = Some (js "failed")) then 1 else 0) /\
  logs_partial after
    = logs_partial before
      + (if bool_decide (data_status d = Some (js "partial")) then 1 else 0) /\
  logs_lastSync after = Some (toISOString_now P (outside w)).
Proof.
  destruct (logSync_appends P d w) as (entry & Hentry & Hlog).
  cbv zeta. rewrite Hlog. unfold SyncLog_getStats.
  rewrite !SyncLog_getLogs_no_options.
  cbn [logs_total logs_successful logs_failed logs_partial logs_totalSynced
       logs_totalFailed logs_lastSync].
  rewrite getStats_tally_fold, !count_status_snoc, length_app, rev_app_distr.
  unfold logSync in Hentry. simpl in Hentry. injection Hentry as <-.
  unfold getStats_tally. cbn [entry_type entry_synced entry_failed
    entry_status entry_timestamp].
  rewrite bool_decide_eq_true_2 by reflexivity. simpl.
  repeat split; lia.
Qed.

(** The counts of [SyncLog.getStats] by status never exceed the number
    of entries, and there is a last synchronisation exactly when there
    is an entry. *)
Theorem SyncLog_getStats_bounds (file : list SyncLogEntry) :
  let stats := SyncLog_getStats file in
  logs_total stats = length file /\
  logs_successful stats + logs_failed stats + logs_partial stats
    <= logs_total stats /\
  (logs_lastSync stats = None <-> logs_total stats = 0).
Proof.
  cbv zeta. unfold SyncLog_getStats. rewrite SyncLog_getLogs_no_options.
  cbn [logs_total logs_successful logs_failed logs_partial logs_lastSync].
  split; [reflexivity|]. split.
  - unfold count_status. induction file as [|log file IH]; simpl; [lia|].
    destruct (entry_status log) as [s|].
    + destruct (bool_decide (Some s = Some (js "success"))) eqn:H1;
      destruct (bool_decide (Some s = Some (js "failed"))) eqn:H2;
      destruct (bool_decide (Some s = Some (js "partial"))) eqn:H3;
      try apply bool_decide_eq_true in H1;
      try apply bool_decide_eq_true in H2;
      try apply bool_decide_eq_true in H3;
      try (rewrite H1 in H2; discriminate H2);
      try (rewrite H1 in H3; discriminate H3);
      try (rewrite H2 in H3; discriminate H3);
      simpl; lia.
    + rewrite !bool_decide_eq_false_2 by discriminate. simpl. lia.
  - destruct file as [|log file] using rev_ind.
    + simpl. split; reflexivity.
    + rewrite rev_app_distr, length_app. simpl. split; [discriminate | lia].
Qed.

(* ===================================================================== *)
(** ** Helpers: telephone numbers *)
(* ===================================================================== *)

Lemma digits_only_all (phone : jsstring) :
  forallb is_digit (digits_only phone) = true.
Proof.
  unfold digits_only. induction phone as [|c s IH]; simpl; [reflexivity|].
  destruct (is_digit c) eqn:Hc; simpl; [rewrite Hc|]; exact IH.
Qed.

Lemma digits_only_fixed (s : jsstring) :
  forallb is_digit s = true -> digits_only s = s.
Proof.
  unfold digits_only. induction s as [|c s IH]; simpl; [reflexivity|].
  intros H. apply andb_true_iff in H as [-> Hs]. rewrite (IH Hs). reflexivity.
Qed.

Lemma digits_only_idempotent (phone : jsstring) :
  digits_only (digits_only phone) = digits_only phone.
Proof. apply digits_only_fixed, digits_only_all. Qed.

Lemma strip_lit_unit (a : N) (s : jsstring) :
  strip_lit [a] s = match s with
                    | c :: s' => if (c =? a)%N then Some s' else None
                    | [] => None
                    end.
Proof. destruct s; reflexivity. Qed.

(** The three results of [formatPhoneNumber], by the digits of the
    argument. *)
Lemma formatPhoneNumber_cases (phone : jsstring) :
  (startsWith (digits_only phone) (js "966") = true /\
   formatPhoneNumber phone = js "+" ++ digits_only phone) \/
  (exists rest, digits_only phone = 48%N :: rest /\
                formatPhoneNumber phone = js "+966" ++ rest) \/
  (startsWith (digits_only phone) (js "966") = false /\
   startsWith (digits_only phone) (js "0") = false /\
   formatPhoneNumber phone = js "+" ++ digits_only phone).
Proof.
  unfold formatPhoneNumber. cbv zeta.
  destruct (startsWith (digits_only phone) (js "966")) eqn:H966; [auto|].
  destruct (startsWith (digits_only phone) (js "0")) eqn:H0; [|auto].
  right. left. destruct (digits_only phone) as [|c rest]; [discriminate H0|].
  unfold startsWith in H0. change (js "0") with [48%N] in H0.
  rewrite strip_lit_unit in H0.
  destruct (N.eqb_spec c 48) as [->|]; [|discriminate H0].
  exists rest. auto.
Qed.

(** [formatPhoneNumber] gives [+] followed by digits only, and applying
    it to its own result changes nothing. *)
Theorem formatPhoneNumber_idempotent (phone : jsstring) :
  (exists digits,
      formatPhoneNumber phone = js "+" ++ digits /\
      forallb is_digit digits = true) /\
  formatPhoneNumber (formatPhoneNumber phone) = formatPhoneNumber phone.
Proof.
  pose proof (digits_only_all phone) as Hall.
  destruct (formatPhoneNumber_cases phone)
    as [(H966 & ->)|[(rest & Hd & ->)|(H966 & H0 & ->)]].
  - split; [eauto|]. unfold formatPhoneNumber. cbv zeta.
    change (digits_only (js "+" ++ digits_only phone))
      with (digits_only (digits_only phone)).
    rewrite digits_only_idempotent, H966. reflexivity.
  - rewrite Hd in Hall. simpl in Hall.
    split; [exists (js "966" ++ rest); split; [reflexivity | exact Hall]|].
    unfold formatPhoneNumber. cbv zeta.
    change (digits_only (js "+966" ++ rest))
      with (js "966" ++ digits_only rest).
    rewrite (digits_only_fixed rest) by exact Hall. reflexivity.
  - split; [eauto|]. unfold formatPhoneNumber. cbv zeta.
    change (digits_only (js "+" ++ digits_only phone))
      with (digits_only (digits_only phone)).
    rewrite digits_only_idempotent, H966, H0. reflexivity.
Qed.

(** A number that [isValidPhoneNumber] accepts is still accepted after
    [formatPhoneNumber]. *)
Theorem formatPhoneNumber_keeps_valid (phone : jsstring) :
  isValidPhoneNumber phone = true ->
  isValidPhoneNumber (formatPhoneNumber phone) = true.
Proof.
  unfold isValidPhoneNumber. intros H. apply Nat.leb_le in H.
  apply Nat.leb_le.
  pose proof (digits_only_all phone) as Hall.
  destruct (formatPhoneNumber_cases phone)
    as [(_ & ->)|[(rest & Hd & ->)|(_ & _ & ->)]].
  - change (digits_only (js "+" ++ digits_only phone))
      with (digits_only (digits_only phone)).
    rewrite digits_only_idempotent. exact H.
  - rewrite Hd in Hall, H. simpl in Hall.
    change (digits_only (js "+966" ++ rest))
      with (js "966" ++ digits_only rest).
    rewrite (digits_only_fixed rest) by exact Hall.
    simpl in *. lia.
  - change (digits_only (js "+" ++ digits_only phone))
      with (digits_only (digits_only phone)).
    rewrite digits_only_idempotent. exact H.
Qed.

Lemma formatPhoneNumber_keeps_valid_witness :
  isValidPhoneNumber (formatPhoneNumber (js "055 123 4567")) = true.
Proof.
  apply (formatPhoneNumber_keeps_valid (js "055 123 4567")). reflexivity.
Defined.

(** The local form of a number (a leading [0]) and its international
    form (a leading [966]) are formatted to the same text. *)
Theorem formatPhoneNumber_local_is_international (rest : jsstring) :
  formatPhoneNumber (js "0" ++ rest) = formatPhoneNumber (js "966" ++ rest) /\
  formatPhoneNumber (js "0" ++ rest) = js "+966" ++ digits_only rest.
Proof. split; reflexivity. Qed.

(* ===================================================================== *)
(** ** Helpers: electronic addresses *)
(* ===================================================================== *)

Lemma star_greedy_Some {R} (p : N -> bool) (k : jsstring -> option R)
    (s : jsstring) (r : R) :
  Regex.star_greedy p k s = Some r ->
  exists pre rest, s = pre ++ rest /\ forallb p pre = true /\ k rest = Some r.
Proof.
  induction s as [|c s IH]; simpl.
  - intros H. exists [], []. auto.
  - destruct (p c) eqn:Hc.
    + destruct (Regex.star_greedy p k s) as [r'|] eqn:Hs.
      * intros H. injection H as ->.
        destruct (IH eq_refl) as (pre & rest & -> & Hpre & Hk).
        exists (c :: pre), rest. simpl. rewrite Hc, Hpre. auto.
      * intros H. exists [], (c :: s). auto.
    + intros H. exists [], (c :: s). auto.
Qed.

Lemma star_greedy_complete {R} (p : N -> bool) (k : jsstring -> option R)
    (pre rest : jsstring) :
  forallb p pre = true -> k rest <> None ->
  Regex.star_greedy p k (pre ++ rest) <> None.
Proof.
  intros Hpre Hk. induction pre as [|c pre IH]; simpl.
  - destruct rest as [|c rest]; simpl; [exact Hk|].
    destruct (p c); [|exact Hk].
    destruct (Regex.star_greedy p k rest); [discriminate | exact Hk].
  - simpl in Hpre. apply andb_true_iff in Hpre as [-> Hpre].
    specialize (IH Hpre).
    destruct (Regex.star_greedy p k (pre ++ rest)); [discriminate|].
    contradiction.
Qed.

(** [C+] followed by a continuation, in both directions. *)
Lemma plus_greedy_Some {R} (p : N -> bool) (k : jsstring -> option R)
    (s : jsstring) (r : R) :
  match s with
  | c :: s' => if p c then Regex.star_greedy p k s' else None
  | [] => None
  end = Some r ->
  exists pre rest,
    s = pre ++ rest /\ pre <> [] /\ forallb p pre = true /\ k rest = Some r.
Proof.
  destruct s as [|c s]; [discriminate|].
  destruct (p c) eqn:Hc; [|discriminate].
  intros H. apply star_greedy_Some in H as (pre & rest & -> & Hpre & Hk).
  exists (c :: pre), rest. simpl. rewrite Hc, Hpre.
  repeat split; auto; discriminate.
Qed.

Lemma plus_greedy_complete {R} (p : N -> bool) (k : jsstring -> option R)
    (pre rest : jsstring) :
  pre <> [] -> forallb p pre = true -> k rest <> None ->
  match pre ++ rest with
  | c :: s' => if p c then Regex.star_greedy p k s' else None
  | [] => None
  end <> None.
Proof.
  intros Hne Hpre Hk. destruct pre as [|c pre]; [contradiction|].
  simpl in *. apply andb_true_iff in Hpre as [-> Hpre].
  apply star_greedy_complete; assumption.
Qed.

(** [isValidEmail] accepts exactly the texts made of three non-empty
    stretches without white space and without [@], the first and the
    second separated by [@], the second and the third by a full stop. *)
Theorem isValidEmail_shape (email : jsstring) :
  isValidEmail email = true <->
  exists a b c : jsstring,
    email = a ++ js "@" ++ b ++ js "." ++ c /\
    a <> [] /\ b <> [] /\ c <> [] /\
    forallb is_address_unit a = true /\
    forallb is_address_unit b = true /\
    forallb is_address_unit c = true.
Proof.
  unfold isValidEmail, EMAIL_RE. cbn [Regex.rmatch].
  split.
  - intros H.
    match type of H with
    | match ?m with _ => _ end = true => destruct m as [[]|] eqn:Hm
    end; [|discriminate H]. clear H.
    apply plus_greedy_Some in Hm as (a & rest & -> & Ha & Hpa & Hm).
    change (js "@") with [64%N] in Hm. rewrite strip_lit_unit in Hm.
    destruct rest as [|at_ rest]; [discriminate Hm|].
    destruct (N.eqb_spec at_ 64) as [->|]; [|discriminate Hm].
    apply plus_greedy_Some in Hm as (b & rest' & -> & Hb & Hpb & Hm).
    change (js ".") with [46%N] in Hm. rewrite strip_lit_unit in Hm.
    destruct rest' as [|dot rest']; [discriminate Hm|].
    destruct (N.eqb_spec dot 46) as [->|]; [|discriminate Hm].
    apply plus_greedy_Some in Hm as (c & rest'' & -> & Hc & Hpc & Hm).
    destruct rest''; [|discriminate Hm].
    exists a, b, c. rewrite app_nil_r. repeat split; auto.
  - intros (a & b & c & -> & Ha & Hb & Hc & Hpa & Hpb & Hpc).
    match goal with
    | |- match ?m with _ => _ end = true =>
        assert (Hm : m <> None); [|destruct m as [[]|]; congruence]
    end.
    apply plus_greedy_complete; [exact Ha | exact Hpa |].
    change (js "@" ++ b ++ js "." ++ c) with (64%N :: b ++ js "." ++ c).
    change (js "@") with [64%N]. rewrite strip_lit_unit. rewrite N.eqb_refl.
    apply plus_greedy_complete; [exact Hb | exact Hpb |].
    change (js "." ++ c) with (46%N :: c).
    change (js ".") with [46%N]. rewrite strip_lit_unit. rewrite N.eqb_refl.
    rewrite <- (app_nil_r c).
    apply plus_greedy_complete; [exact Hc | exact Hpc | discriminate].
Qed.

(** Some addresses, accepted and refused. *)
Example isValidEmail_examples :
  isValidEmail (js "a@b.co") = true /\
  isValidEmail (js "a.b@c.d.e") = true /\
  isValidEmail (js "a@b") = false /\
  isValidEmail (js "a@@b.co") = false /\
  isValidEmail (js "a b@c.d") = false /\
  isValidEmail (js "a@b.") = false.
Proof. repeat split; vm_compute; reflexivity. Qed.

(* ===================================================================== *)
(** ** The shipment model and the table of statuses *)
(* ===================================================================== *)

Lemma shipmentStatuses_get_Own (s : jsstring) (m : StatusMapping) :
  shipmentStatuses_get (Some s) = Own m -> shipmentStatuses !! s = Some m.
Proof.
  unfold shipmentStatuses_get, property. cbn [default from_option].
  unfold Datatypes.id.
  destruct (shipmentStatuses !! s) as [m'|].
  - intros H. injection H as ->. reflexivity.
  - destruct (bool_decide (s ∈ Object_prototype_names)); discriminate.
Qed.

(** The two tables of statuses agree: for a status that
    [settings.shipmentStatuses] maps, [Shipment.getStatusDescription]
    gives the name of that entry, and [isDelivered], [isCancelled] and
    [isPending] hold exactly when the entry maps the status to
    [completed], [cancelled] and [pending]. *)
Theorem getStatusDescription_agrees (s : jsstring) (m : StatusMapping) :
  shipmentStatuses_get (Some s) = Own m ->
  getStatusDescription s = Own (name m) /\
  (isDelivered s = true <-> shopifyStatus m = js "completed") /\
  (isCancelled s = true <-> shopifyStatus m = js "cancelled") /\
  (isPending s = true <-> shopifyStatus m = js "pending").
Proof.
  intros H. apply shipmentStatuses_get_Own in H.
  apply elem_of_list_to_map_2 in H.
  repeat (apply elem_of_cons in H as [H|H];
          [injection H as -> ->;
           split; [vm_compute; reflexivity|];
           repeat split; vm_compute; intros H; first [reflexivity | discriminate H]
          |]).
  apply elem_of_nil in H. contradiction.
Qed.

Lemma getStatusDescription_agrees_witness :
  getStatusDescription (js "delivered")
    = Own [1578; 1605; 32; 1575; 1604; 1578; 1587; 1604; 1610; 1605]%N /\
  (isDelivered (js "delivered") = true <-> js "completed" = js "completed") /\
  (isCancelled (js "delivered") = true <-> js "completed" = js "cancelled") /\
  (isPending (js "delivered") = true <-> js "completed" = js "pending").
Proof.
  apply (getStatusDescription_agrees (js "delivered")
           {| name := [1578; 1605; 32; 1575; 1604; 1578; 1587; 1604; 1610;
                       1605]%N;
              shopifyStatus := js "completed"; notify := true |}).
  vm_compute. reflexivity.
Defined.

(** A reply without a status makes a shipment that is pending; that
    status has a description and no entry in [settings.shipmentStatuses]. *)
Example Shipment_default_status :
  let s := Shipment_currentStatus {| current_status := None |} in
  isPending s = true /\
  getStatusDescription s
    = Own [1602; 1610; 1583; 32; 1575; 1604; 1575; 1606; 1578; 1592; 1575;
           1585]%N /\
  shipmentStatuses_get (Some s) = Undefined.
Proof. repeat split; vm_compute; reflexivity. Qed.

(* ===================================================================== *)
(** ** The level of the logger *)
(* ===================================================================== *)

(** The level of the logger is never that of [error]: [levels.error] is
    [0], which [||] replaces by [levels.info].  So [LOG_LEVEL=error]
    logs as [LOG_LEVEL=info] does, and [info] lines are written unless
    [LOG_LEVEL] is [warn] or the name of a member every object
    inherits. *)
Theorem Logger_level_is_never_error (env : option jsstring) :
  Logger_level env <> Some 0%N /\
  Logger_level (Some (js "error")) = Logger_level (Some (js "info")) /\
  (level_reaches (Logger_level env) 2 = true \/
   env = Some (js "warn") \/
   exists key, env = Some key /\ In key Object_prototype_names).
Proof.
  assert (Hkey : forall key n,
             levels !! key = Some n ->
             (key = js "error" /\ n = 0%N) \/ (key = js "warn" /\ n = 1%N) \/
             (key = js "info" /\ n = 2%N) \/ (key = js "debug" /\ n = 3%N)).
  { intros key n H. apply elem_of_list_to_map_2 in H.
    repeat (apply elem_of_cons in H as [H|H]; [injection H as -> ->; tauto|]).
    apply elem_of_nil in H. contradiction. }
  split; [|split; [reflexivity|]].
  - unfold Logger_level, property. cbv zeta.
    destruct (levels !! _) as [n|] eqn:Hn.
    + apply Hkey in Hn as [(_ & ->)|[(_ & ->)|[(_ & ->)|(_ & ->)]]];
        discriminate.
    + destruct (bool_decide _); discriminate.
  - unfold Logger_level. cbv zeta.
    set (LOG_LEVEL := match env with
                      | Some (c :: l) => c :: l
                      | _ => js "info"
                      end).
    assert (Henv : LOG_LEVEL = js "info" \/ env = Some LOG_LEVEL)
      by (unfold LOG_LEVEL; destruct env as [[|c l]|]; auto).
    unfold property.
    destruct (levels !! LOG_LEVEL) as [n|] eqn:Hn.
    + apply Hkey in Hn as [(_ & ->)|[(Hwarn & ->)|[(_ & ->)|(_ & ->)]]];
        try (left; reflexivity).
      right. left. destruct Henv as [Hinfo|Henv].
      * rewrite Hwarn in Hinfo. discriminate Hinfo.
      * rewrite Henv, Hwarn. reflexivity.
    + destruct (bool_decide (LOG_LEVEL ∈ Object_prototype_names)) eqn:Hin;
        [|left; reflexivity].
      right. right. apply bool_decide_eq_true in Hin.
      destruct Henv as [Hinfo|Henv].
      * rewrite Hinfo in Hin. vm_compute in Hin.
        exfalso. revert Hin. apply (bool_decide_eq_false_1
          (js "info" ∈ Object_prototype_names)). vm_compute. reflexivity.
      * exists LOG_LEVEL. split; [exact Henv|].
        apply list_elem_of_In. exact Hin.
Qed.
